(** * Position tracking, alerting and playback: a shallow embedding

    The development follows two React hooks of the tracker front end:

    - [useTracking] (browser geolocation feed, geofence and signal alerts,
      bounded track history, playback cursor), and
    - [useSupabaseTracking] (realtime change feed with per-device histories,
      and the progress table of the motion simulator).

    Every [setState(prev => ...)] updater of the hooks is a pure function on
    the hook state; it is embedded as a Rocq function of the same name.  A
    React ref that an updater mutates is carried next to the state.

    JavaScript numbers are embedded as exact rationals ([Q]); array indices and
    clock readings as integers ([Z]).  Not-a-number and rounding error of
    IEEE doubles are outside the embedding.  The two transcendental primitives
    the hooks call ([Math.sin], and the haversine [getDistance], which is built
    from [sin], [cos], [atan2] and [sqrt]) are operations of the class
    [JsNumerics]: every theorem holds for every implementation of them. *)

From Stdlib Require Import ZArith QArith Qround Qminmax Qabs Lia Lqa.
From stdpp Require Import base strings list gmap pretty.

(** ** JavaScript primitives *)

(** The numeric primitives that have no exact rational counterpart. *)
Class JsNumerics := {
  (** [Math.sin]. *)
  Math_sin : Q -> Q;
  (** [getDistance(lat1, lon1, lat2, lon2)]: great-circle distance in metres. *)
  getDistance : Q -> Q -> Q -> Q -> Q
}.

(** [Math.round]: nearest integer, ties towards plus infinity. *)
Definition Math_round (x : Q) : Z := Qfloor (x + (1 # 2)).

(** [a < b] on numbers. *)
Definition Qlt_bool (a b : Q) : bool := negb (Qle_bool b a).

(** Truthiness of a number: every number except zero. *)
Definition truthy (x : Q) : bool := negb (Qeq_bool x 0).

(** [x || 0] for a nullable number. *)
Definition orZero (x : option Q) : Q :=
  match x with
  | Some v => if truthy v then v else 0
  | None => 0
  end.

(** [arr.slice(-n)] for a positive [n]: the last [n] elements, the whole
    array when it is shorter. *)
Definition slice_last {A} (n : nat) (arr : list A) : list A :=
  drop (length arr - n) arr.

(** [arr[i]] for an integer [i]: [undefined] outside [0 .. length-1]. *)
Definition at_index {A} (arr : list A) (i : Z) : option A :=
  if (i <? 0)%Z then None else arr !! Z.to_nat i.

(** [arr.length] as a number. *)
Definition jsLength {A} (arr : list A) : Z := Z.of_nat (length arr).

(** ** Data model ([types/tracking]) *)

Module LatLng.
Record t := { lat : Q; lng : Q }.
End LatLng.
Abbreviation LatLng := LatLng.t.

(** All optional fields of [GPSPosition] are set by both hooks whenever they
    create a position, so they are plain fields here. *)
Module GPSPosition.
Record t := {
  id : string;
  latitude : Q;
  longitude : Q;
  timestamp : Z;
  speed : Q;
  heading : Q;
  altitude : Q;
  accuracy : Q;
  battery : Q;
  depth : Q;
  zone : string;
  signalStrength : Q
}.
End GPSPosition.
Abbreviation GPSPosition := GPSPosition.t.

Inductive DeviceType := mining_vehicle | personnel | equipment.
Inductive DeviceStatus := operational | breakdown_status | maintenance | emergency_status.

Module Device.
Record t := {
  id : string;
  name : string;
  type : DeviceType;
  lastPosition : option GPSPosition;
  isOnline : bool;
  lastSeen : Z;
  status : option DeviceStatus
}.
End Device.
Abbreviation Device := Device.t.

Inductive ZoneType := safe | restricted | hazard | emergency_point.

Module Geofence.
Record t := {
  id : string;
  name : string;
  center : LatLng;
  radius : Q;
  isActive : bool;
  alertOnEnter : bool;
  alertOnExit : bool;
  zoneType : option ZoneType
}.
End Geofence.
Abbreviation Geofence := Geofence.t.

Inductive MineZoneType := tunnel | shaft | station | extraction | emergency_exit.

(** [coordinates] is never empty in a zone the hook creates, and
    [determineZone] reads [coordinates[0]]: the first coordinate is a field
    of its own. *)
Module MineZone.
Record t := {
  id : string;
  name : string;
  level : Z;
  coordinates0 : LatLng;
  coordinatesRest : list LatLng;
  type : MineZoneType;
  beaconCount : option nat
}.
End MineZone.
Abbreviation MineZone := MineZone.t.

Inductive AlertType :=
  | geofence_enter | geofence_exit | low_battery | connection_lost
  | speeding | breakdown | emergency | signal_lost.

Inductive Priority := low | medium | high | critical.

Record AlertLocation := { loc_lat : Q; loc_lng : Q; loc_depth : option Q }.

Module Alert.
Record t := {
  id : string;
  type : AlertType;
  message : string;
  timestamp : Z;
  isRead : bool;
  deviceId : string;
  geofenceId : option string;
  priority : option Priority;
  location : option AlertLocation
}.
End Alert.
Abbreviation Alert := Alert.t.

Record TrackingState := {
  currentPosition : option GPSPosition;
  trackHistory : list GPSPosition;
  device : Device;
  geofences : list Geofence;
  alerts : list Alert;
  isPlaying : bool;
  playbackIndex : Z;
  playbackSpeed : Q;
  mineZones : list MineZone;
  isUnderground : bool
}.

(** The state of [useTracking]: the React state and the ref
    [initialPositionSet] that the position updater reads and writes. *)
Record Hook := {
  state : TrackingState;
  initialPositionSet : bool
}.

(** The browser's [GeolocationPosition]. *)
Record GeolocationCoordinates := {
  c_latitude : Q;
  c_longitude : Q;
  c_accuracy : Q;
  c_altitude : option Q;
  c_heading : option Q;
  c_speed : option Q
}.

Record GeolocationPosition := {
  coords : GeolocationCoordinates;
  g_timestamp : Z
}.

(** ** [useTracking]: constants and pure helpers *)

(** [lastSeen] is the time the module is loaded, taken as instant 0. *)
Definition miningVehicle : Device := {|
  Device.id := "vehicle-001";
  Device.name := "Mining Truck #1";
  Device.type := mining_vehicle;
  Device.lastPosition := None;
  Device.isOnline := true;
  Device.lastSeen := 0;
  Device.status := Some operational
|}.

Definition createMineZones (lat lng : Q) : list MineZone := [
  {| MineZone.id := "zone-main-tunnel"; MineZone.name := "Main Tunnel";
     MineZone.level := (-1);
     MineZone.coordinates0 := {| LatLng.lat := lat - (1 # 1000); LatLng.lng := lng - (2 # 1000) |};
     MineZone.coordinatesRest := [ {| LatLng.lat := lat + (1 # 1000); LatLng.lng := lng + (2 # 1000) |} ];
     MineZone.type := tunnel; MineZone.beaconCount := Some 8 |};
  {| MineZone.id := "zone-extraction"; MineZone.name := "Extraction Zone A";
     MineZone.level := (-2);
     MineZone.coordinates0 := {| LatLng.lat := lat - (5 # 10000); LatLng.lng := lng - (1 # 1000) |};
     MineZone.coordinatesRest := [ {| LatLng.lat := lat + (5 # 10000); LatLng.lng := lng + (1 # 1000) |} ];
     MineZone.type := extraction; MineZone.beaconCount := Some 4 |};
  {| MineZone.id := "zone-shaft"; MineZone.name := "Main Shaft";
     MineZone.level := 0;
     MineZone.coordinates0 := {| LatLng.lat := lat; LatLng.lng := lng |};
     MineZone.coordinatesRest := [];
     MineZone.type := shaft; MineZone.beaconCount := Some 2 |};
  {| MineZone.id := "zone-emergency"; MineZone.name := "Emergency Exit";
     MineZone.level := (-1);
     MineZone.coordinates0 := {| LatLng.lat := lat + (2 # 1000); LatLng.lng := lng + (1 # 1000) |};
     MineZone.coordinatesRest := [];
     MineZone.type := emergency_exit; MineZone.beaconCount := Some 1 |}
].

Definition createMineGeofences (lat lng : Q) : list Geofence := [
  {| Geofence.id := "geofence-safe-zone"; Geofence.name := "Safe Zone - Surface";
     Geofence.center := {| LatLng.lat := lat; LatLng.lng := lng |};
     Geofence.radius := 200;
     Geofence.isActive := true;
     Geofence.alertOnEnter := false; Geofence.alertOnExit := true;
     Geofence.zoneType := Some safe |};
  {| Geofence.id := "geofence-hazard"; Geofence.name := "Hazard Zone - Blasting Area";
     Geofence.center := {| LatLng.lat := lat - (1 # 1000); LatLng.lng := lng - (1 # 1000) |};
     Geofence.radius := 100;
     Geofence.isActive := true;
     Geofence.alertOnEnter := true; Geofence.alertOnExit := false;
     Geofence.zoneType := Some hazard |};
  {| Geofence.id := "geofence-emergency"; Geofence.name := "Emergency Rally Point";
     Geofence.center := {| LatLng.lat := lat + (2 # 1000); LatLng.lng := lng + (1 # 1000) |};
     Geofence.radius := 50;
     Geofence.isActive := true;
     Geofence.alertOnEnter := false; Geofence.alertOnExit := false;
     Geofence.zoneType := Some emergency_point |}
].

(** The initial value of [useState<TrackingState>] and of the ref. *)
Definition initialState : TrackingState := {|
  currentPosition := None;
  trackHistory := [];
  device := miningVehicle;
  geofences := [];
  alerts := [];
  isPlaying := false;
  playbackIndex := (-1);
  playbackSpeed := 1;
  mineZones := [];
  isUnderground := false
|}.

Definition initialHook : Hook :=
  {| state := initialState; initialPositionSet := false |}.

Section UseTracking.
Context `{JsNumerics}.

(** [calculateDepth(accuracy, history)]; [now] is the reading of
    [Date.now()] inside it. *)
Definition calculateDepth (now : Z) (accuracy : Q) (history : list GPSPosition) : Q :=
  if Qlt_bool 50 accuracy then
    let baseDepth := Qmin (accuracy / 2) 200 in
    let variation := (Math_sin (inject_Z now / 10000) * 20)%Q in
    inject_Z (Math_round (baseDepth + variation))
  else 0.

(** [calculateSignalStrength(accuracy, depth)]. *)
Definition calculateSignalStrength (accuracy depth : Q) : Q :=
  let baseSignal := Qmax 0 (100 - accuracy) in
  let depthPenalty := (depth * (3 # 10))%Q in
  Qmax 5 (inject_Z (Math_round (baseSignal - depthPenalty))).

(** [determineZone(lat, lng, zones)]: the first zone within 100 m. *)
Fixpoint determineZone (lat lng : Q) (zones : list MineZone) : string :=
  match zones with
  | [] => "Surface"
  | zone :: rest =>
      let center := MineZone.coordinates0 zone in
      let distance := getDistance lat lng (LatLng.lat center) (LatLng.lng center) in
      if Qlt_bool distance 100 then MineZone.name zone
      else determineZone lat lng rest
  end.

(** *** The position updater, [handlePosition]

    [now] is the clock reading ([Date.now()], [new Date()]) during the
    update.  The pieces of the updater are named after the local they
    compute. *)

(** The object literal bound to [newPosition]. *)
Definition newPosition (now : Z) (position : GeolocationPosition)
    (depth : Q) (zone : string) (signalStrength : Q) : GPSPosition :=
  let c := coords position in
  {| GPSPosition.id := "pos-" +:+ pretty now;
     GPSPosition.latitude := c_latitude c;
     GPSPosition.longitude := c_longitude c;
     GPSPosition.timestamp := g_timestamp position;
     GPSPosition.speed :=
       match c_speed c with
       | Some v => if truthy v then (v * (36 # 10))%Q else 0
       | None => 0
       end;
     GPSPosition.heading := orZero (c_heading c);
     GPSPosition.altitude := orZero (c_altitude c);
     GPSPosition.accuracy := c_accuracy c;
     GPSPosition.battery := 85;
     GPSPosition.depth := depth;
     GPSPosition.zone := zone;
     GPSPosition.signalStrength := signalStrength |}.

Definition alertLocation (newPos : GPSPosition) (depth : Q) : AlertLocation :=
  {| loc_lat := GPSPosition.latitude newPos;
     loc_lng := GPSPosition.longitude newPos;
     loc_depth := Some depth |}.

Definition exitAlert (now : Z) (dev : Device) (fence : Geofence)
    (newPos : GPSPosition) (depth : Q) : Alert :=
  {| Alert.id := "alert-" +:+ pretty now;
     Alert.type := geofence_exit;
     Alert.message := Device.name dev +:+ " left " +:+ Geofence.name fence;
     Alert.timestamp := now;
     Alert.isRead := false;
     Alert.deviceId := Device.id dev;
     Alert.geofenceId := Some (Geofence.id fence);
     Alert.priority :=
       Some (match Geofence.zoneType fence with Some safe => high | _ => medium end);
     Alert.location := Some (alertLocation newPos depth) |}.

Definition enterAlert (now : Z) (dev : Device) (fence : Geofence)
    (newPos : GPSPosition) (depth : Q) : Alert :=
  {| Alert.id := "alert-" +:+ pretty now;
     Alert.type := geofence_enter;
     Alert.message := Device.name dev +:+ " entered " +:+ Geofence.name fence;
     Alert.timestamp := now;
     Alert.isRead := false;
     Alert.deviceId := Device.id dev;
     Alert.geofenceId := Some (Geofence.id fence);
     Alert.priority :=
       Some (match Geofence.zoneType fence with Some hazard => critical | _ => low end);
     Alert.location := Some (alertLocation newPos depth) |}.

Definition signalAlert (now : Z) (dev : Device)
    (newPos : GPSPosition) (depth : Q) : Alert :=
  {| Alert.id := "alert-" +:+ pretty now +:+ "-signal";
     Alert.type := signal_lost;
     Alert.message :=
       "Low signal for " +:+ Device.name dev +:+ " - Position may be inaccurate";
     Alert.timestamp := now;
     Alert.isRead := false;
     Alert.deviceId := Device.id dev;
     Alert.geofenceId := None;
     Alert.priority := Some high;
     Alert.location := Some (alertLocation newPos depth) |}.

(** Whether a position is within the fence: [getDistance(...) <= fence.radius]. *)
Definition insideFence (fence : Geofence) (p : GPSPosition) : bool :=
  Qle_bool
    (getDistance (LatLng.lat (Geofence.center fence)) (LatLng.lng (Geofence.center fence))
                 (GPSPosition.latitude p) (GPSPosition.longitude p))
    (Geofence.radius fence).

(** One iteration of [geofences.forEach(fence => ...)]; [unshift] is a
    cons on [newAlerts]. *)
Definition checkFence (now : Z) (dev : Device) (lastPos : option GPSPosition)
    (newPos : GPSPosition) (depth : Q)
    (newAlerts : list Alert) (fence : Geofence) : list Alert :=
  match lastPos with
  | None => newAlerts
  | Some lastPos =>
      if negb (Geofence.isActive fence) then newAlerts
      else
        let wasInside := insideFence fence lastPos in
        let isInside := insideFence fence newPos in
        let newAlerts :=
          if wasInside && negb isInside && Geofence.alertOnExit fence
          then exitAlert now dev fence newPos depth :: newAlerts
          else newAlerts in
        if negb wasInside && isInside && Geofence.alertOnEnter fence
        then enterAlert now dev fence newPos depth :: newAlerts
        else newAlerts
  end.

(** The whole [forEach]. *)
Definition geofenceLoop (now : Z) (dev : Device) (lastPos : option GPSPosition)
    (newPos : GPSPosition) (depth : Q)
    (geofences : list Geofence) (newAlerts : list Alert) : list Alert :=
  foldl (checkFence now dev lastPos newPos depth) newAlerts geofences.

(** The guard of the signal-loss check:
    [signalStrength < 20 && prev.currentPosition?.signalStrength &&
     prev.currentPosition.signalStrength >= 20]. *)
Definition signalLossGuard (signalStrength : Q) (lastPos : option GPSPosition) : bool :=
  Qlt_bool signalStrength 20 &&
  match lastPos with
  | None => false
  | Some lastPos =>
      truthy (GPSPosition.signalStrength lastPos) &&
      Qle_bool 20 (GPSPosition.signalStrength lastPos)
  end.

Definition signalLossCheck (now : Z) (dev : Device) (lastPos : option GPSPosition)
    (newPos : GPSPosition) (depth : Q) (newAlerts : list Alert) : list Alert :=
  if signalLossGuard (GPSPosition.signalStrength newPos) lastPos
  then signalAlert now dev newPos depth :: newAlerts
  else newAlerts.

(** The zones and geofences in force for an update: created around the
    first fix, kept afterwards. *)
Definition zonesInForce (position : GeolocationPosition) (h : Hook) : list MineZone :=
  if initialPositionSet h then mineZones (state h)
  else createMineZones (c_latitude (coords position)) (c_longitude (coords position)).

Definition geofencesInForce (position : GeolocationPosition) (h : Hook) : list Geofence :=
  if initialPositionSet h then geofences (state h)
  else createMineGeofences (c_latitude (coords position)) (c_longitude (coords position)).

(** The position an update creates from a fix. *)
Definition positionOf (now : Z) (position : GeolocationPosition) (h : Hook) : GPSPosition :=
  let prev := state h in
  let depth := calculateDepth now (c_accuracy (coords position)) (trackHistory prev) in
  let signalStrength := calculateSignalStrength (c_accuracy (coords position)) depth in
  let zone :=
    determineZone (c_latitude (coords position)) (c_longitude (coords position))
                  (zonesInForce position h) in
  newPosition now position depth zone signalStrength.

(** [setState(prev => ...)] of [handlePosition]. *)
Definition handlePosition (now : Z) (position : GeolocationPosition) (h : Hook) : Hook :=
  let prev := state h in
  if isPlaying prev then h
  else
    let depth := calculateDepth now (c_accuracy (coords position)) (trackHistory prev) in
    let isUnderground := Qlt_bool 10 depth in
    let mineZones := zonesInForce position h in
    let geofences := geofencesInForce position h in
    let newPosition := positionOf now position h in
    let newHistory := slice_last 199 (trackHistory prev) ++ [newPosition] in
    let lastPos := currentPosition prev in
    let newAlerts :=
      geofenceLoop now (device prev) lastPos newPosition depth geofences (alerts prev) in
    let newAlerts :=
      signalLossCheck now (device prev) lastPos newPosition depth newAlerts in
    {| state :=
         {| currentPosition := Some newPosition;
            trackHistory := newHistory;
            device :=
              {| Device.id := Device.id (device prev);
                 Device.name := Device.name (device prev);
                 Device.type := Device.type (device prev);
                 Device.lastPosition := Some newPosition;
                 Device.isOnline := true;
                 Device.lastSeen := now;
                 Device.status := Device.status (device prev) |};
            geofences := geofences;
            alerts := take 50 newAlerts;
            isPlaying := isPlaying prev;
            playbackIndex := playbackIndex prev;
            playbackSpeed := playbackSpeed prev;
            mineZones := mineZones;
            isUnderground := isUnderground |};
       initialPositionSet := true |}.
End UseTracking.

(** *** Playback controls of [useTracking] *)

Definition onState (f : TrackingState -> TrackingState) (h : Hook) : Hook :=
  {| state := f (state h); initialPositionSet := initialPositionSet h |}.

(** The last element of the history, [trackHistory[length - 1] || null]. *)
Definition lastOfHistory (prev : TrackingState) : option GPSPosition :=
  at_index (trackHistory prev) (jsLength (trackHistory prev) - 1).

Definition startPlayback : Hook -> Hook :=
  onState (fun prev =>
    {| currentPosition := currentPosition prev;
       trackHistory := trackHistory prev;
       device := device prev;
       geofences := geofences prev;
       alerts := alerts prev;
       isPlaying := true;
       playbackIndex := 0;
       playbackSpeed := playbackSpeed prev;
       mineZones := mineZones prev;
       isUnderground := isUnderground prev |}).

Definition stopPlayback : Hook -> Hook :=
  onState (fun prev =>
    {| currentPosition := lastOfHistory prev;
       trackHistory := trackHistory prev;
       device := device prev;
       geofences := geofences prev;
       alerts := alerts prev;
       isPlaying := false;
       playbackIndex := (-1);
       playbackSpeed := playbackSpeed prev;
       mineZones := mineZones prev;
       isUnderground := isUnderground prev |}).

Definition setPlaybackIndex (index : Z) : Hook -> Hook :=
  onState (fun prev =>
    let pos := at_index (trackHistory prev) index in
    {| currentPosition :=
         match pos with Some p => Some p | None => currentPosition prev end;
       trackHistory := trackHistory prev;
       device := device prev;
       geofences := geofences prev;
       alerts := alerts prev;
       isPlaying := isPlaying prev;
       playbackIndex := index;
       playbackSpeed := playbackSpeed prev;
       mineZones := mineZones prev;
       isUnderground := isUnderground prev |}).

Definition setPlaybackSpeed (speed : Q) : Hook -> Hook :=
  onState (fun prev =>
    {| currentPosition := currentPosition prev;
       trackHistory := trackHistory prev;
       device := device prev;
       geofences := geofences prev;
       alerts := alerts prev;
       isPlaying := isPlaying prev;
       playbackIndex := playbackIndex prev;
       playbackSpeed := speed;
       mineZones := mineZones prev;
       isUnderground := isUnderground prev |}).

(** The updater the playback interval runs on every tick.  The interval is
    set up while [isPlaying] holds; the updater itself does not test the
    flag. *)
Definition playbackTick : Hook -> Hook :=
  onState (fun prev =>
    let nextIndex := (playbackIndex prev + 1)%Z in
    if (jsLength (trackHistory prev) <=? nextIndex)%Z then
      {| currentPosition := currentPosition prev;
         trackHistory := trackHistory prev;
         device := device prev;
         geofences := geofences prev;
         alerts := alerts prev;
         isPlaying := false;
         playbackIndex := (jsLength (trackHistory prev) - 1)%Z;
         playbackSpeed := playbackSpeed prev;
         mineZones := mineZones prev;
         isUnderground := isUnderground prev |}
    else
      {| currentPosition := at_index (trackHistory prev) nextIndex;
         trackHistory := trackHistory prev;
         device := device prev;
         geofences := geofences prev;
         alerts := alerts prev;
         isPlaying := isPlaying prev;
         playbackIndex := nextIndex;
         playbackSpeed := playbackSpeed prev;
         mineZones := mineZones prev;
         isUnderground := isUnderground prev |}).

(** [addGeofence(geofence)]: the new fence gets the id [geofence-<now>]. *)
Definition addGeofence (now : Z) (geofence : Geofence) : Hook -> Hook :=
  onState (fun prev =>
    {| currentPosition := currentPosition prev;
       trackHistory := trackHistory prev;
       device := device prev;
       geofences :=
         geofences prev ++
         [ {| Geofence.id := "geofence-" +:+ pretty now;
              Geofence.name := Geofence.name geofence;
              Geofence.center := Geofence.center geofence;
              Geofence.radius := Geofence.radius geofence;
              Geofence.isActive := Geofence.isActive geofence;
              Geofence.alertOnEnter := Geofence.alertOnEnter geofence;
              Geofence.alertOnExit := Geofence.alertOnExit geofence;
              Geofence.zoneType := Geofence.zoneType geofence |} ];
       alerts := alerts prev;
       isPlaying := isPlaying prev;
       playbackIndex := playbackIndex prev;
       playbackSpeed := playbackSpeed prev;
       mineZones := mineZones prev;
       isUnderground := isUnderground prev |}).

(** *** Runs of [useTracking] *)

(** The operations a run is made of.  A position event carries the clock
    reading of its update. *)
Inductive Event :=
  | EvStart
  | EvStop
  | EvSeek (index : Z)
  | EvTick
  | EvPosition (now : Z) (position : GeolocationPosition).

Section Runs.
Context `{JsNumerics}.

Definition applyEvent (h : Hook) (e : Event) : Hook :=
  match e with
  | EvStart => startPlayback h
  | EvStop => stopPlayback h
  | EvSeek index => setPlaybackIndex index h
  | EvTick => playbackTick h
  | EvPosition now position => handlePosition now position h
  end.

Definition run (es : list Event) (h : Hook) : Hook := foldl applyEvent h es.

(** States reachable from the initial state by any sequence of events. *)
Inductive reachable : Hook -> Prop :=
  | reachable_init : reachable initialHook
  | reachable_step h e : reachable h -> reachable (applyEvent h e).

(** A cursor that addresses an element of the history; on an empty
    history, the cursor 0 that [start()] sets. *)
Definition cursorInHistory (index : Z) (h : Hook) : Prop :=
  (0 <= index < jsLength (trackHistory (state h)))%Z \/
  (trackHistory (state h) = [] /\ index = 0%Z).

(** An event whose seek, if it is one made while playback is active,
    addresses an element of the history.  A seek made while playback is
    not active is any seek. *)
Definition playingSeekInRange (h : Hook) (e : Event) : Prop :=
  match e with
  | EvSeek index => isPlaying (state h) = true -> cursorInHistory index h
  | _ => True
  end.

(** Reachable states when every seek made while playback is active
    addresses an element of the history. *)
Inductive reachablePlayingSeekInRange : Hook -> Prop :=
  | reachablePlayingSeekInRange_init : reachablePlayingSeekInRange initialHook
  | reachablePlayingSeekInRange_step h e :
      reachablePlayingSeekInRange h -> playingSeekInRange h e ->
      reachablePlayingSeekInRange (applyEvent h e).

(** The cursor invariant that the operations maintain. *)
Definition cursorInvariant (h : Hook) : Prop :=
  isPlaying (state h) = true ->
  (0 <= playbackIndex (state h))%Z /\
  ((playbackIndex (state h) < jsLength (trackHistory (state h)))%Z \/
   (trackHistory (state h) = [] /\ playbackIndex (state h) = 0%Z)).

(** The alerts one position update unshifts, newest first: the update's
    [newAlerts] without the alerts it started from. *)
Definition emittedAlerts (now : Z) (position : GeolocationPosition) (h : Hook) : list Alert :=
  let prev := state h in
  if isPlaying prev then []
  else
    let depth := calculateDepth now (c_accuracy (coords position)) (trackHistory prev) in
    let newPosition := positionOf now position h in
    signalLossCheck now (device prev) (currentPosition prev) newPosition depth
      (geofenceLoop now (device prev) (currentPosition prev) newPosition depth
         (geofencesInForce position h) []).

(** A sequence of fixes applied in order. *)
Definition runFixes (fixes : list (Z * GeolocationPosition)) (h : Hook) : Hook :=
  foldl (fun h f => handlePosition f.1 f.2 h) h fixes.

(** The position each fix of a sequence creates. *)
Fixpoint appendedPositions (fixes : list (Z * GeolocationPosition)) (h : Hook)
    : list GPSPosition :=
  match fixes with
  | [] => []
  | f :: rest => positionOf f.1 f.2 h :: appendedPositions rest (handlePosition f.1 f.2 h)
  end.

(** The alerts each fix of a sequence emits. *)
Fixpoint emittedTrace (fixes : list (Z * GeolocationPosition)) (h : Hook)
    : list (list Alert) :=
  match fixes with
  | [] => []
  | f :: rest => emittedAlerts f.1 f.2 h :: emittedTrace rest (handlePosition f.1 f.2 h)
  end.

(** The signal-strength reading of each fix of a sequence. *)
Definition signalReadings (fixes : list (Z * GeolocationPosition)) (h : Hook) : list Q :=
  GPSPosition.signalStrength <$> appendedPositions fixes h.
End Runs.

Definition isEnter (a : Alert) : bool :=
  match Alert.type a with geofence_enter => true | _ => false end.

Definition isSignalLost (a : Alert) : bool :=
  match Alert.type a with signal_lost => true | _ => false end.

(** An enter alert that names the fence. *)
Definition isEnterFor (fence : Geofence) (a : Alert) : bool :=
  isEnter a && bool_decide (Alert.geofenceId a = Some (Geofence.id fence)).

(** *** The alert rules in the words of the specification *)

Section SpecRules.
Context `{JsNumerics}.

Definition distanceTo (fence : Geofence) (p : GPSPosition) : Q :=
  getDistance (LatLng.lat (Geofence.center fence)) (LatLng.lng (Geofence.center fence))
              (GPSPosition.latitude p) (GPSPosition.longitude p).

(** Enter transition: the fence is active, a previous position exists and
    lies further from the centre than the radius, the new position lies
    within the radius (boundary included), and the fence alerts on enter. *)
Definition spec_enterTransition (fence : Geofence) (previous : option GPSPosition)
    (new : GPSPosition) : Prop :=
  Geofence.isActive fence = true /\
  (exists p, previous = Some p /\ (Geofence.radius fence < distanceTo fence p)%Q) /\
  (distanceTo fence new <= Geofence.radius fence)%Q /\
  Geofence.alertOnEnter fence = true.

Definition spec_enterTransitionb (fence : Geofence) (previous : option GPSPosition)
    (new : GPSPosition) : bool :=
  Geofence.isActive fence &&
  match previous with
  | Some p => Qlt_bool (Geofence.radius fence) (distanceTo fence p)
  | None => false
  end &&
  Qle_bool (distanceTo fence new) (Geofence.radius fence) &&
  Geofence.alertOnEnter fence.
End SpecRules.

(** Falling edge of the signal strength: a previous reading exists, it is at
    least 20, and the current reading is below 20. *)
Definition spec_fallingEdge (previous : option Q) (current : Q) : bool :=
  match previous with
  | Some p => Qle_bool 20 p && Qlt_bool current 20
  | None => false
  end.

(** The falling edges of a sequence of readings, one flag per reading. *)
Fixpoint spec_fallingEdges (previous : option Q) (readings : list Q) : list bool :=
  match readings with
  | [] => []
  | r :: rest => spec_fallingEdge previous r :: spec_fallingEdges (Some r) rest
  end.

(** [clamp(index, 0, length - 1)]. *)
Definition spec_clamp (index length : Z) : Z := Z.max 0 (Z.min index (length - 1)).

(** ** [useSupabaseTracking]: change feed and simulator progress *)

Module Supabase.

(** A row of [tracking_positions].  The ISO timestamp is carried as the
    instant it denotes; [raw_data] is not read by the hook. *)
Record TrackingPosition := {
  id : string;
  device_id : string;
  latitude : Q;
  longitude : Q;
  depth : Q;
  altitude : Q;
  speed : Q;
  heading : Q;
  accuracy : Q;
  signal_strength : Q;
  zone : option string;
  timestamp : Z
}.

Definition toGPSPosition (pos : TrackingPosition) : GPSPosition :=
  {| GPSPosition.id := id pos;
     GPSPosition.latitude := latitude pos;
     GPSPosition.longitude := longitude pos;
     GPSPosition.timestamp := timestamp pos;
     GPSPosition.speed := speed pos;
     GPSPosition.heading := heading pos;
     GPSPosition.altitude := altitude pos;
     GPSPosition.accuracy := accuracy pos;
     GPSPosition.battery := 85;
     GPSPosition.depth := depth pos;
     GPSPosition.zone :=
       match zone pos with
       | Some z => if bool_decide (z = "") then "Unknown" else z
       | None => "Unknown"
       end;
     GPSPosition.signalStrength := signal_strength pos |}.

(** The part of the hook state the position feed writes. *)
Record State := {
  currentPosition : option GPSPosition;
  trackHistory : list GPSPosition;
  allDevicePositions : gmap string GPSPosition;
  allDeviceTrackHistory : gmap string (list GPSPosition)
}.

Definition initial : State :=
  {| currentPosition := None; trackHistory := [];
     allDevicePositions := ∅; allDeviceTrackHistory := ∅ |}.

(** [!selectedDeviceId || device_id === selectedDeviceId]. *)
Definition forSelectedDevice (selectedDeviceId : option string) (device_id : string) : bool :=
  match selectedDeviceId with
  | None => true
  | Some s => bool_decide (s = "") || bool_decide (device_id = s)
  end.

(** The handler of [INSERT] events on [tracking_positions]. *)
Definition onPositionInsert (selectedDeviceId : option string)
    (st : State) (newPosition : TrackingPosition) : State :=
  let gpsPosition := toGPSPosition newPosition in
  let positions := <[device_id newPosition := gpsPosition]> (allDevicePositions st) in
  let deviceHistory := default [] (allDeviceTrackHistory st !! device_id newPosition) in
  let histories :=
    <[device_id newPosition := slice_last 199 deviceHistory ++ [gpsPosition]]>
      (allDeviceTrackHistory st) in
  if forSelectedDevice selectedDeviceId (device_id newPosition) then
    {| currentPosition := Some gpsPosition;
       trackHistory := slice_last 199 (trackHistory st) ++ [gpsPosition];
       allDevicePositions := positions;
       allDeviceTrackHistory := histories |}
  else
    {| currentPosition := currentPosition st;
       trackHistory := trackHistory st;
       allDevicePositions := positions;
       allDeviceTrackHistory := histories |}.

Definition feed (selectedDeviceId : option string)
    (rows : list TrackingPosition) (st : State) : State :=
  foldl (onPositionInsert selectedDeviceId) st rows.

(** The rows of one device, in arrival order. *)
Definition rowsOf (d : string) (rows : list TrackingPosition) : list TrackingPosition :=
  filter (fun r => device_id r = d) rows.

(** *** Simulator progress ([simulationStateRef]) *)

Record SimProgress := { pathIndex : Z; progress : Q }.

Definition freshProgress : SimProgress := {| pathIndex := 0; progress := 0 |}.

(** [devicePaths.forEach(({ deviceId }) => { if (!ref.has(deviceId))
    ref.set(deviceId, { pathIndex: 0, progress: 0 }) })], on the device ids
    of [devicePaths]. *)
Definition initSimulationState (deviceIds : list string)
    (ref : gmap string SimProgress) : gmap string SimProgress :=
  foldl (fun ref deviceId =>
           match ref !! deviceId with
           | Some _ => ref
           | None => <[deviceId := freshProgress]> ref
           end)
        ref deviceIds.

(** [simulationStateRef.current.clear()] of [stopSimulation]. *)
Definition stopSimulation (ref : gmap string SimProgress) : gmap string SimProgress := ∅.

End Supabase.

(** ** [useTracking]: manual actions and the full set of operations *)

(** [zone || 'Unknown Zone']. *)
Definition zoneOrUnknown (zone : string) : string :=
  if bool_decide (zone = "") then "Unknown Zone" else zone.

Definition withStatus (status : DeviceStatus) (dev : Device) : Device :=
  {| Device.id := Device.id dev;
     Device.name := Device.name dev;
     Device.type := Device.type dev;
     Device.lastPosition := Device.lastPosition dev;
     Device.isOnline := Device.isOnline dev;
     Device.lastSeen := Device.lastSeen dev;
     Device.status := Some status |}.

Definition withAlertsAndDevice (newAlerts : list Alert) (dev : Device)
    (prev : TrackingState) : TrackingState :=
  {| currentPosition := currentPosition prev;
     trackHistory := trackHistory prev;
     device := dev;
     geofences := geofences prev;
     alerts := newAlerts;
     isPlaying := isPlaying prev;
     playbackIndex := playbackIndex prev;
     playbackSpeed := playbackSpeed prev;
     mineZones := mineZones prev;
     isUnderground := isUnderground prev |}.

Definition emergencyAlert (now : Z) (dev : Device) (pos : GPSPosition) : Alert :=
  {| Alert.id := "alert-emergency-" +:+ pretty now;
     Alert.type := emergency;
     Alert.message :=
       "EMERGENCY: " +:+ Device.name dev +:+ " - Breakdown/Emergency at "
       +:+ zoneOrUnknown (GPSPosition.zone pos);
     Alert.timestamp := now;
     Alert.isRead := false;
     Alert.deviceId := Device.id dev;
     Alert.geofenceId := None;
     Alert.priority := Some critical;
     Alert.location :=
       Some {| loc_lat := GPSPosition.latitude pos;
               loc_lng := GPSPosition.longitude pos;
               loc_depth := Some (GPSPosition.depth pos) |} |}.

Definition breakdownAlert (now : Z) (dev : Device) (pos : GPSPosition) : Alert :=
  {| Alert.id := "alert-breakdown-" +:+ pretty now;
     Alert.type := breakdown;
     Alert.message :=
       "BREAKDOWN: " +:+ Device.name dev +:+ " requires assistance at "
       +:+ zoneOrUnknown (GPSPosition.zone pos);
     Alert.timestamp := now;
     Alert.isRead := false;
     Alert.deviceId := Device.id dev;
     Alert.geofenceId := None;
     Alert.priority := Some high;
     Alert.location :=
       Some {| loc_lat := GPSPosition.latitude pos;
               loc_lng := GPSPosition.longitude pos;
               loc_depth := Some (GPSPosition.depth pos) |} |}.

(** [triggerEmergency()]: nothing without a current position. *)
Definition triggerEmergency (now : Z) : Hook -> Hook :=
  onState (fun prev =>
    match currentPosition prev with
    | None => prev
    | Some pos =>
        withAlertsAndDevice
          (take 50 (emergencyAlert now (device prev) pos :: alerts prev))
          (withStatus emergency_status (device prev)) prev
    end).

(** [reportBreakdown()]: nothing without a current position. *)
Definition reportBreakdown (now : Z) : Hook -> Hook :=
  onState (fun prev =>
    match currentPosition prev with
    | None => prev
    | Some pos =>
        withAlertsAndDevice
          (take 50 (breakdownAlert now (device prev) pos :: alerts prev))
          (withStatus breakdown_status (device prev)) prev
    end).

(** [clearEmergency()]. *)
Definition clearEmergency : Hook -> Hook :=
  onState (fun prev =>
    withAlertsAndDevice (alerts prev) (withStatus operational (device prev)) prev).

(** [{ ...a, isRead: true }]. *)
Definition markRead (a : Alert) : Alert :=
  {| Alert.id := Alert.id a;
     Alert.type := Alert.type a;
     Alert.message := Alert.message a;
     Alert.timestamp := Alert.timestamp a;
     Alert.isRead := true;
     Alert.deviceId := Alert.deviceId a;
     Alert.geofenceId := Alert.geofenceId a;
     Alert.priority := Alert.priority a;
     Alert.location := Alert.location a |}.

(** [alerts.map(a => a.id === alertId ? { ...a, isRead: true } : a)]. *)
Definition dismissIn (alertId : string) (alerts : list Alert) : list Alert :=
  map (fun a => if bool_decide (Alert.id a = alertId) then markRead a else a) alerts.

(** [dismissAlert(alertId)]. *)
Definition dismissAlert (alertId : string) : Hook -> Hook :=
  onState (fun prev => withAlertsAndDevice (dismissIn alertId (alerts prev)) (device prev) prev).

(** [alerts.filter(a => !a.isRead)] of the alerts panel. *)
Definition unreadAlerts (alerts : list Alert) : list Alert :=
  List.filter (fun a => negb (Alert.isRead a)) alerts.

(** Every operation the hook returns, and the two it runs itself (position
    updates and playback ticks). *)
Inductive Action :=
  | ActPosition (now : Z) (position : GeolocationPosition)
  | ActTick
  | ActStartPlayback
  | ActStopPlayback
  | ActSetPlaybackIndex (index : Z)
  | ActSetPlaybackSpeed (speed : Q)
  | ActDismissAlert (alertId : string)
  | ActAddGeofence (now : Z) (geofence : Geofence)
  | ActTriggerEmergency (now : Z)
  | ActReportBreakdown (now : Z)
  | ActClearEmergency.

Section Actions.
Context `{JsNumerics}.

Definition applyAction (h : Hook) (a : Action) : Hook :=
  match a with
  | ActPosition now position => handlePosition now position h
  | ActTick => playbackTick h
  | ActStartPlayback => startPlayback h
  | ActStopPlayback => stopPlayback h
  | ActSetPlaybackIndex index => setPlaybackIndex index h
  | ActSetPlaybackSpeed speed => setPlaybackSpeed speed h
  | ActDismissAlert alertId => dismissAlert alertId h
  | ActAddGeofence now geofence => addGeofence now geofence h
  | ActTriggerEmergency now => triggerEmergency now h
  | ActReportBreakdown now => reportBreakdown now h
  | ActClearEmergency => clearEmergency h
  end.

Definition runActions (acts : list Action) (h : Hook) : Hook := foldl applyAction h acts.

(** An action whose seek, if it is one, addresses an element of the history. *)
Definition actionSeekInRange (h : Hook) (a : Action) : Prop :=
  match a with
  | ActSetPlaybackIndex index => (0 <= index < jsLength (trackHistory (state h)))%Z
  | _ => True
  end.

(** The exit transition in the words of the code's condition: the fence is
    active, a previous position exists within the radius, the new position
    lies outside it, and the fence alerts on exit. *)
Definition exitTransition (fence : Geofence) (previous : option GPSPosition)
    (new : GPSPosition) : Prop :=
  Geofence.isActive fence = true /\
  (exists p, previous = Some p /\ (distanceTo fence p <= Geofence.radius fence)%Q) /\
  (Geofence.radius fence < distanceTo fence new)%Q /\
  Geofence.alertOnExit fence = true.
End Actions.

Section ActionRuns.
Context `{JsNumerics}.

(** States reachable from the initial state by any sequence of actions
    whose seeks address an element of the history. *)
Inductive reachableByActions : Hook -> Prop :=
  | reachableByActions_init : reachableByActions initialHook
  | reachableByActions_step h a :
      reachableByActions h -> actionSeekInRange h a ->
      reachableByActions (applyAction h a).

(** What holds of the cursor and the current position in every reachable
    state: the cursor is at least -1, an empty history has no current
    position, and the live view shows the newest position. *)
Definition liveViewInvariant (h : Hook) : Prop :=
  (-1 <= playbackIndex (state h))%Z /\
  (trackHistory (state h) = [] -> currentPosition (state h) = None) /\
  (isPlaying (state h) = false -> playbackIndex (state h) = (-1)%Z ->
   currentPosition (state h) = last (trackHistory (state h))).

(** The distance [determineZone] compares with 100. *)
Definition zoneDistance (lat lng : Q) (zone : MineZone) : Q :=
  getDistance lat lng (LatLng.lat (MineZone.coordinates0 zone))
              (LatLng.lng (MineZone.coordinates0 zone)).
End ActionRuns.

(** The names of the zones that [createMineZones] creates. *)
Definition mineZoneNames : list string :=
  ["Main Tunnel"; "Extraction Zone A"; "Main Shaft"; "Emergency Exit"].

(** ** The playback controls component

    The handlers of [PlaybackControls], as functions of its props: the
    positions, the current index and the callbacks [onSeek] and [onStop]. *)

Module PlaybackControls.

Definition handleSkipBack {S} (currentIndex : Z) (onSeek : Z -> S -> S) : S -> S :=
  let newIndex := Z.max 0 (currentIndex - 10) in
  onSeek newIndex.

Definition handleSkipForward {S} (positions : list GPSPosition) (currentIndex : Z)
    (onSeek : Z -> S -> S) : S -> S :=
  let newIndex := Z.min (jsLength positions - 1) (currentIndex + 10) in
  onSeek newIndex.

Definition handleReset {S} (positions : list GPSPosition)
    (onStop : S -> S) (onSeek : Z -> S -> S) : S -> S :=
  fun s => onSeek (jsLength positions - 1)%Z (onStop s).

(** The handlers driven by the state of [useTracking]: the positions are
    the track history, the current index is the playback cursor, and the
    callbacks are [setPlaybackIndex] and [stopPlayback]. *)
Definition skipBack (h : Hook) : Hook :=
  handleSkipBack (playbackIndex (state h)) setPlaybackIndex h.

Definition skipForward (h : Hook) : Hook :=
  handleSkipForward (trackHistory (state h)) (playbackIndex (state h)) setPlaybackIndex h.

Definition reset (h : Hook) : Hook :=
  handleReset (trackHistory (state h)) stopPlayback setPlaybackIndex h.

End PlaybackControls.

(** ** Playback of the index page

    The index page keeps its own playback state next to the history of
    [useSupabaseTracking]; [len] is [trackHistory.length] at the time of
    the call. *)

Module IndexPage.

Record Playback := {
  isPlaying : bool;
  playbackIndex : Z;
  playbackSpeed : Q
}.

Definition initial : Playback :=
  {| isPlaying := false; playbackIndex := (-1); playbackSpeed := 1 |}.

Definition handleTogglePlay (len : Z) (s : Playback) : Playback :=
  {| isPlaying := negb (isPlaying s);
     playbackIndex :=
       if negb (isPlaying s) && (playbackIndex s <? 0)%Z && (0 <? len)%Z
       then 0%Z else playbackIndex s;
     playbackSpeed := playbackSpeed s |}.

Definition handleStop (s : Playback) : Playback :=
  {| isPlaying := false; playbackIndex := (-1); playbackSpeed := playbackSpeed s |}.

Definition handleSkipBack (len : Z) (s : Playback) : Playback :=
  if (len =? 0)%Z then s
  else {| isPlaying := false;
          playbackIndex := Z.max 0 (playbackIndex s - 1);
          playbackSpeed := playbackSpeed s |}.

Definition handleSkipForward (len : Z) (s : Playback) : Playback :=
  if (len =? 0)%Z then s
  else {| isPlaying := false;
          playbackIndex := Z.min (len - 1) (playbackIndex s + 1);
          playbackSpeed := playbackSpeed s |}.

Definition setPlaybackSpeed (speed : Q) (s : Playback) : Playback :=
  {| isPlaying := isPlaying s; playbackIndex := playbackIndex s; playbackSpeed := speed |}.

(** The updater of the playback interval:
    [next = prev + playbackSpeed]; at or past the end it clears the playing
    flag and returns the last index, otherwise it returns [Math.floor(next)]. *)
Definition intervalTick (len : Z) (s : Playback) : Playback :=
  let next := (inject_Z (playbackIndex s) + playbackSpeed s)%Q in
  if Qle_bool (inject_Z len) next then
    {| isPlaying := false; playbackIndex := (len - 1)%Z; playbackSpeed := playbackSpeed s |}
  else
    {| isPlaying := isPlaying s; playbackIndex := Qfloor next;
       playbackSpeed := playbackSpeed s |}.

(** One firing of the playback effect and its interval: nothing unless
    playing on a non-empty history; a negative index is first set to 0;
    otherwise the interval ticks. *)
Definition playbackStep (len : Z) (s : Playback) : Playback :=
  if negb (isPlaying s) || (len =? 0)%Z then s
  else if (playbackIndex s <? 0)%Z then
    {| isPlaying := isPlaying s; playbackIndex := 0; playbackSpeed := playbackSpeed s |}
  else intervalTick len s.

(** The handlers of the page. *)
Inductive Handler :=
  | TogglePlay | Stop | SkipBack | SkipForward | SetSpeed (speed : Q) | Step.

Definition handle (len : Z) (s : Playback) (a : Handler) : Playback :=
  match a with
  | TogglePlay => handleTogglePlay len s
  | Stop => handleStop s
  | SkipBack => handleSkipBack len s
  | SkipForward => handleSkipForward len s
  | SetSpeed speed => setPlaybackSpeed speed s
  | Step => playbackStep len s
  end.

(** A speed the handler sets, if it sets one, is not negative. *)
Definition speedNonNegative (a : Handler) : Prop :=
  match a with
  | SetSpeed speed => (0 <= speed)%Q
  | _ => True
  end.

(** [activePosition] of the 3D view: the history element at the cursor when
    the cursor addresses one, the current position otherwise. *)
Definition activePosition (playbackIndex : Z) (trackHistory : list GPSPosition)
    (currentPosition : option GPSPosition) : option GPSPosition :=
  if (0 <=? playbackIndex)%Z && (playbackIndex <? jsLength trackHistory)%Z
  then at_index trackHistory playbackIndex
  else currentPosition.

(** [headingDirection] of the index page, on
    [currentPosition?.heading || 0]. *)
Definition headingDirection (heading : Q) : string :=
  if Qle_bool 337.5 heading || Qlt_bool heading 22.5 then "N"
  else if Qle_bool 22.5 heading && Qlt_bool heading 67.5 then "NE"
  else if Qle_bool 67.5 heading && Qlt_bool heading 112.5 then "E"
  else if Qle_bool 112.5 heading && Qlt_bool heading 157.5 then "SE"
  else if Qle_bool 157.5 heading && Qlt_bool heading 202.5 then "S"
  else if Qle_bool 202.5 heading && Qlt_bool heading 247.5 then "SW"
  else if Qle_bool 247.5 heading && Qlt_bool heading 292.5 then "W"
  else "NW".

End IndexPage.

(** ** The status panel ([StatusPanel]) *)

Module StatusPanel.

Definition directions : list string := ["N"; "NE"; "E"; "SE"; "S"; "SW"; "W"; "NW"].

(** [getHeadingDirection(heading)]: [directions[Math.round(heading / 45) % 8]],
    [undefined] (here [None]) for a negative index. *)
Definition getHeadingDirection (heading : Q) : option string :=
  let index := Z.rem (Math_round (heading / 45)) 8 in
  at_index directions index.

End StatusPanel.

Definition isExit (a : Alert) : bool :=
  match Alert.type a with geofence_exit => true | _ => false end.

(** The three kinds of alert that position updates raise with the fences
    of [createMineGeofences]: leaving the safe zone, entering the hazard
    zone, and losing the signal. *)
Definition defaultAlertKind (a : Alert) : Prop :=
  (Alert.type a = geofence_exit /\ Alert.geofenceId a = Some "geofence-safe-zone" /\
   Alert.priority a = Some high) \/
  (Alert.type a = geofence_enter /\ Alert.geofenceId a = Some "geofence-hazard" /\
   Alert.priority a = Some critical) \/
  (Alert.type a = signal_lost /\ Alert.geofenceId a = None /\
   Alert.priority a = Some high).

(** An unread alert of the vehicle, of one of the three kinds. *)
Definition defaultAlert (a : Alert) : Prop :=
  Alert.isRead a = false /\ Alert.deviceId a = "vehicle-001" /\ defaultAlertKind a.

(** [n] playback ticks in a row. *)
Definition ticks (n : nat) (h : Hook) : Hook := Nat.iter n playbackTick h.

(** ** [useSupabaseTracking]: the alert feed *)

Module AlertFeed.

(** The alert types of the [tracking_alerts] table. *)
Inductive DbAlertType :=
  | db_emergency | db_breakdown | db_geofence_enter | db_geofence_exit
  | db_low_battery | db_signal_lost | db_speeding | db_offline.

(** A row of [tracking_alerts]; [created_at] is carried as the instant it
    denotes, and the resolution fields, which the hook does not read, are
    left out. *)
Record TrackingAlert := {
  id : string;
  device_id : string;
  type : DbAlertType;
  priority : Priority;
  message : string;
  latitude : option Q;
  longitude : option Q;
  depth : option Q;
  zone : option string;
  is_read : bool;
  created_at : Z
}.

(** The alert [toAlert] builds.  Its type field is the row's type under a
    cast, so it ranges over the types of the table. *)
Record FeedAlert := {
  a_id : string;
  a_type : DbAlertType;
  a_message : string;
  a_timestamp : Z;
  a_isRead : bool;
  a_deviceId : string;
  a_priority : Priority;
  a_location : option AlertLocation
}.

(** Truthiness of a nullable number. *)
Definition truthyOpt (x : option Q) : bool :=
  match x with Some v => truthy v | None => false end.

Definition toAlert (dbAlert : TrackingAlert) : FeedAlert :=
  {| a_id := id dbAlert;
     a_type := type dbAlert;
     a_message := message dbAlert;
     a_timestamp := created_at dbAlert;
     a_isRead := is_read dbAlert;
     a_deviceId := device_id dbAlert;
     a_priority := priority dbAlert;
     a_location :=
       match latitude dbAlert, longitude dbAlert with
       | Some la, Some lo =>
           if truthy la && truthy lo then
             Some {| loc_lat := la; loc_lng := lo;
                     loc_depth := if truthyOpt (depth dbAlert) then depth dbAlert else None |}
           else None
       | _, _ => None
       end |}.

(** The handler of [INSERT] events on [tracking_alerts]:
    [[toAlert(newAlert), ...prev].slice(0, 50)]. *)
Definition onAlertInsert (prev : list FeedAlert) (newAlert : TrackingAlert) : list FeedAlert :=
  take 50 (toAlert newAlert :: prev).

Definition feedAlerts (rows : list TrackingAlert) (prev : list FeedAlert) : list FeedAlert :=
  foldl onAlertInsert prev rows.

End AlertFeed.

(** ** [useSupabaseTracking]: the initial fetch of a selected device *)

Module InitialFetch.

(** What [fetchInitialData] writes to the position state when a device is
    selected and found in the device list.  [positionsData] is the result
    of the query: the rows of the device, newest first, at most 200 of them
    ([limit(200)]).  The per-device tables are not written. *)
Definition onPositionsFetched (positionsData : list Supabase.TrackingPosition)
    (st : Supabase.State) : Supabase.State :=
  let positions := Supabase.toGPSPosition <$> rev positionsData in
  {| Supabase.currentPosition :=
       if (0 <? jsLength positions)%Z
       then at_index positions (jsLength positions - 1)
       else Supabase.currentPosition st;
     Supabase.trackHistory := positions;
     Supabase.allDevicePositions := Supabase.allDevicePositions st;
     Supabase.allDeviceTrackHistory := Supabase.allDeviceTrackHistory st |}.

End InitialFetch.

(** ** [useSupabaseTracking]: the motion simulator *)

(** The numeric primitives of the simulator tick. *)
Class SimNumerics := {
  (** [Math.sqrt]. *)
  Math_sqrt : Q -> Q;
  (** [Math.atan2(dx, dz) * (180 / Math.PI)]. *)
  headingDegrees : Q -> Q -> Q
}.

Module Simulator.

Record Vector3D := { x : Q; y : Q; z : Q }.

Inductive NodeType := junction | end_node | entry | shaft_entry.

Record MineNode := {
  id : string;
  position : Vector3D;
  type : NodeType;
  label : option string
}.

(** [n(id, x, y, z, type = 'junction', label)] of the layout file. *)
Definition n (id : string) (x y z : Q) (type : NodeType) (label : option string) : MineNode :=
  {| id := id; position := {| x := x; y := y; z := z |}; type := type; label := label |}.

Definition CENTER_LAT : Q := 22292675 # 1000000.
Definition CENTER_LNG : Q := 73366018 # 1000000.

(** [mineLayout.nodes]. *)
Definition nodes : list MineNode := [
  n "surf_entry" 0 0 0 shaft_entry (Some "Main Shaft Entry");
  n "shaft_l1" 0 (-50) 0 junction (Some "Level 1 Station");
  n "shaft_l2" 0 (-150) 0 junction (Some "Level 2 Station");
  n "shaft_l3" 0 (-250) 0 junction (Some "Level 3 Station");
  n "shaft_bottom" 0 (-300) 0 end_node (Some "Sump");
  n "l1_n1" 50 (-50) 20 junction None;
  n "l1_n2" 100 (-50) 40 end_node (Some "Workshop");
  n "l1_n3" (-60) (-50) 10 junction None;
  n "l1_n4" (-120) (-50) (-30) end_node (Some "Storage");
  n "l1_loop_1" 40 (-50) (-40) junction None;
  n "l1_loop_2" (-20) (-50) (-50) junction None;
  n "l2_n1" 20 (-150) 80 junction None;
  n "l2_n2" 40 (-150) 150 end_node (Some "Face A");
  n "l2_n3" (-30) (-150) 60 junction None;
  n "l2_n4" (-80) (-150) 90 end_node (Some "Face B");
  n "l2_cross_1" 100 (-150) 0 junction None;
  n "l2_cross_2" 120 (-150) (-100) end_node (Some "Ventilation");
  n "l3_n1" (-40) (-250) (-40) junction None;
  n "l3_n2" (-100) (-260) (-80) end_node (Some "Extraction Point");
  n "l3_n3" 60 (-250) (-20) junction None;
  n "l3_n4" 150 (-280) (-50) end_node (Some "Deep Exploration");
  n "ramp_s_l1_mid" 80 (-25) 50 junction None;
  n "ramp_l1_l2_mid" 150 (-100) 50 junction None
].

Inductive PathType := path1 | path2 | path3.

Definition route1 : list string := [
  "surf_entry"; "shaft_l1"; "l1_n1"; "l1_n2"; "l1_n1"; "shaft_l1";
  "shaft_l2"; "l2_n1"; "l2_n2"; "l2_n1"; "l2_cross_1"; "l2_cross_2";
  "l2_cross_1"; "shaft_l2"; "shaft_l3"; "l3_n1"; "l3_n2"; "l3_n1";
  "l3_n3"; "l3_n4"; "l3_n3"; "shaft_l3"; "shaft_l2"; "shaft_l1"; "surf_entry"
].

Definition route2 : list string := [
  "surf_entry"; "shaft_l1"; "l1_n3"; "l1_n4"; "l1_n3"; "l1_loop_1";
  "l1_loop_2"; "shaft_l1"; "shaft_l2"; "l2_n3"; "l2_n4"; "l2_n3";
  "shaft_l2"; "shaft_l1"; "surf_entry"
].

Definition route3 : list string := [
  "surf_entry"; "shaft_l1"; "shaft_l2"; "shaft_l3"; "l3_n3"; "l3_n4";
  "l3_n3"; "l3_n1"; "l3_n2"; "l3_n1"; "shaft_l3"; "shaft_l2";
  "l2_cross_1"; "l2_cross_2"; "l2_cross_1"; "shaft_l2"; "shaft_l1"; "surf_entry"
].

Record Waypoint := {
  nodeId : string;
  lat : Q;
  lng : Q;
  depth : Q;
  w_position : Vector3D
}.

(** The waypoint of a route entry; nothing for an id the layout lacks. *)
Definition waypointOf (nodeId : string) : option Waypoint :=
  match List.find (fun node => bool_decide (id node = nodeId)) nodes with
  | None => None
  | Some node =>
      let dLat := (z (position node) / 111320)%Q in
      let dLng := (x (position node) / 103000)%Q in
      Some {| nodeId := nodeId;
              lat := CENTER_LAT - dLat;
              lng := CENTER_LNG + dLng;
              depth := - y (position node);
              w_position := position node |}
  end.

(** [createTunnelPath(pathType)]: the route mapped to waypoints, unknown
    ids dropped. *)
Definition createTunnelPath (pathType : PathType) : list Waypoint :=
  let route :=
    match pathType with path1 => route1 | path2 => route2 | path3 => route3 end in
  omap waypointOf route.

(** The row the tick inserts into [tracking_positions]. *)
Record PositionInsert := {
  device_id : string;
  latitude : Q;
  longitude : Q;
  p_depth : Q;
  altitude : Q;
  speed : Q;
  heading : Q;
  accuracy : Q;
  signal_strength : Z;
  zone : string;
  raw_simulated : bool;
  raw_timestamp : Z;
  raw_is_underground : bool
}.

(** The zone label of a depth. *)
Definition zoneOfDepth (depth : Q) : string :=
  if Qlt_bool 200 depth then "Level 3 - Deep Extraction"
  else if Qlt_bool 100 depth then "Level 2 - Production"
  else if Qlt_bool 30 depth then "Level 1 - Logistics"
  else if Qlt_bool 0 depth then "Main Shaft"
  else "Surface".

Definition simulatedZones : list string :=
  ["Level 3 - Deep Extraction"; "Level 2 - Production"; "Level 1 - Logistics";
   "Main Shaft"; "Surface"].

(** [speed = 8] km/h and [moveDistance = (speed / 3600) * 2]. *)
Definition simSpeed : Q := 8.
Definition moveDistance : Q := (simSpeed / 3600) * 2.

Section Tick.
Context `{SimNumerics}.

(** The row built from the interpolated point; [random1] and [random2] are
    the two draws of [Math.random()], in the order the tick makes them. *)
Definition positionData (now : Z) (random1 random2 : Q) (deviceId : string)
    (lat lng depth normalizedHeading : Q) : PositionInsert :=
  let signalStrength := Qmax 5 (100 - depth / 3 - random1 * 5) in
  {| device_id := deviceId;
     latitude := lat;
     longitude := lng;
     p_depth := depth;
     altitude := - depth;
     speed := simSpeed + random2 * 2;
     heading := normalizedHeading;
     accuracy := 5 + depth * (5 # 100);
     signal_strength := Math_round signalStrength;
     zone := zoneOfDepth depth;
     raw_simulated := true;
     raw_timestamp := now;
     raw_is_underground := Qlt_bool 5 depth |}.

(** [distance]: the straight-line length of the segment between two
    waypoints. *)
Definition segmentLength (currentPoint nextPoint : Waypoint) : Q :=
  let dx := (x (w_position nextPoint) - x (w_position currentPoint))%Q in
  let dy := (y (w_position nextPoint) - y (w_position currentPoint))%Q in
  let dz := (z (w_position nextPoint) - z (w_position currentPoint))%Q in
  Math_sqrt (dx * dx + dy * dy + dz * dz).

(** [normalizedHeading]: the direction to the next waypoint, a negative
    angle raised by 360. *)
Definition normalizedHeading (currentPoint nextPoint : Waypoint) : Q :=
  let dx := (x (w_position nextPoint) - x (w_position currentPoint))%Q in
  let dz := (z (w_position nextPoint) - z (w_position currentPoint))%Q in
  let heading := headingDegrees dx dz in
  if Qlt_bool heading 0 then (heading + 360)%Q else heading.

(** The body of the tick's loop for one device with a tracker: the new
    tracker and the row it inserts, if any.  A segment of length 0 makes
    [moveDistance / segmentLength] infinite, so the progress test
    [state.progress >= 1] succeeds. *)
Definition simulateDevice (now : Z) (random1 random2 : Q) (deviceId : string)
    (path : list Waypoint) (st : Supabase.SimProgress)
    : Supabase.SimProgress * option PositionInsert :=
  match path with
  | [] => (st, None)
  | _ =>
    let len := jsLength path in
    match at_index path (Supabase.pathIndex st),
          at_index path (Z.rem (Supabase.pathIndex st + 1) len) with
    | Some currentPoint, Some nextPoint =>
        let distance := segmentLength currentPoint nextPoint in
        let heading := normalizedHeading currentPoint nextPoint in
        let progress := (Supabase.progress st + moveDistance / distance)%Q in
        if Qeq_bool distance 0 || Qle_bool 1 progress then
          let st' :=
            {| Supabase.pathIndex := Z.rem (Supabase.pathIndex st + 1) len;
               Supabase.progress := 0 |} in
          match at_index path (Supabase.pathIndex st') with
          | None => (st', None)
          | Some targetPoint =>
              (st', Some (positionData now random1 random2 deviceId
                            (lat targetPoint) (lng targetPoint) (depth targetPoint)
                            heading))
          end
        else
          let st' :=
            {| Supabase.pathIndex := Supabase.pathIndex st;
               Supabase.progress := progress |} in
          (st',
           Some (positionData now random1 random2 deviceId
                   (lat currentPoint + (lat nextPoint - lat currentPoint) * progress)
                   (lng currentPoint + (lng nextPoint - lng currentPoint) * progress)
                   (depth currentPoint + (depth nextPoint - depth currentPoint) * progress)
                   heading))
    | _, _ => (st, None)
    end
  end.

(** One entry of [devicePaths] with the two random draws of its iteration. *)
Record DevicePath := {
  dp_deviceId : string;
  dp_path : list Waypoint;
  dp_random1 : Q;
  dp_random2 : Q
}.

(** One iteration of [for (const { deviceId, device, path } of devicePaths)]:
    a device without a tracker is passed over. *)
Definition simulateOne (now : Z)
    (acc : gmap string Supabase.SimProgress * list PositionInsert) (dp : DevicePath)
    : gmap string Supabase.SimProgress * list PositionInsert :=
  match acc.1 !! dp_deviceId dp with
  | None => acc
  | Some st =>
      let r := simulateDevice now (dp_random1 dp) (dp_random2 dp)
                 (dp_deviceId dp) (dp_path dp) st in
      (<[dp_deviceId dp := r.1]> acc.1,
       match r.2 with Some row => acc.2 ++ [row] | None => acc.2 end)
  end.

(** [simulatePosition()]: the progress table after the tick and the rows it
    inserted, in order. *)
Definition simulatePosition (now : Z) (devicePaths : list DevicePath)
    (ref : gmap string Supabase.SimProgress)
    : gmap string Supabase.SimProgress * list PositionInsert :=
  foldl (simulateOne now) (ref, []) devicePaths.

(** A tracker that addresses a waypoint of the path, part way along its
    segment. *)
Definition validTracker (path : list Waypoint) (st : Supabase.SimProgress) : Prop :=
  (0 <= Supabase.pathIndex st < jsLength path)%Z /\
  (0 <= Supabase.progress st < 1)%Q.
End Tick.

End Simulator.

(** ** [useSupabaseTracking]: the devices [startSimulation] picks

    The elements of [devices] are distinct objects, so the identity test of
    [drillDevices.includes(d)] is a test on the position in [devices]: every
    device is carried with its index.  Device names are taken as ASCII. *)

Module DeviceSelection.

Inductive DbDeviceType := db_mining_vehicle | db_personnel | db_equipment | db_drill.

(** The fields of [TrackingDevice] that [startSimulation] reads. *)
Record TrackingDevice := {
  td_id : string;
  td_name : string;
  td_type : DbDeviceType
}.

Definition toLowerChar (c : Ascii.ascii) : Ascii.ascii :=
  let k := Ascii.nat_of_ascii c in
  if (65 <=? k) && (k <=? 90) then Ascii.ascii_of_nat (k + 32) else c.

(** [s.toLowerCase()]. *)
Fixpoint toLowerCase (s : string) : string :=
  match s with
  | EmptyString => EmptyString
  | String c rest => String (toLowerChar c) (toLowerCase rest)
  end.

(** [s.includes(sub)]. *)
Fixpoint includes (s sub : string) : bool :=
  String.prefix sub s ||
  match s with
  | EmptyString => false
  | String _ rest => includes rest sub
  end.

(** [d.type === 'drill' || d.name.toLowerCase().includes('drill') ||
     d.name.toLowerCase().includes('simba')]. *)
Definition isDrillDevice (d : TrackingDevice) : bool :=
  match td_type d with db_drill => true | _ => false end
  || includes (toLowerCase (td_name d)) "drill"
  || includes (toLowerCase (td_name d)) "simba".

(** The devices with their positions in the list, from position [i] on. *)
Fixpoint indexedFrom (i : nat) (devices : list TrackingDevice)
    : list (nat * TrackingDevice) :=
  match devices with
  | [] => []
  | d :: rest => (i, d) :: indexedFrom (S i) rest
  end.

(** [drillDevices.includes(d)]. *)
Definition includesDevice (l : list (nat * TrackingDevice)) (d : nat * TrackingDevice)
    : bool :=
  existsb (fun e => e.1 =? d.1) l.

(** [devicesToSimulate]. *)
Definition devicesToSimulate (devices : list TrackingDevice)
    : list (nat * TrackingDevice) :=
  let ds := indexedFrom 0 devices in
  let drillDevices := take 3 (List.filter (fun d => isDrillDevice d.2) ds) in
  if 2 <=? length drillDevices then drillDevices
  else if (length drillDevices =? 1) && (2 <=? length devices) then
    let otherDevices :=
      take 2 (List.filter (fun d => negb (includesDevice drillDevices d)) ds) in
    take 3 (drillDevices ++ otherDevices)
  else take (Nat.min 3 (length devices)) ds.

(** [index === 0 ? 'path1' : index === 1 ? 'path2' : 'path3']. *)
Definition pathTypeOf (index : nat) : Simulator.PathType :=
  match index with
  | 0 => Simulator.path1
  | 1 => Simulator.path2
  | _ => Simulator.path3
  end.

(** [devicePaths]: the device id and the route of every picked device. *)
Definition devicePaths (devices : list TrackingDevice)
    : list (string * list Simulator.Waypoint) :=
  imap (fun index d => (td_id d.2, Simulator.createTunnelPath (pathTypeOf index)))
       (devicesToSimulate devices).

(** What [startSimulation] does to the progress table: nothing without
    devices, the initialisation loop over [devicePaths] otherwise. *)
Definition startSimulation (devices : list TrackingDevice)
    (ref : gmap string Supabase.SimProgress) : gmap string Supabase.SimProgress :=
  match devices with
  | [] => ref
  | _ =>
      match devicesToSimulate devices with
      | [] => ref
      | _ => Supabase.initSimulationState (fst <$> devicePaths devices) ref
      end
  end.

(** What a tick's list of devices has in common with [devicePaths]: the
    device ids and the routes, beside the random draws of the tick. *)
Definition pathsOfTick (dps : list Simulator.DevicePath)
    : list (string * list Simulator.Waypoint) :=
  (fun dp => (Simulator.dp_deviceId dp, Simulator.dp_path dp)) <$> dps.

Section Ticks.
Context `{SimNumerics}.

(** The ticks of the interval, one after the other: the table after the
    last one and the rows of each tick. *)
Fixpoint runTicks (ticks : list (Z * list Simulator.DevicePath))
    (ref : gmap string Supabase.SimProgress)
    : gmap string Supabase.SimProgress * list (list Simulator.PositionInsert) :=
  match ticks with
  | [] => (ref, [])
  | t :: rest =>
      let r := Simulator.simulatePosition t.1 t.2 ref in
      let r' := runTicks rest r.1 in
      (r'.1, r.2 :: r'.2)
  end.


(** Every listed device has a tracker that is valid on its route. *)
Definition trackersValid (paths : list (string * list Simulator.Waypoint))
    (ref : gmap string Supabase.SimProgress) : Prop :=
  forall d path, (d, path) ∈ paths ->
    exists st, ref !! d = Some st /\ Simulator.validTracker path st.
End Ticks.

End DeviceSelection.

(** ** Sample inputs *)

(** A stand-in for the numeric primitives: a sine that is constantly zero
    and a grid distance of 111320 m per degree. *)
Definition gridNumerics : JsNumerics := {|
  Math_sin := fun _ => 0%Q;
  getDistance := fun lat1 lon1 lat2 lon2 =>
    (111320 * (Qabs (lat2 - lat1) + Qabs (lon2 - lon1)))%Q
|}.

(** A fix at the given coordinates and accuracy. *)
Definition fixAt (latitude longitude accuracy : Q) (timestamp : Z) : GeolocationPosition :=
  {| coords :=
       {| c_latitude := latitude; c_longitude := longitude; c_accuracy := accuracy;
          c_altitude := None; c_heading := None; c_speed := None |};
     g_timestamp := timestamp |}.

(** Four fixes of good accuracy: two at the origin, then two inside the
    hazard fence that is created around the first one. *)
Definition fixOrigin1 : Z * GeolocationPosition := (1000%Z, fixAt 0 0 10 1000).
Definition fixOrigin2 : Z * GeolocationPosition := (2000%Z, fixAt 0 0 10 2000).
Definition fixHazard1 : Z * GeolocationPosition :=
  (3000%Z, fixAt (-1 # 1000) (-1 # 1000) 10 3000).
Definition fixHazard2 : Z * GeolocationPosition :=
  (4000%Z, fixAt (-1 # 1000) (-11 # 10000) 10 4000).

(** The hazard fence that the first fix at the origin creates. *)
Definition hazardFence : Geofence :=
  {| Geofence.id := "geofence-hazard"; Geofence.name := "Hazard Zone - Blasting Area";
     Geofence.center := {| LatLng.lat := 0 - (1 # 1000); LatLng.lng := 0 - (1 # 1000) |};
     Geofence.radius := 100;
     Geofence.isActive := true;
     Geofence.alertOnEnter := true; Geofence.alertOnExit := false;
     Geofence.zoneType := Some hazard |}.

(** A fix at the origin with the given accuracy, taken when the clock
    reads [now].  With a zero sine, the accuracies 65, 71 and 74 give the
    signal strengths 25, 18 and 15. *)
Definition fixWithAccuracy (now : Z) (accuracy : Q) : Z * GeolocationPosition :=
  (now, fixAt 0 0 accuracy now).

Definition fixesReading_25_18 : list (Z * GeolocationPosition) :=
  [fixWithAccuracy 1000 65; fixWithAccuracy 2000 71].

Definition fixesReading_18_25_15 : list (Z * GeolocationPosition) :=
  [fixWithAccuracy 1000 71; fixWithAccuracy 2000 65; fixWithAccuracy 3000 74].

(** 205 fixes, one per second. *)
Definition fixes205 : list (Z * GeolocationPosition) :=
  (fun i : nat => fixWithAccuracy (1000 * Z.of_nat i) 10) <$> seq 1 205.

(** A row of the change feed for a device. *)
Definition rowFor (device_id : string) (n : nat) : Supabase.TrackingPosition :=
  {| Supabase.id := "row-" +:+ pretty n;
     Supabase.device_id := device_id;
     Supabase.latitude := 0; Supabase.longitude := 0; Supabase.depth := 0;
     Supabase.altitude := 0; Supabase.speed := 8; Supabase.heading := 0;
     Supabase.accuracy := 5; Supabase.signal_strength := 100;
     Supabase.zone := None;
     Supabase.timestamp := Z.of_nat n |}.

(** Three rows of one device as the initial query returns them, newest
    first. *)
Definition fetchedRows : list Supabase.TrackingPosition :=
  [rowFor "drill-a" 1003; rowFor "drill-a" 1002; rowFor "drill-a" 1001].

(** 410 rows, alternating between two devices: 205 rows each. *)
Definition rows410 : list Supabase.TrackingPosition :=
  (fun n : nat => rowFor (if Nat.even n then "drill-a" else "drill-b") n) <$> seq 0 410.

(** A progress table with one running device, half way along its fifth edge. *)
Definition runningTable : gmap string Supabase.SimProgress :=
  {[ "drill-a" := {| Supabase.pathIndex := 4; Supabase.progress := 1 # 2 |} ]}.

(** A stand-in for the numeric primitives of the simulator: the absolute
    value for the square root (non-negative, 0 at 0) and a heading that is
    constantly 90 degrees. *)
Definition sampleSimNumerics : SimNumerics := {|
  Math_sqrt := Qabs;
  headingDegrees := fun _ _ => 90%Q
|}.

(** The index page playing at cursor 3, at half speed and at double speed. *)
Definition indexHalfSpeed : IndexPage.Playback :=
  {| IndexPage.isPlaying := true; IndexPage.playbackIndex := 3;
     IndexPage.playbackSpeed := 1 # 2 |}.

Definition indexDoubleSpeed : IndexPage.Playback :=
  {| IndexPage.isPlaying := true; IndexPage.playbackIndex := 3;
     IndexPage.playbackSpeed := 2 |}.

(** A row of the alert feed. *)
Definition alertRow (n : nat) : AlertFeed.TrackingAlert :=
  {| AlertFeed.id := "alert-row-" +:+ pretty n;
     AlertFeed.device_id := "drill-a";
     AlertFeed.type := AlertFeed.db_offline;
     AlertFeed.priority := medium;
     AlertFeed.message := "Device offline";
     AlertFeed.latitude := None; AlertFeed.longitude := None; AlertFeed.depth := None;
     AlertFeed.zone := None;
     AlertFeed.is_read := false;
     AlertFeed.created_at := Z.of_nat n |}.

Definition alertRows60 : list AlertFeed.TrackingAlert := alertRow <$> seq 0 60.

(** A tracker half way along the third segment. *)
Definition trackerMidway : Supabase.SimProgress :=
  {| Supabase.pathIndex := 2; Supabase.progress := 1 # 2 |}.

(** A tracker on the last waypoint of the first route. *)
Definition trackerAtEnd : Supabase.SimProgress :=
  {| Supabase.pathIndex := 24; Supabase.progress := 1 # 4 |}.

(** The safe-zone fence that the first fix at the origin creates, and a
    fix some 334 m north of it. *)
Definition safeFence : Geofence :=
  {| Geofence.id := "geofence-safe-zone"; Geofence.name := "Safe Zone - Surface";
     Geofence.center := {| LatLng.lat := 0; LatLng.lng := 0 |};
     Geofence.radius := 200;
     Geofence.isActive := true;
     Geofence.alertOnEnter := false; Geofence.alertOnExit := true;
     Geofence.zoneType := Some safe |}.

Definition fixOutside : Z * GeolocationPosition := (3000%Z, fixAt (3 # 1000) 0 10 3000).

(** Four devices, one of them a drill rig by its name. *)
Definition sampleDevices : list DeviceSelection.TrackingDevice := [
  {| DeviceSelection.td_id := "dev-1"; DeviceSelection.td_name := "Haul Truck 1";
     DeviceSelection.td_type := DeviceSelection.db_mining_vehicle |};
  {| DeviceSelection.td_id := "dev-2"; DeviceSelection.td_name := "SIMBA S7";
     DeviceSelection.td_type := DeviceSelection.db_equipment |};
  {| DeviceSelection.td_id := "dev-3"; DeviceSelection.td_name := "Loader";
     DeviceSelection.td_type := DeviceSelection.db_equipment |};
  {| DeviceSelection.td_id := "dev-4"; DeviceSelection.td_name := "Surveyor";
     DeviceSelection.td_type := DeviceSelection.db_personnel |}
].

(** A tick for the devices picked from [sampleDevices], every random draw
    being 1/2. *)
Definition sampleTick : Z * list Simulator.DevicePath :=
  (1000%Z,
   (fun p : string * list Simulator.Waypoint =>
      {| Simulator.dp_deviceId := p.1; Simulator.dp_path := p.2;
         Simulator.dp_random1 := 1 # 2; Simulator.dp_random2 := 1 # 2 |})
     <$> DeviceSelection.devicePaths sampleDevices).


(** The entry of a tick for the device of [runningTable]. *)
Definition drillPathA : Simulator.DevicePath :=
  {| Simulator.dp_deviceId := "drill-a";
     Simulator.dp_path := Simulator.createTunnelPath Simulator.path1;
     Simulator.dp_random1 := 1 # 2; Simulator.dp_random2 := 1 # 2 |}.

Definition evPosition (f : Z * GeolocationPosition) : Event := EvPosition f.1 f.2.

(** Two fixes ingested, nothing else. *)
Definition hookTwoFixes : Hook :=
  run (H := gridNumerics) [evPosition fixOrigin1; evPosition fixOrigin2] initialHook.

(** Two fixes ingested, then playback started. *)
Definition hookPlaying : Hook := startPlayback hookTwoFixes.

(** Two fixes ingested, then a seek to the second one: paused at cursor 1. *)
Definition hookPausedAt1 : Hook := setPlaybackIndex 1 hookTwoFixes.

(** Two fixes ingested, playback started and advanced by one tick. *)
Definition hookPlayingAt1 : Hook := playbackTick hookPlaying.

(** Two fixes ingested, a seek beyond the history while playback is not
    active, then playback started and advanced by one tick. *)
Definition hookSoughtThenPlaying : Hook :=
  playbackTick (startPlayback (setPlaybackIndex 7 hookTwoFixes)).

(** ** Auxiliary facts *)

Lemma Qlt_bool_iff (a b : Q) : Qlt_bool a b = true <-> (a < b)%Q.
Proof.
  unfold Qlt_bool. rewrite negb_true_iff.
  split.
  - intros Hf. apply Qnot_le_lt. intros Hle.
    apply Qle_bool_iff in Hle. congruence.
  - intros Hlt. destruct (Qle_bool b a) eqn:E; [|reflexivity].
    apply Qle_bool_iff in E. exfalso. apply (Qlt_not_le _ _ Hlt E).
Qed.

Lemma Qlt_bool_false_iff (a b : Q) : Qlt_bool a b = false <-> (b <= a)%Q.
Proof.
  unfold Qlt_bool. rewrite negb_false_iff. apply Qle_bool_iff.
Qed.

Lemma slice_last_short {A} (n : nat) (arr : list A) :
  length arr <= n -> slice_last n arr = arr.
Proof.
  intros Hle. unfold slice_last.
  replace (length arr - n) with 0 by lia. reflexivity.
Qed.

Lemma slice_last_length {A} (n : nat) (arr : list A) :
  length (slice_last n arr) = Nat.min n (length arr).
Proof. unfold slice_last. rewrite length_drop. lia. Qed.

(** Keeping the last [n] and pushing one element keeps the last [n + 1]. *)
Lemma slice_last_push {A} (n : nat) (arr : list A) (x : A) :
  slice_last n arr ++ [x] = slice_last (S n) (arr ++ [x]).
Proof.
  unfold slice_last. rewrite length_app. simpl.
  replace (length arr + 1 - S n) with (length arr - n) by lia.
  rewrite drop_app_le by lia. reflexivity.
Qed.

(** Two successive cuts to the last [n] are one. *)
Lemma slice_last_app_slice {A} (n : nat) (arr more : list A) :
  slice_last n (slice_last n arr ++ more) = slice_last n (arr ++ more).
Proof.
  unfold slice_last at 2.
  destruct (decide (length arr <= n)) as [Hle|Hgt].
  - replace (length arr - n) with 0 by lia. reflexivity.
  - unfold slice_last. rewrite !length_app, length_drop.
    replace (length arr - (length arr - n) + length more - n) with (length more) by lia.
    replace (length arr + length more - n)
      with ((length arr - n) + length more) by lia.
    rewrite <- drop_drop. rewrite (drop_app_le arr) by lia. reflexivity.
Qed.

Lemma at_index_last {A} (arr : list A) :
  at_index arr (jsLength arr - 1) = last arr.
Proof.
  unfold at_index, jsLength.
  destruct arr as [|a arr].
  - reflexivity.
  - replace (Z.of_nat (length (a :: arr)) - 1 <? 0)%Z with false
      by (symmetry; apply Z.ltb_ge; simpl length; lia).
    rewrite last_lookup. f_equal. simpl length. lia.
Qed.

Lemma at_index_in_range {A} (arr : list A) (i : Z) :
  (0 <= i < jsLength arr)%Z -> exists x, at_index arr i = Some x.
Proof.
  intros [Hlo Hhi]. unfold at_index, jsLength in *.
  replace (i <? 0)%Z with false by (symmetry; apply Z.ltb_ge; lia).
  apply lookup_lt_is_Some_2. lia.
Qed.

Lemma at_index_out_of_range {A} (arr : list A) (i : Z) :
  (i < 0 \/ jsLength arr <= i)%Z -> at_index arr i = None.
Proof.
  intros Hout. unfold at_index, jsLength in *.
  destruct (i <? 0)%Z eqn:E; [reflexivity|].
  apply Z.ltb_ge in E. apply lookup_ge_None. lia.
Qed.

(** ** Playback and live ingestion *)

Section Playback.
Context `{JsNumerics}.

(** Live ingestion never changes the playing flag or the cursor. *)
Lemma handlePosition_isPlaying now position h :
  isPlaying (state (handlePosition now position h)) = isPlaying (state h).
Proof.
  unfold handlePosition. destruct (isPlaying (state h)) eqn:E; simpl; auto.
Qed.

Lemma handlePosition_playbackIndex now position h :
  playbackIndex (state (handlePosition now position h)) = playbackIndex (state h).
Proof.
  unfold handlePosition. destruct (isPlaying (state h)); reflexivity.
Qed.

(** A sequence of fixes never starts playback. *)
Lemma runFixes_isPlaying fixes h :
  isPlaying (state (runFixes fixes h)) = isPlaying (state h).
Proof.
  revert h. induction fixes as [|f fixes IH]; intros h; simpl; [reflexivity|].
  unfold runFixes in *. simpl. rewrite IH. apply handlePosition_isPlaying.
Qed.

(** What an update does to the history and the current position when
    playback is not active. *)
Lemma handlePosition_live now position h :
  isPlaying (state h) = false ->
  trackHistory (state (handlePosition now position h)) =
    slice_last 199 (trackHistory (state h)) ++ [positionOf now position h] /\
  currentPosition (state (handlePosition now position h)) =
    Some (positionOf now position h) /\
  geofences (state (handlePosition now position h)) = geofencesInForce position h /\
  initialPositionSet (handlePosition now position h) = true.
Proof.
  intros Hlive. unfold handlePosition. rewrite Hlive. simpl. auto.
Qed.

(** The guard at the head of the updater. *)
Lemma handlePosition_guard now position h :
  isPlaying (state h) = true -> handlePosition now position h = h.
Proof.
  intros Hplaying. unfold handlePosition. rewrite Hplaying. reflexivity.
Qed.

(** C1, as amended.  While playback is active a live position event is
    dropped: the update returns the state it was given, so the history is
    not appended to, and the current position, the cursor and the alerts
    stay as they were. *)
Theorem handlePosition_while_playing now position h :
  isPlaying (state h) = true ->
  handlePosition now position h = h /\
  trackHistory (state (handlePosition now position h)) = trackHistory (state h) /\
  currentPosition (state (handlePosition now position h)) = currentPosition (state h) /\
  emittedAlerts now position h = [].
Proof.
  intros Hplaying. rewrite (handlePosition_guard _ _ _ Hplaying).
  unfold emittedAlerts. rewrite Hplaying. auto.
Qed.

(** C2, as amended.  [stop()] always leads to Live: the playing flag is
    cleared, the cursor becomes -1 whatever the history holds, and the
    current position becomes the last element of the history (none when
    the history is empty); the history is untouched. *)
Theorem stopPlayback_goes_live h :
  isPlaying (state (stopPlayback h)) = false /\
  playbackIndex (state (stopPlayback h)) = (-1)%Z /\
  currentPosition (state (stopPlayback h)) = last (trackHistory (state h)) /\
  trackHistory (state (stopPlayback h)) = trackHistory (state h).
Proof.
  unfold stopPlayback, onState, lastOfHistory. simpl.
  rewrite at_index_last. auto.
Qed.

(** C3, as amended.  [start()] leads to Playing with the cursor at 0 from
    every state, also from Paused at a later cursor: playback restarts at
    the beginning.  History and current position are untouched. *)
Theorem startPlayback_restarts h :
  isPlaying (state (startPlayback h)) = true /\
  playbackIndex (state (startPlayback h)) = 0%Z /\
  trackHistory (state (startPlayback h)) = trackHistory (state h) /\
  currentPosition (state (startPlayback h)) = currentPosition (state h).
Proof. unfold startPlayback, onState. simpl. auto. Qed.

(** C4, as amended.  [seek(index)] stores the index as it is given, without
    clamping, and leaves the playing flag and the history unchanged.  An
    index inside [0, length - 1] is its own clamp and the current position
    becomes the element at it; outside that range the cursor is outside it
    too and the current position is left as it was. *)
Theorem setPlaybackIndex_stores_index index h :
  let L := jsLength (trackHistory (state h)) in
  let h' := setPlaybackIndex index h in
  playbackIndex (state h') = index /\
  isPlaying (state h') = isPlaying (state h) /\
  trackHistory (state h') = trackHistory (state h) /\
  ((0 <= index <= L - 1)%Z ->
     playbackIndex (state h') = spec_clamp index L /\
     currentPosition (state h') = at_index (trackHistory (state h)) index /\
     is_Some (currentPosition (state h'))) /\
  (~ (0 <= index <= L - 1)%Z ->
     currentPosition (state h') = currentPosition (state h)).
Proof.
  intros L h'. subst L h'. unfold setPlaybackIndex, onState. simpl.
  repeat split; auto.
  - unfold spec_clamp. lia.
  - destruct (at_index_in_range (trackHistory (state h)) index) as [x Hx]; [lia|].
    rewrite Hx. reflexivity.
  - destruct (at_index_in_range (trackHistory (state h)) index) as [x Hx]; [lia|].
    rewrite Hx. eauto.
  - intros Hout. rewrite at_index_out_of_range by lia. reflexivity.
Qed.

Lemma cursorInvariant_step h e :
  playingSeekInRange h e -> cursorInvariant h -> cursorInvariant (applyEvent h e).
Proof.
  unfold cursorInvariant.
  destruct e as [| |index| |now position]; simpl; intros Hseek Hinv.
  - (* start *)
    intros _. split; [lia|].
    destruct (trackHistory (state h)) as [|p ps]; [right; auto|].
    left. unfold jsLength. simpl length. lia.
  - (* stop *)
    discriminate.
  - (* seek *)
    intros Hplaying. destruct (Hseek Hplaying) as [Hin|[Hempty ->]].
    + split; [lia|]. left. lia.
    + split; [lia|]. right. auto.
  - (* tick *)
    destruct (jsLength (trackHistory (state h)) <=? playbackIndex (state h) + 1)%Z eqn:E;
      simpl; [discriminate|].
    intros Hplaying. apply Z.leb_gt in E.
    specialize (Hinv Hplaying). split; [lia|]. left. lia.
  - (* live position *)
    rewrite handlePosition_isPlaying. intros Hplaying.
    rewrite (handlePosition_guard _ _ _ Hplaying). auto.
Qed.

(** C5, as amended.  In every state reachable from the initial state by
    [start()], [stop()], playback ticks, live position events and seeks,
    where only a seek made while playback is active has to address an
    element of the history, a true playing flag comes with a cursor that is
    at least 0 and below the history length, except when the history is
    empty, where the cursor is 0.  The condition on the seeks cannot be
    lifted: a seek made while playback is active that does not address an
    element of the history leaves a playing state whose cursor is outside
    the history. *)
Theorem playing_cursor_invariant :
  (forall h,
      reachablePlayingSeekInRange h ->
      isPlaying (state h) = true ->
      (0 <= playbackIndex (state h))%Z /\
      ((playbackIndex (state h) < jsLength (trackHistory (state h)))%Z \/
       (trackHistory (state h) = [] /\ playbackIndex (state h) = 0%Z))) /\
  (forall h index,
      isPlaying (state h) = true ->
      ~ cursorInHistory index h ->
      isPlaying (state (setPlaybackIndex index h)) = true /\
      ~ cursorInHistory (playbackIndex (state (setPlaybackIndex index h)))
          (setPlaybackIndex index h)).
Proof.
  split.
  - intros h Hreach. change (cursorInvariant h).
    induction Hreach as [|h e Hreach IH Hseek].
    + unfold cursorInvariant. simpl. discriminate.
    + apply cursorInvariant_step; assumption.
  - intros h index Hplaying Hout.
    unfold setPlaybackIndex, onState, cursorInHistory in *.
    cbn [state isPlaying playbackIndex trackHistory].
    split; [exact Hplaying|exact Hout].
Qed.
End Playback.

(** *** The playback claims at concrete states *)

Lemma handlePosition_while_playing_witness :
  isPlaying (state hookPlaying) = true /\
  handlePosition (H := gridNumerics) 3000 fixHazard1.2 hookPlaying = hookPlaying.
Proof.
  split; [reflexivity|].
  apply (handlePosition_while_playing (H := gridNumerics)). reflexivity.
Defined.

(** C1 fails as stated: with playback active after two fixes, a third live
    fix leaves the history at its two elements instead of appending. *)
Lemma live_fix_dropped_while_playing :
  isPlaying (state hookPlaying) = true /\
  length (trackHistory (state hookPlaying)) = 2 /\
  length (trackHistory
            (state (handlePosition (H := gridNumerics) 3000 fixHazard1.2 hookPlaying))) = 2 /\
  trackHistory (state (handlePosition (H := gridNumerics) 3000 fixHazard1.2 hookPlaying))
    <> trackHistory (state hookPlaying)
         ++ [positionOf (H := gridNumerics) 3000 fixHazard1.2 hookPlaying].
Proof.
  repeat split; try reflexivity.
  intros Heq. apply (f_equal length) in Heq. vm_compute in Heq. discriminate.
Qed.

(** C2 fails as stated: stopping while playing at cursor 1 of a history of
    two positions does not pause at cursor 1, it sets the cursor to -1. *)
Lemma stop_resets_cursor :
  length (trackHistory (state hookPlayingAt1)) = 2 /\
  isPlaying (state hookPlayingAt1) = true /\
  playbackIndex (state hookPlayingAt1) = 1%Z /\
  playbackIndex (state (stopPlayback hookPlayingAt1)) = (-1)%Z /\
  playbackIndex (state (stopPlayback hookPlayingAt1)) <> playbackIndex (state hookPlayingAt1).
Proof. repeat split; try reflexivity. vm_compute. discriminate. Qed.

(** C3 fails as stated: starting from Paused at cursor 1 does not keep the
    cursor, it sets it to 0. *)
Lemma start_from_paused_resets_cursor :
  isPlaying (state hookPausedAt1) = false /\
  playbackIndex (state hookPausedAt1) = 1%Z /\
  isPlaying (state (startPlayback hookPausedAt1)) = true /\
  playbackIndex (state (startPlayback hookPausedAt1)) = 0%Z /\
  playbackIndex (state (startPlayback hookPausedAt1)) <> playbackIndex (state hookPausedAt1).
Proof. repeat split; try reflexivity. vm_compute. discriminate. Qed.

Lemma setPlaybackIndex_stores_index_witness :
  playbackIndex (state (setPlaybackIndex 1 hookTwoFixes)) = 1%Z /\
  playbackIndex (state (setPlaybackIndex 1 hookTwoFixes)) = spec_clamp 1 2 /\
  currentPosition (state (setPlaybackIndex 5 hookTwoFixes))
    = currentPosition (state hookTwoFixes).
Proof.
  pose proof (setPlaybackIndex_stores_index 1 hookTwoFixes) as (H1 & _ & _ & Hin & _).
  pose proof (setPlaybackIndex_stores_index 5 hookTwoFixes) as (_ & _ & _ & _ & Hout).
  split; [exact H1|]. split.
  - apply Hin. vm_compute. split; discriminate.
  - apply Hout. vm_compute. intros [_ Hle]. apply Hle. reflexivity.
Defined.

(** C4 fails as stated: on a history of two positions, [seek(5)] leaves the
    cursor at 5, which is not the clamp of 5 (that is 1) and lies outside
    [0, 1]; [seek(-3)] leaves it at -3. *)
Lemma seek_out_of_range_not_clamped :
  jsLength (trackHistory (state hookTwoFixes)) = 2%Z /\
  playbackIndex (state (setPlaybackIndex 5 hookTwoFixes)) = 5%Z /\
  spec_clamp 5 2 = 1%Z /\
  playbackIndex (state (setPlaybackIndex (-3) hookTwoFixes)) = (-3)%Z /\
  spec_clamp (-3) 2 = 0%Z.
Proof. repeat split; reflexivity. Qed.

(** A run with a seek beyond the history made while playback is not
    active: two fixes, seek(7), start, one tick. *)
Lemma hookSoughtThenPlaying_reachable :
  reachablePlayingSeekInRange (H := gridNumerics) hookSoughtThenPlaying.
Proof.
  apply (reachablePlayingSeekInRange_step (H := gridNumerics) _ EvTick); [|exact I].
  apply (reachablePlayingSeekInRange_step (H := gridNumerics) _ EvStart); [|exact I].
  apply (reachablePlayingSeekInRange_step (H := gridNumerics) hookTwoFixes (EvSeek 7));
    [|discriminate].
  apply (reachablePlayingSeekInRange_step (H := gridNumerics) _ (evPosition fixOrigin2));
    [|exact I].
  apply (reachablePlayingSeekInRange_step (H := gridNumerics) _ (evPosition fixOrigin1));
    [|exact I].
  constructor.
Defined.

Lemma playing_cursor_invariant_witness :
  isPlaying (state hookSoughtThenPlaying) = true /\
  (0 <= playbackIndex (state hookSoughtThenPlaying))%Z /\
  ((playbackIndex (state hookSoughtThenPlaying)
    < jsLength (trackHistory (state hookSoughtThenPlaying)))%Z \/
   (trackHistory (state hookSoughtThenPlaying) = [] /\
    playbackIndex (state hookSoughtThenPlaying) = 0%Z)).
Proof.
  split; [reflexivity|].
  apply (proj1 (playing_cursor_invariant (H := gridNumerics))).
  - exact hookSoughtThenPlaying_reachable.
  - reflexivity.
Defined.

(** C5 fails as stated: [start()] on the initial state, whose history is
    empty, gives a playing state whose cursor 0 is not below the history
    length 0. *)
Lemma start_on_empty_history_breaks_invariant :
  reachable (H := gridNumerics) (startPlayback initialHook) /\
  isPlaying (state (startPlayback initialHook)) = true /\
  playbackIndex (state (startPlayback initialHook)) = 0%Z /\
  jsLength (trackHistory (state (startPlayback initialHook))) = 0%Z /\
  ~ (0 <= playbackIndex (state (startPlayback initialHook))
       < jsLength (trackHistory (state (startPlayback initialHook))))%Z.
Proof.
  split.
  - apply (reachable_step (H := gridNumerics) initialHook EvStart). constructor.
  - repeat split; try reflexivity. vm_compute. intros [_ Hlt]. discriminate.
Qed.

(** An out-of-range seek while playing breaks the invariant as well, which
    is why the amended invariant is about the seeks made while playing. *)
Lemma seek_out_of_range_while_playing :
  isPlaying (state (setPlaybackIndex 7 hookPlaying)) = true /\
  playbackIndex (state (setPlaybackIndex 7 hookPlaying)) = 7%Z /\
  jsLength (trackHistory (state (setPlaybackIndex 7 hookPlaying))) = 2%Z.
Proof. repeat split; reflexivity. Qed.

(** ** Geofence transitions *)

Section GeofenceAlerts.
Context `{JsNumerics}.

Lemma insideFence_iff fence p :
  insideFence fence p = true <-> (distanceTo fence p <= Geofence.radius fence)%Q.
Proof. unfold insideFence, distanceTo. apply Qle_bool_iff. Qed.

(** The boolean rule decides the rule in the specification's words. *)
Lemma spec_enterTransitionb_iff fence previous new :
  spec_enterTransitionb fence previous new = true <->
  spec_enterTransition fence previous new.
Proof.
  unfold spec_enterTransitionb, spec_enterTransition.
  rewrite !andb_true_iff. split.
  - intros [[[Hact Hprev] Hnew] Henter]. repeat split; auto.
    + destruct previous as [p|]; [|discriminate].
      exists p. split; [reflexivity|]. apply Qlt_bool_iff, Hprev.
    + apply Qle_bool_iff, Hnew.
  - intros (Hact & (p & -> & Hprev) & Hnew & Henter). repeat split; auto.
    + apply Qlt_bool_iff, Hprev.
    + apply Qle_bool_iff, Hnew.
Qed.

(** One iteration of the loop, by cases on the enter rule. *)
Lemma checkFence_cases now dev lastPos newPos depth acc fence :
  checkFence now dev lastPos newPos depth acc fence =
    if spec_enterTransitionb fence lastPos newPos
    then enterAlert now dev fence newPos depth :: acc
    else match lastPos with
         | Some p =>
             if Geofence.isActive fence && insideFence fence p
                && negb (insideFence fence newPos) && Geofence.alertOnExit fence
             then exitAlert now dev fence newPos depth :: acc
             else acc
         | None => acc
         end.
Proof.
  unfold checkFence, spec_enterTransitionb, Qlt_bool.
  destruct lastPos as [p|]; [|rewrite andb_false_r; reflexivity].
  change (Qle_bool (distanceTo fence p) (Geofence.radius fence))
    with (insideFence fence p).
  change (Qle_bool (distanceTo fence newPos) (Geofence.radius fence))
    with (insideFence fence newPos).
  destruct (Geofence.isActive fence), (insideFence fence p),
    (insideFence fence newPos), (Geofence.alertOnExit fence),
    (Geofence.alertOnEnter fence); reflexivity.
Qed.

Lemma checkFence_app now dev lastPos newPos depth acc fence :
  checkFence now dev lastPos newPos depth acc fence =
  checkFence now dev lastPos newPos depth [] fence ++ acc.
Proof.
  rewrite !checkFence_cases.
  destruct (spec_enterTransitionb fence lastPos newPos); [reflexivity|].
  destruct lastPos as [p|]; [|reflexivity].
  destruct (Geofence.isActive fence && insideFence fence p
            && negb (insideFence fence newPos) && Geofence.alertOnExit fence);
    reflexivity.
Qed.

Lemma geofenceLoop_app now dev lastPos newPos depth gs acc :
  geofenceLoop now dev lastPos newPos depth gs acc =
  geofenceLoop now dev lastPos newPos depth gs [] ++ acc.
Proof.
  unfold geofenceLoop. revert acc.
  induction gs as [|g gs IH]; intros acc; simpl; [reflexivity|].
  rewrite IH.
  rewrite (IH (checkFence now dev lastPos newPos depth [] g)).
  rewrite (checkFence_app now dev lastPos newPos depth acc g).
  rewrite app_assoc. reflexivity.
Qed.

(** The alert list after an update is what the update emitted, in front of
    what was there, cut to 50. *)
Lemma handlePosition_alerts now position h :
  alerts (state (handlePosition now position h)) =
    if isPlaying (state h) then alerts (state h)
    else take 50 (emittedAlerts now position h ++ alerts (state h)).
Proof.
  unfold handlePosition, emittedAlerts.
  destruct (isPlaying (state h)); [reflexivity|]. simpl.
  f_equal. unfold signalLossCheck.
  rewrite (geofenceLoop_app _ _ _ _ _ _ (alerts (state h))).
  destruct (signalLossGuard _ _); reflexivity.
Qed.

(** The enter alerts of the loop: one for each fence the rule selects, the
    latest fence first. *)
Lemma geofenceLoop_enter_alerts now dev lastPos newPos depth gs acc :
  List.filter isEnter (geofenceLoop now dev lastPos newPos depth gs acc) =
    rev (map (fun fence => enterAlert now dev fence newPos depth)
             (List.filter (fun fence => spec_enterTransitionb fence lastPos newPos) gs))
    ++ List.filter isEnter acc.
Proof.
  unfold geofenceLoop. revert acc.
  induction gs as [|g gs IH]; intros acc; simpl; [reflexivity|].
  rewrite IH, checkFence_cases.
  destruct (spec_enterTransitionb g lastPos newPos); simpl.
  - rewrite <- app_assoc. reflexivity.
  - destruct lastPos as [p|]; [|reflexivity].
    destruct (Geofence.isActive g && insideFence g p
              && negb (insideFence g newPos) && Geofence.alertOnExit g);
      reflexivity.
Qed.

Lemma signalLossCheck_enter_alerts now dev lastPos newPos depth acc :
  List.filter isEnter (signalLossCheck now dev lastPos newPos depth acc) =
  List.filter isEnter acc.
Proof. unfold signalLossCheck. destruct (signalLossGuard _ _); reflexivity. Qed.

(** The enter alerts of a whole update. *)
Lemma emittedAlerts_enter now position h :
  isPlaying (state h) = false ->
  List.filter isEnter (emittedAlerts now position h) =
    rev (map (fun fence =>
                enterAlert now (device (state h)) fence (positionOf now position h)
                  (calculateDepth now (c_accuracy (coords position))
                     (trackHistory (state h))))
             (List.filter
                (fun fence =>
                   spec_enterTransitionb fence (currentPosition (state h))
                     (positionOf now position h))
                (geofencesInForce position h))).
Proof.
  intros Hlive. unfold emittedAlerts. rewrite Hlive.
  rewrite signalLossCheck_enter_alerts, geofenceLoop_enter_alerts.
  simpl. rewrite app_nil_r. reflexivity.
Qed.

(** A first fix emits nothing at all. *)
Lemma emittedAlerts_first_fix now position h :
  currentPosition (state h) = None -> emittedAlerts now position h = [].
Proof.
  intros Hnone. unfold emittedAlerts. destruct (isPlaying (state h)); [reflexivity|].
  rewrite Hnone. unfold signalLossCheck, signalLossGuard. rewrite andb_false_r.
  unfold geofenceLoop. induction (geofencesInForce position h) as [|g gs IH]; auto.
Qed.

Lemma checkFence_inactive now dev lastPos newPos depth acc fence :
  Geofence.isActive fence = false ->
  checkFence now dev lastPos newPos depth acc fence = acc.
Proof.
  intros Hoff. unfold checkFence. rewrite Hoff. destruct lastPos; reflexivity.
Qed.
End GeofenceAlerts.

Section GeofenceCounting.
Context `{JsNumerics}.

Lemma isEnterFor_enterAlert G now dev fence newPos depth :
  isEnterFor G (enterAlert now dev fence newPos depth) =
  bool_decide (Geofence.id fence = Geofence.id G).
Proof.
  unfold isEnterFor. simpl. apply bool_decide_ext.
  split; [intros [= ->]; reflexivity | intros ->; reflexivity].
Qed.

(** The enter alerts of the loop that name the fence [G]. *)
Lemma geofenceLoop_count_for G now dev lastPos newPos depth gs acc :
  length (List.filter (isEnterFor G) (geofenceLoop now dev lastPos newPos depth gs acc)) =
  length (List.filter
            (fun fence => bool_decide (Geofence.id fence = Geofence.id G)
                          && spec_enterTransitionb fence lastPos newPos) gs)
  + length (List.filter (isEnterFor G) acc).
Proof.
  unfold geofenceLoop. revert acc.
  induction gs as [|g gs IH]; intros acc; simpl; [reflexivity|].
  rewrite IH, checkFence_cases.
  destruct (spec_enterTransitionb g lastPos newPos); simpl.
  - rewrite isEnterFor_enterAlert, andb_true_r.
    destruct (bool_decide (Geofence.id g = Geofence.id G)); simpl; lia.
  - rewrite andb_false_r.
    destruct lastPos as [p|]; [|reflexivity].
    destruct (Geofence.isActive g && insideFence g p
              && negb (insideFence g newPos) && Geofence.alertOnExit g);
      reflexivity.
Qed.

(** With distinct fence ids, only [G] itself carries the id of [G]. *)
Lemma count_fence_by_id (P : Geofence -> bool) G gs :
  NoDup (Geofence.id <$> gs) -> G ∈ gs ->
  length (List.filter
            (fun fence => bool_decide (Geofence.id fence = Geofence.id G) && P fence) gs)
  = if P G then 1 else 0.
Proof.
  induction gs as [|g gs IH]; intros Hnodup Hin.
  - apply elem_of_nil in Hin. destruct Hin.
  - rewrite fmap_cons in Hnodup. apply NoDup_cons in Hnodup as [Hfresh Hnodup].
    apply elem_of_cons in Hin as [->|Hin]; simpl.
    + rewrite bool_decide_true by reflexivity. simpl.
      assert (Hrest : List.filter
                (fun fence => bool_decide (Geofence.id fence = Geofence.id g) && P fence)
                gs = []).
      { clear IH Hnodup. induction gs as [|g' gs IH']; [reflexivity|]. simpl.
        rewrite fmap_cons in Hfresh. apply not_elem_of_cons in Hfresh as [Hne Hfresh].
        rewrite bool_decide_false by congruence. simpl. auto. }
      destruct (P g); simpl; rewrite Hrest; reflexivity.
    + rewrite bool_decide_false.
      * simpl. apply IH; assumption.
      * intros Heq. apply Hfresh. rewrite Heq.
        apply list_elem_of_fmap_2. exact Hin.
Qed.

(** The number of enter alerts for [G] that one update emits. *)
Lemma emittedAlerts_count_for G now position h :
  isPlaying (state h) = false ->
  NoDup (Geofence.id <$> geofencesInForce position h) ->
  G ∈ geofencesInForce position h ->
  length (List.filter (isEnterFor G) (emittedAlerts now position h)) =
    if spec_enterTransitionb G (currentPosition (state h)) (positionOf now position h)
    then 1 else 0.
Proof.
  intros Hlive Hnodup Hin. unfold emittedAlerts. rewrite Hlive.
  unfold signalLossCheck.
  assert (Hsig : forall a rest,
            isSignalLost a = true ->
            length (List.filter (isEnterFor G) (a :: rest)) =
            length (List.filter (isEnterFor G) rest)).
  { intros a rest Ha. simpl. unfold isEnterFor, isEnter.
    unfold isSignalLost in Ha. destruct (Alert.type a); try discriminate. reflexivity. }
  destruct (signalLossGuard _ _); [rewrite Hsig by reflexivity|];
    rewrite geofenceLoop_count_for; simpl; rewrite Nat.add_0_r;
    apply (count_fence_by_id
             (fun fence => spec_enterTransitionb fence (currentPosition (state h))
                             (positionOf now position h))); assumption.
Qed.

(** Outside, then inside, then inside again: one enter alert on the first
    inside fix, none on the second. *)
Lemma outside_inside_inside G p0 now1 fix1 now2 fix2 h :
  isPlaying (state h) = false ->
  initialPositionSet h = true ->
  NoDup (Geofence.id <$> geofences (state h)) ->
  G ∈ geofences (state h) ->
  Geofence.isActive G = true ->
  Geofence.alertOnEnter G = true ->
  currentPosition (state h) = Some p0 ->
  (Geofence.radius G < distanceTo G p0)%Q ->
  (distanceTo G (positionOf now1 fix1 h) <= Geofence.radius G)%Q ->
  (distanceTo G (positionOf now2 fix2 (handlePosition now1 fix1 h)) <= Geofence.radius G)%Q ->
  length (List.filter (isEnterFor G) (emittedAlerts now1 fix1 h)) = 1 /\
  length (List.filter (isEnterFor G)
            (emittedAlerts now2 fix2 (handlePosition now1 fix1 h))) = 0.
Proof.
  intros Hlive Hset Hnodup Hin Hact Henter Hprev Hout Hin1 Hin2.
  destruct (handlePosition_live now1 fix1 h Hlive) as (_ & Hcur & Hgeo & Hset').
  assert (HG : geofencesInForce fix1 h = geofences (state h))
    by (unfold geofencesInForce; rewrite Hset; reflexivity).
  assert (HG' : geofencesInForce fix2 (handlePosition now1 fix1 h) = geofences (state h))
    by (unfold geofencesInForce at 1; rewrite Hset', Hgeo; exact HG).
  split.
  - rewrite emittedAlerts_count_for; rewrite ?HG; auto.
    replace (spec_enterTransitionb G (currentPosition (state h)) (positionOf now1 fix1 h))
      with true; [reflexivity|].
    symmetry. apply spec_enterTransitionb_iff. rewrite Hprev.
    repeat split; eauto.
  - rewrite emittedAlerts_count_for; rewrite ?HG'; auto.
    + rewrite Hcur. unfold spec_enterTransitionb.
      apply insideFence_iff in Hin1. unfold insideFence in Hin1.
      unfold Qlt_bool, distanceTo. rewrite Hin1. simpl.
      rewrite andb_false_r. reflexivity.
    + rewrite handlePosition_isPlaying. exact Hlive.
Qed.

(** The enter alerts of an update, in the words of the rule. *)
Lemma emittedAlerts_enter_iff now position h a :
  isPlaying (state h) = false ->
  (In a (emittedAlerts now position h) /\ isEnter a = true) <->
  (exists fence,
      In fence (geofencesInForce position h) /\
      spec_enterTransition fence (currentPosition (state h)) (positionOf now position h) /\
      a = enterAlert now (device (state h)) fence (positionOf now position h)
            (calculateDepth now (c_accuracy (coords position)) (trackHistory (state h)))).
Proof.
  intros Hlive. rewrite <- filter_In, (emittedAlerts_enter now position h Hlive).
  rewrite <- in_rev, in_map_iff. split.
  - intros (fence & <- & Hfence). apply filter_In in Hfence as [Hin Hrule].
    exists fence. rewrite <- spec_enterTransitionb_iff. auto.
  - intros (fence & Hin & Hrule & ->). exists fence. split; [reflexivity|].
    apply filter_In. rewrite spec_enterTransitionb_iff. auto.
Qed.

(** C6.  A sequence of fixes from the initial state never enters playback,
    and on every position update outside playback an enter alert is emitted
    for a fence exactly when the fence is active, a previous position exists
    and lies further from the centre than the radius, the new position lies
    within the radius (boundary included) and the fence alerts on enter:
    this holds for one iteration of the loop over the geofences and for the
    enter alerts of the whole update, which go in front of the alert list.
    A first fix emits no alert, an inactive fence emits nothing, and
    outside, then inside, then inside again emits exactly one enter alert
    for the fence. *)
Theorem geofence_enter_alert_rule :
  (forall fixes, isPlaying (state (runFixes fixes initialHook)) = false) /\
  (forall now dev lastPos newPos depth acc fence,
      checkFence now dev lastPos newPos depth acc fence
        = enterAlert now dev fence newPos depth :: acc
      <-> spec_enterTransition fence lastPos newPos) /\
  (forall now position h a,
      isPlaying (state h) = false ->
      (In a (emittedAlerts now position h) /\ isEnter a = true) <->
      (exists fence,
          In fence (geofencesInForce position h) /\
          spec_enterTransition fence (currentPosition (state h))
            (positionOf now position h) /\
          a = enterAlert now (device (state h)) fence (positionOf now position h)
                (calculateDepth now (c_accuracy (coords position))
                   (trackHistory (state h))))) /\
  (forall now position h,
      isPlaying (state h) = false ->
      alerts (state (handlePosition now position h)) =
        take 50 (emittedAlerts now position h ++ alerts (state h))) /\
  (forall now position h,
      currentPosition (state h) = None -> emittedAlerts now position h = []) /\
  (forall now dev lastPos newPos depth acc fence,
      Geofence.isActive fence = false ->
      checkFence now dev lastPos newPos depth acc fence = acc) /\
  (forall G p0 now1 fix1 now2 fix2 h,
      isPlaying (state h) = false ->
      initialPositionSet h = true ->
      NoDup (Geofence.id <$> geofences (state h)) ->
      G ∈ geofences (state h) ->
      Geofence.isActive G = true ->
      Geofence.alertOnEnter G = true ->
      currentPosition (state h) = Some p0 ->
      (Geofence.radius G < distanceTo G p0)%Q ->
      (distanceTo G (positionOf now1 fix1 h) <= Geofence.radius G)%Q ->
      (distanceTo G (positionOf now2 fix2 (handlePosition now1 fix1 h))
         <= Geofence.radius G)%Q ->
      length (List.filter (isEnterFor G) (emittedAlerts now1 fix1 h)) = 1 /\
      length (List.filter (isEnterFor G)
                (emittedAlerts now2 fix2 (handlePosition now1 fix1 h))) = 0).
Proof.
  split; [|split; [|split; [|split; [|split; [|split]]]]].
  - intros fixes. rewrite runFixes_isPlaying. reflexivity.
  - intros now dev lastPos newPos depth acc fence.
    rewrite <- spec_enterTransitionb_iff, checkFence_cases.
    destruct (spec_enterTransitionb fence lastPos newPos); [tauto|].
    split; [|discriminate]. intros Heq. exfalso.
    destruct lastPos as [p|].
    + destruct (Geofence.isActive fence && insideFence fence p
                && negb (insideFence fence newPos) && Geofence.alertOnExit fence).
      * injection Heq as Heq. discriminate.
      * apply (f_equal length) in Heq. simpl in Heq. lia.
    + apply (f_equal length) in Heq. simpl in Heq. lia.
  - intros now position h a. apply emittedAlerts_enter_iff.
  - intros now position h Hlive. rewrite handlePosition_alerts, Hlive. reflexivity.
  - apply emittedAlerts_first_fix.
  - apply checkFence_inactive.
  - apply outside_inside_inside.
Qed.
End GeofenceCounting.

(** *** The geofence rule at concrete fixes *)

Lemma geofence_enter_alert_rule_witness :
  length (List.filter (isEnterFor hazardFence)
            (emittedAlerts (H := gridNumerics) 3000 fixHazard1.2 hookTwoFixes)) = 1 /\
  length (List.filter (isEnterFor hazardFence)
            (emittedAlerts (H := gridNumerics) 4000 fixHazard2.2
               (handlePosition (H := gridNumerics) 3000 fixHazard1.2 hookTwoFixes))) = 0.
Proof.
  destruct (geofence_enter_alert_rule (H := gridNumerics))
    as (_ & _ & _ & _ & _ & _ & Hscenario).
  eapply Hscenario.
  - reflexivity.
  - reflexivity.
  - apply (bool_decide_unpack _). vm_compute. exact I.
  - apply list_elem_of_further, list_elem_of_here.
  - reflexivity.
  - reflexivity.
  - reflexivity.
  - vm_compute. reflexivity.
  - vm_compute. discriminate.
  - vm_compute. discriminate.
Defined.

(** Four fixes from the initial state: origin, origin, inside the hazard
    fence, inside again.  The alert list ends with exactly one enter alert,
    of critical priority, in front of the exit alert of the safe zone. *)
Example four_fixes_one_enter_alert :
  map (fun a => (Alert.type a, Alert.geofenceId a, Alert.priority a))
      (alerts (state (runFixes (H := gridNumerics)
                        [fixOrigin1; fixOrigin2; fixHazard1; fixHazard2] initialHook)))
  = [ (geofence_enter, Some "geofence-hazard", Some critical);
      (geofence_exit, Some "geofence-safe-zone", Some high) ].
Proof. vm_compute. reflexivity. Qed.

(** ** Signal-loss alerts *)

Section SignalAlerts.
Context `{JsNumerics}.

(** A reading of at least 20 is truthy, so the guard of the check is the
    falling edge of the specification. *)
Lemma signalLossGuard_fallingEdge signalStrength lastPos :
  signalLossGuard signalStrength lastPos =
  spec_fallingEdge (GPSPosition.signalStrength <$> lastPos) signalStrength.
Proof.
  unfold signalLossGuard, spec_fallingEdge.
  destruct lastPos as [p|]; simpl; [|apply andb_false_r].
  destruct (Qle_bool 20 (GPSPosition.signalStrength p)) eqn:Hle.
  - assert (Htruthy : truthy (GPSPosition.signalStrength p) = true).
    { unfold truthy. apply negb_true_iff.
      destruct (Qeq_bool (GPSPosition.signalStrength p) 0) eqn:Heq; [|reflexivity].
      apply Qeq_bool_iff in Heq. apply Qle_bool_iff in Hle.
      rewrite Heq in Hle. exfalso. revert Hle. apply Qlt_not_le. reflexivity. }
    rewrite Htruthy. simpl. apply andb_comm.
  - rewrite andb_false_r. simpl. apply andb_false_r.
Qed.

Lemma signalLossCheck_cases now dev lastPos newPos depth acc :
  signalLossCheck now dev lastPos newPos depth acc =
    if spec_fallingEdge (GPSPosition.signalStrength <$> lastPos)
         (GPSPosition.signalStrength newPos)
    then signalAlert now dev newPos depth :: acc
    else acc.
Proof. unfold signalLossCheck. rewrite signalLossGuard_fallingEdge. reflexivity. Qed.

(** The geofence loop emits no signal alert. *)
Lemma geofenceLoop_no_signal now dev lastPos newPos depth gs acc :
  List.filter isSignalLost (geofenceLoop now dev lastPos newPos depth gs acc) =
  List.filter isSignalLost acc.
Proof.
  unfold geofenceLoop. revert acc.
  induction gs as [|g gs IH]; intros acc; simpl; [reflexivity|].
  rewrite IH, checkFence_cases.
  destruct (spec_enterTransitionb g lastPos newPos); [reflexivity|].
  destruct lastPos as [p|]; [|reflexivity].
  destruct (Geofence.isActive g && insideFence g p
            && negb (insideFence g newPos) && Geofence.alertOnExit g);
    reflexivity.
Qed.

(** The signal alerts of one update: one on a falling edge, none otherwise. *)
Lemma emittedAlerts_signal now position h :
  isPlaying (state h) = false ->
  List.filter isSignalLost (emittedAlerts now position h) =
    if spec_fallingEdge (GPSPosition.signalStrength <$> currentPosition (state h))
         (GPSPosition.signalStrength (positionOf now position h))
    then [signalAlert now (device (state h)) (positionOf now position h)
            (calculateDepth now (c_accuracy (coords position)) (trackHistory (state h)))]
    else [].
Proof.
  intros Hlive. unfold emittedAlerts. rewrite Hlive, signalLossCheck_cases.
  destruct (spec_fallingEdge _ _); simpl; rewrite geofenceLoop_no_signal; reflexivity.
Qed.

(** Along a sequence of fixes outside playback, the number of signal
    alerts each fix emits follows the falling edges of the readings. *)
Lemma emittedTrace_signal fixes h :
  isPlaying (state h) = false ->
  map (fun emitted => length (List.filter isSignalLost emitted)) (emittedTrace fixes h) =
  map (fun edge : bool => if edge then 1 else 0)
      (spec_fallingEdges (GPSPosition.signalStrength <$> currentPosition (state h))
         (signalReadings fixes h)).
Proof.
  revert h. induction fixes as [|f fixes IH]; intros h Hlive; [reflexivity|].
  unfold signalReadings. simpl. f_equal.
  - rewrite emittedAlerts_signal by assumption.
    destruct (spec_fallingEdge _ _); reflexivity.
  - rewrite IH by (rewrite handlePosition_isPlaying; assumption).
    destruct (handlePosition_live f.1 f.2 h Hlive) as (_ & -> & _).
    reflexivity.
Qed.

(** C7.  For every sequence of fixes from the initial state, a signal-lost
    alert is emitted on a reading exactly when a previous reading exists,
    the previous reading is at least 20 and the current reading is below
    20: the check pushes its alert on a falling edge and nothing
    otherwise, and fix by fix the number of signal alerts emitted is 1 on a
    falling edge of the readings and 0 elsewhere (the first reading has no
    predecessor and never triggers).  The alert has priority high and
    becomes the head of the alert list.
    Readings [25, 18] give one alert, on the second reading; readings
    [18, 25, 15] give one alert, on the third. *)
Theorem signal_lost_alert_rule :
  (forall now dev lastPos newPos depth acc,
      signalLossCheck now dev lastPos newPos depth acc =
        if spec_fallingEdge (GPSPosition.signalStrength <$> lastPos)
             (GPSPosition.signalStrength newPos)
        then signalAlert now dev newPos depth :: acc
        else acc) /\
  (forall now dev newPos depth,
      Alert.type (signalAlert now dev newPos depth) = signal_lost /\
      Alert.priority (signalAlert now dev newPos depth) = Some high) /\
  (forall now position h,
      isPlaying (state h) = false ->
      spec_fallingEdge (GPSPosition.signalStrength <$> currentPosition (state h))
        (GPSPosition.signalStrength (positionOf now position h)) = true ->
      head (alerts (state (handlePosition now position h))) =
        Some (signalAlert now (device (state h)) (positionOf now position h)
                (calculateDepth now (c_accuracy (coords position))
                   (trackHistory (state h))))) /\
  (forall fixes,
      map (fun emitted => length (List.filter isSignalLost emitted))
          (emittedTrace fixes initialHook) =
      map (fun edge : bool => if edge then 1 else 0)
          (spec_fallingEdges None (signalReadings fixes initialHook))) /\
  (forall fixes,
      signalReadings fixes initialHook = [25; 18]%Q ->
      map (fun emitted => length (List.filter isSignalLost emitted))
          (emittedTrace fixes initialHook) = [0; 1]) /\
  (forall fixes,
      signalReadings fixes initialHook = [18; 25; 15]%Q ->
      map (fun emitted => length (List.filter isSignalLost emitted))
          (emittedTrace fixes initialHook) = [0; 0; 1]).
Proof.
  split; [|split; [|split; [|split; [|split]]]].
  - apply signalLossCheck_cases.
  - intros. split; reflexivity.
  - intros now position h Hlive Hedge.
    unfold handlePosition. rewrite Hlive. simpl.
    rewrite signalLossCheck_cases, Hedge. reflexivity.
  - intros fixes. apply (emittedTrace_signal fixes initialHook). reflexivity.
  - intros fixes Hreadings.
    rewrite (emittedTrace_signal fixes initialHook) by reflexivity.
    simpl. rewrite Hreadings. reflexivity.
  - intros fixes Hreadings.
    rewrite (emittedTrace_signal fixes initialHook) by reflexivity.
    simpl. rewrite Hreadings. reflexivity.
Qed.
End SignalAlerts.

(** *** The signal rule at concrete fixes *)

Lemma signal_lost_alert_rule_witness :
  signalReadings (H := gridNumerics) fixesReading_25_18 initialHook = [25; 18]%Q /\
  map (fun emitted => length (List.filter isSignalLost emitted))
      (emittedTrace (H := gridNumerics) fixesReading_25_18 initialHook) = [0; 1] /\
  signalReadings (H := gridNumerics) fixesReading_18_25_15 initialHook
    = [18; 25; 15]%Q /\
  map (fun emitted => length (List.filter isSignalLost emitted))
      (emittedTrace (H := gridNumerics) fixesReading_18_25_15 initialHook)
    = [0; 0; 1].
Proof.
  destruct (signal_lost_alert_rule (H := gridNumerics)) as (_ & _ & _ & _ & H2 & H3).
  split; [reflexivity|]. split; [apply H2; reflexivity|].
  split; [reflexivity|]. apply H3. reflexivity.
Defined.

(** The alert lists the two scenarios leave in the state: one signal-lost
    alert of priority high each. *)
Example readings_25_18_alerts :
  map (fun a => (Alert.id a, Alert.type a, Alert.priority a))
      (alerts (state (runFixes (H := gridNumerics) fixesReading_25_18 initialHook)))
  = [ ("alert-2000-signal", signal_lost, Some high) ].
Proof. vm_compute. reflexivity. Qed.

Example readings_18_25_15_alerts :
  map (fun a => (Alert.id a, Alert.type a, Alert.priority a))
      (alerts (state (runFixes (H := gridNumerics) fixesReading_18_25_15 initialHook)))
  = [ ("alert-3000-signal", signal_lost, Some high) ].
Proof. vm_compute. reflexivity. Qed.

(** ** Bounded history *)

Section BoundedHistory.
Context `{JsNumerics}.

Lemma appendedPositions_length fixes h :
  length (appendedPositions fixes h) = length fixes.
Proof.
  revert h. induction fixes as [|f fixes IH]; intros h; simpl; [reflexivity|].
  rewrite IH. reflexivity.
Qed.

(** After any sequence of fixes outside playback the history is the last
    200 of what it held followed by the positions appended. *)
Lemma runFixes_history fixes h :
  isPlaying (state h) = false ->
  length (trackHistory (state h)) <= 200 ->
  trackHistory (state (runFixes fixes h)) =
  slice_last 200 (trackHistory (state h) ++ appendedPositions fixes h).
Proof.
  revert h. induction fixes as [|f fixes IH]; intros h Hlive Hlen.
  - simpl. rewrite app_nil_r, slice_last_short by assumption. reflexivity.
  - change (runFixes (f :: fixes) h) with (runFixes fixes (handlePosition f.1 f.2 h)).
    destruct (handlePosition_live f.1 f.2 h Hlive) as (Hhist & _).
    rewrite IH.
    + rewrite Hhist, slice_last_push, slice_last_app_slice.
      simpl. rewrite <- app_assoc. reflexivity.
    + rewrite handlePosition_isPlaying. assumption.
    + rewrite Hhist, length_app, slice_last_length. cbn [length]. lia.
Qed.

(** Every operation keeps the history within 200. *)
Lemma applyEvent_history_bound h e :
  length (trackHistory (state h)) <= 200 ->
  length (trackHistory (state (applyEvent h e))) <= 200.
Proof.
  intros Hlen. destruct e as [| |index| |now position]; simpl; try assumption.
  - destruct (jsLength (trackHistory (state h)) <=? playbackIndex (state h) + 1)%Z;
      assumption.
  - destruct (isPlaying (state h)) eqn:Hplaying.
    + rewrite handlePosition_guard; assumption.
    + destruct (handlePosition_live now position h Hplaying) as (-> & _).
      rewrite length_app, slice_last_length. cbn [length]. lia.
Qed.

Lemma reachable_history_bound h :
  reachable h -> length (trackHistory (state h)) <= 200.
Proof.
  induction 1 as [|h e Hreach IH]; [simpl; lia|].
  apply applyEvent_history_bound. assumption.
Qed.
End BoundedHistory.

Section FeedHistory.
Import Supabase.

(** What one inserted row does to the history of device [d]. *)
Lemma onPositionInsert_history sel st r d :
  default [] (allDeviceTrackHistory (onPositionInsert sel st r) !! d) =
    if decide (device_id r = d)
    then slice_last 199 (default [] (allDeviceTrackHistory st !! d)) ++ [toGPSPosition r]
    else default [] (allDeviceTrackHistory st !! d).
Proof.
  unfold onPositionInsert.
  destruct (forSelectedDevice sel (device_id r)); simpl;
    rewrite lookup_insert; destruct (decide (device_id r = d)) as [->|Hne];
    reflexivity.
Qed.

Lemma onPositionInsert_trackHistory sel st r :
  Supabase.trackHistory (onPositionInsert sel st r) =
    if forSelectedDevice sel (device_id r)
    then slice_last 199 (Supabase.trackHistory st) ++ [toGPSPosition r]
    else Supabase.trackHistory st.
Proof.
  unfold onPositionInsert. destruct (forSelectedDevice sel (device_id r)); reflexivity.
Qed.

(** The history of one device after a sequence of inserted rows. *)
Lemma feed_device_history sel rows st d :
  length (default [] (allDeviceTrackHistory st !! d)) <= 200 ->
  default [] (allDeviceTrackHistory (feed sel rows st) !! d) =
  slice_last 200
    (default [] (allDeviceTrackHistory st !! d) ++ (toGPSPosition <$> rowsOf d rows)).
Proof.
  revert st. induction rows as [|r rows IH]; intros st Hlen.
  - simpl. rewrite app_nil_r, slice_last_short by assumption. reflexivity.
  - change (feed sel (r :: rows) st) with (feed sel rows (onPositionInsert sel st r)).
    rewrite IH.
    + rewrite onPositionInsert_history. unfold rowsOf. rewrite filter_cons.
      destruct (decide (device_id r = d)) as [Heq|Hne]; [|reflexivity].
      rewrite slice_last_push, slice_last_app_slice.
      rewrite fmap_cons, <- app_assoc. reflexivity.
    + rewrite onPositionInsert_history.
      destruct (decide (device_id r = d)) as [Heq|Hne]; [|assumption].
      rewrite length_app, slice_last_length. cbn [length]. lia.
Qed.

(** The history of the selected device after a sequence of inserted rows. *)
Lemma feed_trackHistory sel rows st :
  length (Supabase.trackHistory st) <= 200 ->
  Supabase.trackHistory (feed sel rows st) =
  slice_last 200
    (Supabase.trackHistory st ++
     (toGPSPosition <$> filter (fun r => forSelectedDevice sel (device_id r)) rows)).
Proof.
  revert st. induction rows as [|r rows IH]; intros st Hlen.
  - simpl. rewrite app_nil_r, slice_last_short by assumption. reflexivity.
  - change (feed sel (r :: rows) st) with (feed sel rows (onPositionInsert sel st r)).
    rewrite IH.
    + rewrite onPositionInsert_trackHistory, filter_cons.
      destruct (forSelectedDevice sel (device_id r)) eqn:Hsel.
      * rewrite decide_True by exact I.
        rewrite slice_last_push, slice_last_app_slice.
        rewrite fmap_cons, <- app_assoc. reflexivity.
      * rewrite decide_False by (simpl; tauto). reflexivity.
    + rewrite onPositionInsert_trackHistory.
      destruct (forSelectedDevice sel (device_id r)); [|assumption].
      rewrite length_app, slice_last_length. cbn [length]. lia.
Qed.
End FeedHistory.

Section BoundedHistoryClaim.
Context `{JsNumerics}.

Lemma slice_last_200_facts {A} (appended hist : list A) :
  hist = slice_last 200 appended ->
  length hist <= 200 /\
  (200 < length appended ->
     length hist = 200 /\ hist = drop (length appended - 200) appended).
Proof.
  intros ->. rewrite slice_last_length. split; [lia|].
  intros Hmore. split; [lia|reflexivity].
Qed.

(** C8.  The history never holds more than 200 positions: not in any
    state of [useTracking] reachable by playback operations and position
    events, and not in the histories the change feed keeps.  After a
    sequence of appended positions the history is the last 200 of them in
    append order; with more than 200 appended it has exactly 200
    elements, the sequence without its oldest [N - 200].  This holds for
    the history of [useTracking] after fixes from the initial state, for
    the per-device histories of the change feed, and for the history of
    its selected device. *)
Theorem history_keeps_most_recent_200 :
  (forall h, reachable h -> length (trackHistory (state h)) <= 200) /\
  (forall fixes,
      let appended := appendedPositions fixes initialHook in
      let hist := trackHistory (state (runFixes fixes initialHook)) in
      hist = slice_last 200 appended /\
      length hist <= 200 /\
      (200 < length fixes ->
         length hist = 200 /\ hist = drop (length fixes - 200) appended)) /\
  (forall sel rows d,
      let appended := Supabase.toGPSPosition <$> Supabase.rowsOf d rows in
      let hist :=
        default []
          (Supabase.allDeviceTrackHistory (Supabase.feed sel rows Supabase.initial) !! d) in
      hist = slice_last 200 appended /\
      length hist <= 200 /\
      (200 < length appended ->
         length hist = 200 /\ hist = drop (length appended - 200) appended)) /\
  (forall sel rows,
      let appended :=
        Supabase.toGPSPosition <$>
          filter (fun r => Supabase.forSelectedDevice sel (Supabase.device_id r)) rows in
      let hist := Supabase.trackHistory (Supabase.feed sel rows Supabase.initial) in
      hist = slice_last 200 appended /\
      length hist <= 200 /\
      (200 < length appended ->
         length hist = 200 /\ hist = drop (length appended - 200) appended)).
Proof.
  split; [|split; [|split]].
  - apply reachable_history_bound.
  - intros fixes appended hist.
    assert (Hhist : hist = slice_last 200 appended).
    { subst hist appended. rewrite runFixes_history; [reflexivity|reflexivity|simpl; lia]. }
    split; [exact Hhist|].
    destruct (slice_last_200_facts appended hist Hhist) as [Hle Hmore].
    split; [exact Hle|].
    subst appended. rewrite appendedPositions_length in Hmore. exact Hmore.
  - intros sel rows d appended hist.
    assert (Hhist : hist = slice_last 200 appended).
    { subst hist appended. rewrite feed_device_history; [reflexivity|].
      simpl. rewrite lookup_empty. simpl. lia. }
    split; [exact Hhist|]. apply slice_last_200_facts, Hhist.
  - intros sel rows appended hist.
    assert (Hhist : hist = slice_last 200 appended).
    { subst hist appended. rewrite feed_trackHistory; [reflexivity|simpl; lia]. }
    split; [exact Hhist|]. apply slice_last_200_facts, Hhist.
Qed.
End BoundedHistoryClaim.

(** *** The history bound at concrete sequences *)

Lemma history_keeps_most_recent_200_witness :
  200 < length fixes205 /\
  length (trackHistory (state (runFixes (H := gridNumerics) fixes205 initialHook))) = 200 /\
  trackHistory (state (runFixes (H := gridNumerics) fixes205 initialHook))
    = drop 5 (appendedPositions (H := gridNumerics) fixes205 initialHook) /\
  length (default []
            (Supabase.allDeviceTrackHistory
               (Supabase.feed None rows410 Supabase.initial) !! "drill-a")) = 200.
Proof.
  destruct (history_keeps_most_recent_200 (H := gridNumerics)) as (_ & Hfix & Hfeed & _).
  assert (Hlen : 200 < length fixes205) by (vm_compute; lia).
  split; [exact Hlen|].
  destruct (Hfix fixes205) as (_ & _ & Hmore).
  destruct (Hmore Hlen) as [H200 Hdrop].
  split; [exact H200|]. split; [exact Hdrop|].
  destruct (Hfeed None rows410 "drill-a") as (_ & _ & Hmore').
  apply Hmore'. vm_compute. lia.
Defined.

(** ** Simulator progress *)

Section SimulatorProgress.
Import Supabase.

(** The tracker of a device after the initialisation loop. *)
Lemma initSimulationState_lookup deviceIds (ref : gmap string SimProgress) d :
  initSimulationState deviceIds ref !! d =
    match ref !! d with
    | Some p => Some p
    | None => if decide (d ∈ deviceIds) then Some freshProgress else None
    end.
Proof.
  unfold initSimulationState. revert ref.
  induction deviceIds as [|i ids IH]; intros ref; cbn [foldl].
  - destruct (ref !! d); [reflexivity|].
    destruct (decide (d ∈ [])) as [Hin|_]; [|reflexivity].
    apply elem_of_nil in Hin. destruct Hin.
  - rewrite IH. destruct (decide (i = d)) as [->|Hne].
    + destruct (ref !! d) as [p|] eqn:Hd.
      * rewrite Hd. reflexivity.
      * rewrite lookup_insert_eq.
        rewrite decide_True by apply list_elem_of_here. reflexivity.
    + assert (Hstep : match ref !! i with
                      | Some _ => ref
                      | None => <[i:=freshProgress]> ref
                      end !! d = ref !! d).
      { destruct (ref !! i); [reflexivity|]. apply lookup_insert_ne. exact Hne. }
      rewrite Hstep. destruct (ref !! d); [reflexivity|].
      destruct (decide (d ∈ ids)) as [Hin|Hnin].
      * rewrite decide_True by (apply list_elem_of_further; exact Hin). reflexivity.
      * rewrite decide_False; [reflexivity|].
        intros Hin. apply elem_of_cons in Hin as [Heq|Hin]; [congruence|tauto].
Qed.
End SimulatorProgress.

(** ** Signal strength range *)

Section SignalStrengthRange.
Context `{JsNumerics}.

Lemma calculateSignalStrength_floor accuracy depth :
  (5 <= calculateSignalStrength accuracy depth)%Q.
Proof. unfold calculateSignalStrength. apply Q.le_max_l. Qed.

Lemma calculateSignalStrength_ceiling accuracy depth :
  (0 <= accuracy)%Q -> (0 <= depth)%Q ->
  (calculateSignalStrength accuracy depth <= 100)%Q.
Proof.
  intros Hacc Hdepth. unfold calculateSignalStrength, Math_round.
  apply Q.max_lub; [discriminate|].
  assert (Hbase : (Qmax 0 (100 - accuracy) <= 100)%Q)
    by (apply Q.max_lub; lra).
  pose proof (Qfloor_resp_le
                (Qmax 0 (100 - accuracy) - depth * (3 # 10) + (1 # 2))
                (100 + (1 # 2)) ltac:(lra)) as Hfloor.
  change (Qfloor (100 + (1 # 2))) with 100%Z in Hfloor.
  rewrite Zle_Qle in Hfloor. exact Hfloor.
Qed.

(** With a sine of at least -1 the simulated depth is never negative. *)
Lemma calculateDepth_nonneg now accuracy history :
  (-1 <= Math_sin (inject_Z now / 10000))%Q ->
  (0 <= calculateDepth now accuracy history)%Q.
Proof.
  intros Hsin. unfold calculateDepth, Math_round.
  destruct (Qlt_bool 50 accuracy) eqn:Hpoor; [|lra].
  apply Qlt_bool_iff in Hpoor.
  assert (Hmin : (25 <= Qmin (accuracy / 2) 200)%Q).
  { apply Q.min_glb; [apply Qle_shift_div_l|]; lra. }
  generalize dependent (Math_sin (inject_Z now / 10000)). intros s Hsin.
  generalize dependent (Qmin (accuracy / 2) 200). intros m Hmin.
  pose proof (Qfloor_resp_le 0 (m + s * 20 + (1 # 2)) ltac:(lra)) as Hfloor.
  change (Qfloor 0) with 0%Z in Hfloor.
  rewrite Zle_Qle in Hfloor. exact Hfloor.
Qed.

(** C10.  The computed signal strength is never below 5, and for a
    non-negative accuracy and a non-negative depth it is at most 100.
    Hence every position a live update creates from a fix of non-negative
    accuracy, and stores as current position and newest history element,
    has a signal strength between 5 and 100, as long as the sine stays
    above -1. *)
Theorem live_signal_strength_range :
  (forall accuracy depth,
      (0 <= accuracy)%Q -> (0 <= depth)%Q ->
      (5 <= calculateSignalStrength accuracy depth <= 100)%Q) /\
  (forall now position h,
      isPlaying (state h) = false ->
      (0 <= c_accuracy (coords position))%Q ->
      (-1 <= Math_sin (inject_Z now / 10000))%Q ->
      exists p,
        currentPosition (state (handlePosition now position h)) = Some p /\
        last (trackHistory (state (handlePosition now position h))) = Some p /\
        (5 <= GPSPosition.signalStrength p <= 100)%Q).
Proof.
  split.
  - intros accuracy depth Hacc Hdepth. split.
    + apply calculateSignalStrength_floor.
    + apply calculateSignalStrength_ceiling; assumption.
  - intros now position h Hlive Hacc Hsin.
    exists (positionOf now position h).
    destruct (handlePosition_live now position h Hlive) as (Hhist & Hcur & _).
    split; [exact Hcur|]. split; [rewrite Hhist; apply last_snoc|].
    unfold positionOf. simpl. split.
    + apply calculateSignalStrength_floor.
    + apply calculateSignalStrength_ceiling; [assumption|].
      apply calculateDepth_nonneg. assumption.
Qed.
End SignalStrengthRange.

(** *** The signal range at concrete inputs *)

Lemma live_signal_strength_range_witness :
  (5 <= calculateSignalStrength 120 60 <= 100)%Q /\
  (5 <= calculateSignalStrength 0 0 <= 100)%Q /\
  exists p,
    currentPosition
      (state (handlePosition (H := gridNumerics) 3000 (fixAt 0 0 120 3000) hookTwoFixes))
      = Some p /\
    last (trackHistory
            (state (handlePosition (H := gridNumerics) 3000 (fixAt 0 0 120 3000) hookTwoFixes)))
      = Some p /\
    (5 <= GPSPosition.signalStrength p <= 100)%Q.
Proof.
  destruct (live_signal_strength_range (H := gridNumerics)) as (Hrange & Hlive).
  split; [apply Hrange; discriminate|].
  split; [apply Hrange; discriminate|].
  apply Hlive; [reflexivity|discriminate|discriminate].
Defined.

Example calculateSignalStrength_examples :
  calculateSignalStrength 120 60 = 5%Q /\
  calculateSignalStrength 0 0 = 100%Q /\
  calculateSignalStrength 65 33 = 25%Q.
Proof. repeat split; vm_compute; reflexivity. Qed.

(** ** Further properties of [useTracking] *)

Section AlertList.
Context `{JsNumerics}.

Lemma dismissIn_length alertId l : length (dismissIn alertId l) = length l.
Proof. unfold dismissIn. apply length_map. Qed.

Lemma applyAction_alerts_bound h a :
  length (alerts (state h)) <= 50 ->
  length (alerts (state (applyAction h a))) <= 50.
Proof.
  intros Hlen. destruct a; simpl; try assumption.
  - rewrite handlePosition_alerts. destruct (isPlaying (state h)); [assumption|].
    rewrite length_take. lia.
  - destruct (jsLength (trackHistory (state h)) <=? playbackIndex (state h) + 1)%Z;
      assumption.
  - rewrite dismissIn_length. assumption.
  - destruct (currentPosition (state h)); [|assumption].
    simpl. rewrite length_take. lia.
  - destruct (currentPosition (state h)); [|assumption].
    simpl. rewrite length_take. lia.
Qed.

Lemma applyAction_history_bound h a :
  length (trackHistory (state h)) <= 200 ->
  length (trackHistory (state (applyAction h a))) <= 200.
Proof.
  intros Hlen. destruct a; simpl; try assumption.
  - apply (applyEvent_history_bound h (EvPosition now position) Hlen).
  - apply (applyEvent_history_bound h EvTick Hlen).
  - destruct (currentPosition (state h)); assumption.
  - destruct (currentPosition (state h)); assumption.
Qed.

(** X1.  Whatever sequence of the hook's operations runs from the initial
    state (position updates, ticks, playback controls, dismissals, added
    geofences, emergency and breakdown reports), the alert list never holds
    more than 50 alerts and the history never more than 200 positions. *)
Theorem state_stays_bounded acts :
  length (alerts (state (runActions acts initialHook))) <= 50 /\
  length (trackHistory (state (runActions acts initialHook))) <= 200.
Proof.
  unfold runActions.
  assert (Hgen : forall h,
             length (alerts (state h)) <= 50 /\ length (trackHistory (state h)) <= 200 ->
             length (alerts (state (foldl applyAction h acts))) <= 50 /\
             length (trackHistory (state (foldl applyAction h acts))) <= 200).
  { induction acts as [|a acts IH]; intros h [Ha Hh]; [auto|].
    simpl. apply IH. split.
    - apply applyAction_alerts_bound, Ha.
    - apply applyAction_history_bound, Hh. }
  apply Hgen. simpl. lia.
Qed.

Lemma take_app_take {A} (n : nat) (l1 l2 : list A) :
  take n (l1 ++ take n l2) = take n (l1 ++ l2).
Proof.
  rewrite !take_app. f_equal.
  rewrite take_take. f_equal. lia.
Qed.

Lemma runFixes_alerts fixes h :
  isPlaying (state h) = false ->
  length (alerts (state h)) <= 50 ->
  alerts (state (runFixes fixes h)) =
  take 50 (concat (rev (emittedTrace fixes h)) ++ alerts (state h)).
Proof.
  revert h. induction fixes as [|f fixes IH]; intros h Hlive Hlen.
  - simpl. rewrite take_ge by assumption. reflexivity.
  - change (runFixes (f :: fixes) h) with (runFixes fixes (handlePosition f.1 f.2 h)).
    rewrite IH.
    + rewrite handlePosition_alerts, Hlive, take_app_take.
      simpl. rewrite concat_app. simpl. rewrite app_nil_r, <- app_assoc. reflexivity.
    + rewrite handlePosition_isPlaying. assumption.
    + rewrite handlePosition_alerts, Hlive, length_take. lia.
Qed.

(** X2.  After any sequence of fixes from the initial state the alert list
    is the newest 50 of all alerts emitted so far, newest first: the alerts
    of the latest fix in front, each fix's alerts in the order the update
    pushed them. *)
Theorem alerts_are_newest_50 fixes :
  alerts (state (runFixes fixes initialHook)) =
  take 50 (concat (rev (emittedTrace fixes initialHook))).
Proof.
  rewrite runFixes_alerts; [|reflexivity|simpl; lia].
  simpl. rewrite app_nil_r. reflexivity.
Qed.
End AlertList.

Section ExitAlerts.
Context `{JsNumerics}.

Lemma exitTransition_not_enter fence lastPos newPos :
  exitTransition fence lastPos newPos ->
  spec_enterTransitionb fence lastPos newPos = false.
Proof.
  intros (_ & (p & -> & Hin) & _ & _). unfold spec_enterTransitionb.
  replace (Qlt_bool (Geofence.radius fence) (distanceTo fence p)) with false.
  - rewrite andb_false_r. reflexivity.
  - symmetry. apply Qlt_bool_false_iff. exact Hin.
Qed.

Lemma exit_guard_iff fence p newPos :
  Geofence.isActive fence && insideFence fence p
    && negb (insideFence fence newPos) && Geofence.alertOnExit fence = true <->
  exitTransition fence (Some p) newPos.
Proof.
  unfold exitTransition. rewrite !andb_true_iff, negb_true_iff. split.
  - intros [[[Hact Hwas] Hnow] Hexit]. repeat split; auto.
    + exists p. split; [reflexivity|]. apply insideFence_iff, Hwas.
    + apply Qlt_bool_iff. unfold Qlt_bool. unfold insideFence, distanceTo in *.
      rewrite Hnow. reflexivity.
  - intros (Hact & (q & [= <-] & Hwas) & Hnow & Hexit). repeat split; auto.
    + apply insideFence_iff, Hwas.
    + apply Qlt_bool_iff in Hnow. unfold Qlt_bool in Hnow.
      apply negb_true_iff in Hnow. exact Hnow.
Qed.

Lemma checkFence_exit_cases now dev lastPos newPos depth acc fence :
  (exitTransition fence lastPos newPos /\
   checkFence now dev lastPos newPos depth acc fence
     = exitAlert now dev fence newPos depth :: acc) \/
  (~ exitTransition fence lastPos newPos /\
   (checkFence now dev lastPos newPos depth acc fence = acc \/
    checkFence now dev lastPos newPos depth acc fence
      = enterAlert now dev fence newPos depth :: acc)).
Proof.
  rewrite checkFence_cases.
  destruct (spec_enterTransitionb fence lastPos newPos) eqn:Henter.
  - right. split; [|auto]. intros Hexit.
    rewrite (exitTransition_not_enter _ _ _ Hexit) in Henter. discriminate.
  - destruct lastPos as [p|].
    + destruct (Geofence.isActive fence && insideFence fence p
                && negb (insideFence fence newPos) && Geofence.alertOnExit fence)
        eqn:Hguard.
      * left. split; [apply exit_guard_iff, Hguard|reflexivity].
      * right. split; [|auto]. intros Hexit. apply exit_guard_iff in Hexit. congruence.
    + right. split; [|auto]. intros (_ & (p & Hp & _) & _). discriminate.
Qed.

Lemma geofenceLoop_exit_iff now dev lastPos newPos depth gs acc a :
  (In a (geofenceLoop now dev lastPos newPos depth gs acc) /\ isExit a = true) <->
  ((exists fence, In fence gs /\ exitTransition fence lastPos newPos /\
                  a = exitAlert now dev fence newPos depth) \/
   (In a acc /\ isExit a = true)).
Proof.
  unfold geofenceLoop. revert acc. induction gs as [|g gs IH]; intros acc.
  - simpl. split; [auto|]. intros [(fence & [] & _)|Hacc]. exact Hacc.
  - simpl. rewrite IH. clear IH.
    destruct (checkFence_exit_cases now dev lastPos newPos depth acc g)
      as [[Hexit ->]|[Hno [->| ->]]].
    + split.
      * intros [(fence & Hin & Hrule & ->)|[[<-|Hin] Ha]]; eauto 8.
      * intros [(fence & [<-|Hin] & Hrule & ->)|[Hin Ha]].
        -- right. split; [left; reflexivity|reflexivity].
        -- left. eauto.
        -- right. split; [right; exact Hin|exact Ha].
    + split.
      * intros [(fence & Hin & Hrule & ->)|Hacc]; eauto 8.
      * intros [(fence & [<-|Hin] & Hrule & ->)|Hacc]; [tauto|eauto|auto].
    + split.
      * intros [(fence & Hin & Hrule & ->)|[[<-|Hin] Ha]]; [eauto 8|discriminate|auto].
      * intros [(fence & [<-|Hin] & Hrule & ->)|[Hin Ha]];
          [tauto|eauto|right; split; [right; exact Hin|exact Ha]].
Qed.

(** X3.  One iteration of the geofence loop pushes an exit alert exactly
    when the fence is active, a previous position exists within the radius
    (boundary included), the new position lies outside the radius and the
    fence alerts on exit; accordingly the exit alerts of a whole update
    outside playback are those of the fences in force that meet the rule.
    The iteration never pushes more than one alert, so an update emits at
    most one alert per fence. *)
Theorem geofence_exit_alert_rule :
  (forall now dev lastPos newPos depth acc fence,
      checkFence now dev lastPos newPos depth acc fence
        = exitAlert now dev fence newPos depth :: acc
      <-> exitTransition fence lastPos newPos) /\
  (forall now dev lastPos newPos depth acc fence,
      checkFence now dev lastPos newPos depth acc fence = acc \/
      checkFence now dev lastPos newPos depth acc fence
        = exitAlert now dev fence newPos depth :: acc \/
      checkFence now dev lastPos newPos depth acc fence
        = enterAlert now dev fence newPos depth :: acc) /\
  (forall now position h a,
      isPlaying (state h) = false ->
      (In a (emittedAlerts now position h) /\ isExit a = true) <->
      (exists fence,
          In fence (geofencesInForce position h) /\
          exitTransition fence (currentPosition (state h)) (positionOf now position h) /\
          a = exitAlert now (device (state h)) fence (positionOf now position h)
                (calculateDepth now (c_accuracy (coords position))
                   (trackHistory (state h))))).
Proof.
  split; [|split].
  - intros now dev lastPos newPos depth acc fence.
    destruct (checkFence_exit_cases now dev lastPos newPos depth acc fence)
      as [[Hexit ->]|[Hno [->| ->]]].
    + tauto.
    + split; [|tauto]. intros Heq. apply (f_equal length) in Heq. simpl in Heq. lia.
    + split; [|tauto]. intros Heq. injection Heq as Heq. discriminate.
  - intros now dev lastPos newPos depth acc fence.
    destruct (checkFence_exit_cases now dev lastPos newPos depth acc fence)
      as [[_ ->]|[_ [->| ->]]]; auto.
  - intros now position h a Hlive. unfold emittedAlerts. rewrite Hlive.
    rewrite signalLossCheck_cases.
    set (loop := geofenceLoop _ _ _ _ _ _ []).
    assert (Hsig : (In a (if spec_fallingEdge
                               (GPSPosition.signalStrength <$> currentPosition (state h))
                               (GPSPosition.signalStrength (positionOf now position h))
                          then signalAlert now (device (state h)) (positionOf now position h)
                                 (calculateDepth now (c_accuracy (coords position))
                                    (trackHistory (state h))) :: loop
                          else loop) /\ isExit a = true)
                   <-> (In a loop /\ isExit a = true)).
    { destruct (spec_fallingEdge _ _); [|tauto]. split.
      - intros [[<-|Hin] Ha]; [discriminate|auto].
      - intros [Hin Ha]. split; [right; exact Hin|exact Ha]. }
    rewrite Hsig. unfold loop. rewrite geofenceLoop_exit_iff.
    split; [intros [Hex|[[] _]]; exact Hex|auto].
Qed.
End ExitAlerts.

Section Zones.
Context `{JsNumerics}.

Lemma determineZone_in_names lat lng zones :
  determineZone lat lng zones ∈ "Surface" :: (MineZone.name <$> zones).
Proof.
  induction zones as [|z zones IH]; [apply list_elem_of_here|].
  simpl. destruct (Qlt_bool _ 100).
  - apply list_elem_of_further, list_elem_of_here.
  - apply elem_of_cons in IH as [->|IH]; [apply list_elem_of_here|].
    do 2 apply list_elem_of_further. exact IH.
Qed.

(** X4.  [determineZone] returns the name of the first zone of the list
    whose reference coordinate is less than 100 m away, passing over every
    zone before it that is at 100 m or more; when no zone is that close it
    returns "Surface".  Its result is therefore "Surface" or one of the zone
    names. *)
Theorem determineZone_first_match lat lng zones :
  ((exists before zone after,
       zones = before ++ zone :: after /\
       Forall (fun z => (100 <= zoneDistance lat lng z)%Q) before /\
       (zoneDistance lat lng zone < 100)%Q /\
       determineZone lat lng zones = MineZone.name zone) \/
   (Forall (fun z => (100 <= zoneDistance lat lng z)%Q) zones /\
    determineZone lat lng zones = "Surface")) /\
  determineZone lat lng zones ∈ "Surface" :: (MineZone.name <$> zones).
Proof.
  assert (Hfirst :
    (exists before zone after,
        zones = before ++ zone :: after /\
        Forall (fun z => (100 <= zoneDistance lat lng z)%Q) before /\
        (zoneDistance lat lng zone < 100)%Q /\
        determineZone lat lng zones = MineZone.name zone) \/
    (Forall (fun z => (100 <= zoneDistance lat lng z)%Q) zones /\
     determineZone lat lng zones = "Surface")).
  { induction zones as [|z zones IH]; [right; split; [constructor|reflexivity]|].
    simpl. fold (zoneDistance lat lng z).
    destruct (Qlt_bool (zoneDistance lat lng z) 100) eqn:Hnear.
    - left. exists [], z, zones. apply Qlt_bool_iff in Hnear.
      repeat split; [constructor|exact Hnear].
    - apply Qlt_bool_false_iff in Hnear.
      destruct IH as [(before & zone & after & -> & Hfar & Hz & Hres)|[Hfar Hres]].
      + left. exists (z :: before), zone, after.
        repeat split; [constructor; assumption|assumption|assumption].
      + right. split; [constructor; assumption|assumption]. }
  split; [exact Hfirst|].
  destruct Hfirst as [(before & zone & after & -> & _ & _ & ->)|[_ ->]].
  - apply list_elem_of_further. apply list_elem_of_fmap_2.
    apply elem_of_app. right. apply list_elem_of_here.
  - apply list_elem_of_here.
Qed.

Lemma appendedPositions_zones fixes h zs :
  isPlaying (state h) = false ->
  initialPositionSet h = true ->
  mineZones (state h) = zs ->
  Forall (fun p => GPSPosition.zone p ∈ "Surface" :: (MineZone.name <$> zs))
         (appendedPositions fixes h) /\
  mineZones (state (runFixes fixes h)) = zs /\
  geofences (state (runFixes fixes h)) = geofences (state h) /\
  initialPositionSet (runFixes fixes h) = true.
Proof.
  revert h. induction fixes as [|f fixes IH]; intros h Hlive Hset Hzs.
  - simpl. repeat split; auto.
  - change (runFixes (f :: fixes) h) with (runFixes fixes (handlePosition f.1 f.2 h)).
    assert (Hz' : mineZones (state (handlePosition f.1 f.2 h)) = zs).
    { unfold handlePosition. rewrite Hlive. simpl. unfold zonesInForce.
      rewrite Hset. exact Hzs. }
    destruct (handlePosition_live f.1 f.2 h Hlive) as (_ & _ & Hgeo & Hset').
    destruct (IH (handlePosition f.1 f.2 h)) as (Hall & Hmz & Hgf & Hips); auto.
    { rewrite handlePosition_isPlaying. exact Hlive. }
    repeat split; auto.
    + simpl. constructor; [|exact Hall].
      unfold positionOf. simpl. unfold zonesInForce. rewrite Hset, Hzs.
      apply determineZone_in_names.
    + rewrite Hgf, Hgeo. unfold geofencesInForce. rewrite Hset. reflexivity.
Qed.

(** X5.  The zones and the geofences are created once, around the first
    fix: after any further fixes from the initial state they are still the
    ones created at the coordinates of the first fix, and every position in
    the history carries the name of one of those four zones or "Surface". *)
Theorem zones_created_at_first_fix now0 fix0 fixes :
  let h := runFixes ((now0, fix0) :: fixes) initialHook in
  mineZones (state h) =
    createMineZones (c_latitude (coords fix0)) (c_longitude (coords fix0)) /\
  geofences (state h) =
    createMineGeofences (c_latitude (coords fix0)) (c_longitude (coords fix0)) /\
  Forall (fun p => GPSPosition.zone p ∈ "Surface" :: mineZoneNames)
         (trackHistory (state h)).
Proof.
  intros h. subst h.
  change (runFixes ((now0, fix0) :: fixes) initialHook)
    with (runFixes fixes (handlePosition now0 fix0 initialHook)).
  set (h1 := handlePosition now0 fix0 initialHook).
  set (zs := createMineZones (c_latitude (coords fix0)) (c_longitude (coords fix0))).
  destruct (appendedPositions_zones fixes h1 zs) as (Hall & Hmz & Hgf & _);
    try reflexivity.
  split; [exact Hmz|]. split; [rewrite Hgf; reflexivity|].
  rewrite runFixes_history; [|reflexivity|simpl; lia].
  unfold slice_last. apply Forall_drop.
  change (trackHistory (state h1)) with [positionOf now0 fix0 initialHook].
  simpl. constructor; [|exact Hall].
  unfold positionOf. simpl.
  apply (determineZone_in_names _ _ zs).
Qed.
End Zones.

Section PlaybackRuns.

Lemma ticks_S n h : ticks (S n) h = playbackTick (ticks n h).
Proof. reflexivity. Qed.

Lemma ticks_add a b h : ticks (a + b) h = ticks a (ticks b h).
Proof. unfold ticks. apply Nat.iter_add. Qed.

Lemma playbackTick_history h :
  trackHistory (state (playbackTick h)) = trackHistory (state h).
Proof.
  unfold playbackTick, onState. simpl.
  destruct (jsLength (trackHistory (state h)) <=? playbackIndex (state h) + 1)%Z;
    reflexivity.
Qed.

Lemma ticks_history n h : trackHistory (state (ticks n h)) = trackHistory (state h).
Proof.
  induction n as [|n IH]; [reflexivity|].
  rewrite ticks_S, playbackTick_history. exact IH.
Qed.

(** While the end is not reached, [k] ticks move the cursor [k] steps on
    and show the element under it. *)
Lemma ticks_advance k h :
  isPlaying (state h) = true ->
  (0 <= playbackIndex (state h))%Z ->
  (0 < k ->
   (playbackIndex (state h) + Z.of_nat k < jsLength (trackHistory (state h)))%Z) ->
  isPlaying (state (ticks k h)) = true /\
  playbackIndex (state (ticks k h)) = (playbackIndex (state h) + Z.of_nat k)%Z /\
  (0 < k ->
   currentPosition (state (ticks k h)) =
   at_index (trackHistory (state h)) (playbackIndex (state h) + Z.of_nat k)).
Proof.
  intros Hplaying Hlo. induction k as [|k IH]; intros Hhi.
  - simpl. split; [assumption|]. split; [lia|]. lia.
  - specialize (Hhi ltac:(lia)).
    destruct IH as (Hp & Hidx & _); [lia|].
    rewrite ticks_S. unfold playbackTick, onState. simpl.
    rewrite ticks_history, Hidx.
    replace (jsLength (trackHistory (state h))
             <=? playbackIndex (state h) + Z.of_nat k + 1)%Z with false
      by (symmetry; apply Z.leb_gt; lia).
    simpl. split; [exact Hp|]. split; [lia|].
    intros _. f_equal. lia.
Qed.

(** Once playback has ended at the last index, further ticks change nothing. *)
Lemma ticks_ended n h :
  isPlaying (state h) = false ->
  playbackIndex (state h) = (jsLength (trackHistory (state h)) - 1)%Z ->
  isPlaying (state (ticks n h)) = false /\
  playbackIndex (state (ticks n h)) = (jsLength (trackHistory (state h)) - 1)%Z /\
  currentPosition (state (ticks n h)) = currentPosition (state h).
Proof.
  intros Hstopped Hidx. induction n as [|n (Hp & Hi & Hc)]; [auto|].
  rewrite ticks_S. unfold playbackTick, onState. simpl.
  rewrite ticks_history, Hi.
  replace (jsLength (trackHistory (state h))
           <=? jsLength (trackHistory (state h)) - 1 + 1)%Z with true
    by (symmetry; apply Z.leb_le; lia).
  simpl. auto.
Qed.

(** X6.  Playback runs to the end and stays there: after [start()] and any
    number of ticks that is at least the history length (and at least one),
    the playing flag is cleared and the cursor is on the last index,
    [length - 1]; the history is untouched, and with two or more positions
    the current position is the newest one. *)
Theorem playback_runs_to_end n h :
  (jsLength (trackHistory (state h)) <= Z.of_nat n)%Z ->
  0 < n ->
  let h' := ticks n (startPlayback h) in
  isPlaying (state h') = false /\
  playbackIndex (state h') = (jsLength (trackHistory (state h)) - 1)%Z /\
  trackHistory (state h') = trackHistory (state h) /\
  (2 <= length (trackHistory (state h)) ->
   currentPosition (state h') = last (trackHistory (state h))).
Proof.
  intros Hn Hpos h'. subst h'.
  set (L := length (trackHistory (state h))).
  assert (HL : jsLength (trackHistory (state h)) = Z.of_nat L) by reflexivity.
  set (h0 := startPlayback h).
  assert (Hh0 : trackHistory (state h0) = trackHistory (state h)) by reflexivity.
  rewrite HL in Hn.
  (* the run is [m - 1] advancing ticks, the ending tick, and the rest *)
  set (m := Nat.max L 1).
  replace n with ((n - m) + (1 + (m - 1))) by lia.
  rewrite ticks_add, ticks_add.
  destruct (ticks_advance (m - 1) h0) as (Hp & Hidx & Hcur).
  { reflexivity. }
  { simpl. lia. }
  { intros Hk. rewrite Hh0, HL. simpl playbackIndex. lia. }
  set (h1 := ticks (m - 1) h0) in *.
  assert (Hh1 : trackHistory (state h1) = trackHistory (state h))
    by (unfold h1; rewrite ticks_history; exact Hh0).
  simpl playbackIndex in Hidx, Hcur.
  assert (Hend : isPlaying (state (ticks 1 h1)) = false /\
                 playbackIndex (state (ticks 1 h1)) = (Z.of_nat L - 1)%Z /\
                 currentPosition (state (ticks 1 h1)) = currentPosition (state h1) /\
                 trackHistory (state (ticks 1 h1)) = trackHistory (state h)).
  { change (ticks 1 h1) with (playbackTick h1).
    unfold playbackTick, onState. simpl. rewrite Hh1, HL, Hidx.
    replace (Z.of_nat L <=? 0 + Z.of_nat (m - 1) + 1)%Z with true
      by (symmetry; apply Z.leb_le; lia).
    simpl. rewrite ?Hh1. auto. }
  destruct Hend as (Hp2 & Hidx2 & Hcur2 & Hh2).
  destruct (ticks_ended (n - m) (ticks 1 h1)) as (Hp3 & Hidx3 & Hcur3).
  { exact Hp2. }
  { rewrite Hh2, HL. exact Hidx2. }
  rewrite Hh2, HL in Hidx3.
  split; [exact Hp3|]. split; [exact Hidx3|].
  split; [rewrite ticks_history; exact Hh2|].
  intros Htwo. rewrite Hcur3, Hcur2, Hcur by lia.
  rewrite Hh0, <- at_index_last, HL.
  f_equal. lia.
Qed.
End PlaybackRuns.

Lemma playback_runs_to_end_witness :
  isPlaying (state (ticks 7 (startPlayback hookTwoFixes))) = false /\
  playbackIndex (state (ticks 7 (startPlayback hookTwoFixes))) = 1%Z /\
  currentPosition (state (ticks 7 (startPlayback hookTwoFixes)))
    = last (trackHistory (state hookTwoFixes)).
Proof.
  destruct (playback_runs_to_end 7 hookTwoFixes) as (Hp & Hidx & _ & Hcur).
  - vm_compute. discriminate.
  - lia.
  - split; [exact Hp|]. split; [exact Hidx|]. apply Hcur. vm_compute. lia.
Defined.

Section ManualActions.

Lemma hook_eta (h : Hook) :
  {| state :=
       {| currentPosition := currentPosition (state h);
          trackHistory := trackHistory (state h);
          device := device (state h);
          geofences := geofences (state h);
          alerts := alerts (state h);
          isPlaying := isPlaying (state h);
          playbackIndex := playbackIndex (state h);
          playbackSpeed := playbackSpeed (state h);
          mineZones := mineZones (state h);
          isUnderground := isUnderground (state h) |};
     initialPositionSet := initialPositionSet h |} = h.
Proof. destruct h as [[] ?]. reflexivity. Qed.

(** X7.  An emergency or a breakdown can only be reported from a known
    position: without a current position both actions return the state
    unchanged.  With one, the alert (critical for an emergency, high for a
    breakdown, located at the current position) goes in front of the alert
    list, which keeps at most its 49 newest other alerts, and the device
    status changes; history, current position and playback are untouched.
    Clearing the emergency afterwards restores the operational status and
    keeps the alert. *)
Theorem manual_alerts_need_position now h :
  (currentPosition (state h) = None ->
   triggerEmergency now h = h /\ reportBreakdown now h = h) /\
  (forall pos,
      currentPosition (state h) = Some pos ->
      let e := triggerEmergency now h in
      let b := reportBreakdown now h in
      alerts (state e) = emergencyAlert now (device (state h)) pos :: take 49 (alerts (state h)) /\
      alerts (state b) = breakdownAlert now (device (state h)) pos :: take 49 (alerts (state h)) /\
      Device.status (device (state e)) = Some emergency_status /\
      Device.status (device (state b)) = Some breakdown_status /\
      trackHistory (state e) = trackHistory (state h) /\
      currentPosition (state e) = Some pos /\
      playbackIndex (state e) = playbackIndex (state h) /\
      isPlaying (state e) = isPlaying (state h) /\
      Device.status (device (state (clearEmergency e))) = Some operational /\
      alerts (state (clearEmergency e)) = alerts (state e)).
Proof.
  split.
  - intros Hnone. unfold triggerEmergency, reportBreakdown, onState.
    rewrite Hnone. destruct h as [st ips]. auto.
  - intros pos Hpos e b. subst e b.
    unfold triggerEmergency, reportBreakdown, clearEmergency, onState. simpl.
    rewrite Hpos. simpl. repeat split; auto.
Qed.

Lemma dismissIn_idempotent alertId l :
  dismissIn alertId (dismissIn alertId l) = dismissIn alertId l.
Proof.
  unfold dismissIn. rewrite map_map. apply map_ext. intros a.
  destruct (bool_decide (Alert.id a = alertId)) eqn:E; simpl; rewrite E; reflexivity.
Qed.

Lemma dismissIn_unknown alertId l :
  Forall (fun a => Alert.id a <> alertId) l -> dismissIn alertId l = l.
Proof.
  induction 1 as [|a l Hne Hall IH]; [reflexivity|].
  simpl. rewrite bool_decide_false by assumption. f_equal. exact IH.
Qed.

Lemma dismissIn_ids alertId l :
  map Alert.id (dismissIn alertId l) = map Alert.id l.
Proof.
  unfold dismissIn. rewrite map_map. apply map_ext. intros a.
  destruct (bool_decide (Alert.id a = alertId)); reflexivity.
Qed.

Lemma dismissIn_unread alertId l :
  unreadAlerts (dismissIn alertId l) =
  List.filter (fun a => negb (bool_decide (Alert.id a = alertId))) (unreadAlerts l).
Proof.
  unfold unreadAlerts, dismissIn.
  induction l as [|a l IH]; [reflexivity|]. simpl.
  destruct (bool_decide (Alert.id a = alertId)) eqn:E; simpl.
  - destruct (Alert.isRead a); simpl; rewrite ?E; simpl; exact IH.
  - destruct (Alert.isRead a); simpl; rewrite ?E; simpl; [exact IH|].
    f_equal. exact IH.
Qed.

(** X8.  Dismissing an alert marks the alerts with that id as read and
    nothing else: the list keeps its length and the ids in their order, the
    alerts that remain unread are the unread alerts with a different id,
    unchanged and in order.  Dismissing the same id again changes nothing,
    and dismissing an id no alert carries returns the state unchanged. *)
Theorem dismissAlert_marks_read alertId h :
  let h' := dismissAlert alertId h in
  map Alert.id (alerts (state h')) = map Alert.id (alerts (state h)) /\
  unreadAlerts (alerts (state h')) =
    List.filter (fun a => negb (bool_decide (Alert.id a = alertId)))
                (unreadAlerts (alerts (state h))) /\
  dismissAlert alertId h' = h' /\
  (Forall (fun a => Alert.id a <> alertId) (alerts (state h)) -> h' = h).
Proof.
  intros h'. subst h'. unfold dismissAlert, onState, withAlertsAndDevice. simpl.
  split; [apply dismissIn_ids|]. split; [apply dismissIn_unread|]. split.
  - rewrite dismissIn_idempotent. reflexivity.
  - intros Hunknown. rewrite dismissIn_unknown by assumption. apply hook_eta.
Qed.
End ManualActions.

Lemma manual_alerts_need_position_witness :
  triggerEmergency 9000 initialHook = initialHook /\
  Device.status (device (state (triggerEmergency 9000 hookTwoFixes))) = Some emergency_status /\
  length (alerts (state (triggerEmergency 9000 hookTwoFixes))) = 1.
Proof.
  destruct (manual_alerts_need_position 9000 initialHook) as (Hnone & _).
  destruct (manual_alerts_need_position 9000 hookTwoFixes) as (_ & Hsome).
  split; [apply Hnone; reflexivity|].
  destruct (Hsome _ eq_refl) as (He & _ & Hst & _).
  split; [exact Hst|]. rewrite He. reflexivity.
Defined.

Lemma dismissAlert_marks_read_witness :
  dismissAlert "no-such-alert"
    (runFixes (H := gridNumerics) fixesReading_25_18 initialHook)
  = runFixes (H := gridNumerics) fixesReading_25_18 initialHook /\
  unreadAlerts
    (alerts (state (dismissAlert "alert-2000-signal"
                      (runFixes (H := gridNumerics) fixesReading_25_18 initialHook)))) = [].
Proof.
  split.
  - apply dismissAlert_marks_read. vm_compute. repeat constructor. discriminate.
  - destruct (dismissAlert_marks_read "alert-2000-signal"
                (runFixes (H := gridNumerics) fixesReading_25_18 initialHook))
      as (_ & -> & _).
    reflexivity.
Defined.

Section DepthAndSignal.
Context `{JsNumerics}.

(** X9.  The simulated depth is 0 for an accuracy of 50 m or better, and for
    a worse accuracy it is a whole number of metres between 5 and 220, as
    long as the sine stays within [-1, 1]: half the accuracy capped at 200,
    plus or minus 20, rounded. *)
Theorem calculateDepth_range now accuracy history :
  (-1 <= Math_sin (inject_Z now / 10000) <= 1)%Q ->
  ((accuracy <= 50)%Q -> calculateDepth now accuracy history = 0%Q) /\
  ((50 < accuracy)%Q ->
     exists d : Z, calculateDepth now accuracy history = inject_Z d /\ (5 <= d <= 220)%Z) /\
  (0 <= calculateDepth now accuracy history <= 220)%Q.
Proof.
  intros [Hlo Hhi]. unfold calculateDepth, Math_round.
  generalize dependent (Math_sin (inject_Z now / 10000)). intros s Hlo Hhi.
  destruct (Qlt_bool 50 accuracy) eqn:Hpoor.
  - apply Qlt_bool_iff in Hpoor.
    assert (Hmin : (25 <= Qmin (accuracy / 2) 200 <= 200)%Q).
    { split; [apply Q.min_glb; [apply Qle_shift_div_l|]; lra | apply Q.le_min_r]. }
    generalize dependent (Qmin (accuracy / 2) 200). intros m Hmin.
    pose proof (Qfloor_resp_le 5 (m + s * 20 + (1 # 2)) ltac:(lra)) as H5.
    pose proof (Qfloor_resp_le (m + s * 20 + (1 # 2)) (220 + (1 # 2)) ltac:(lra)) as H220.
    change (Qfloor 5) with 5%Z in H5.
    change (Qfloor (220 + (1 # 2))) with 220%Z in H220.
    split; [intros Hgood; exfalso; lra|]. split.
    + intros _. exists (Qfloor (m + s * 20 + (1 # 2))). split; [reflexivity|lia].
    + split.
      * change 0%Q with (inject_Z 0). rewrite <- Zle_Qle. lia.
      * change 220%Q with (inject_Z 220). rewrite <- Zle_Qle. lia.
  - apply Qlt_bool_false_iff in Hpoor.
    split; [reflexivity|]. split; [intros Hbad; exfalso; lra|lra].
Qed.

(** X10.  The signal strength is a whole number and never improves when the
    fix gets less accurate or the depth grows: it is non-increasing in the
    accuracy radius and in the depth. *)
Theorem calculateSignalStrength_monotone accuracy accuracy' depth depth' :
  (accuracy <= accuracy')%Q -> (depth <= depth')%Q ->
  (calculateSignalStrength accuracy' depth' <= calculateSignalStrength accuracy depth)%Q /\
  exists n : Z, calculateSignalStrength accuracy depth = inject_Z n.
Proof.
  intros Hacc Hdepth. unfold calculateSignalStrength, Math_round. split.
  - apply Q.max_le_compat_l. rewrite <- Zle_Qle. apply Qfloor_resp_le.
    assert (Hbase : (Qmax 0 (100 - accuracy') <= Qmax 0 (100 - accuracy))%Q)
      by (apply Q.max_le_compat_l; lra).
    generalize dependent (Qmax 0 (100 - accuracy')).
    generalize dependent (Qmax 0 (100 - accuracy)). intros b b' Hbase. lra.
  - set (r := Qfloor (Qmax 0 (100 - accuracy) - depth * (3 # 10) + (1 # 2))).
    unfold Qmax, GenericMinMax.gmax.
    destruct (5 ?= inject_Z r)%Q;
      first [exists r; reflexivity | exists 5%Z; reflexivity].
Qed.
End DepthAndSignal.

Lemma calculateDepth_range_witness :
  calculateDepth (H := gridNumerics) 1000 10 [] = 0%Q /\
  (0 <= calculateDepth (H := gridNumerics) 1000 120 [] <= 220)%Q.
Proof.
  destruct (calculateDepth_range (H := gridNumerics) 1000 10 []) as (Hzero & _).
  { split; discriminate. }
  destruct (calculateDepth_range (H := gridNumerics) 1000 120 []) as (_ & _ & Hrange).
  { split; discriminate. }
  split; [apply Hzero; discriminate|exact Hrange].
Defined.

Lemma calculateSignalStrength_monotone_witness :
  (calculateSignalStrength 71 36 <= calculateSignalStrength 65 33)%Q.
Proof.
  apply (calculateSignalStrength_monotone 65 71 33 36); discriminate.
Defined.

Section LiveView.
Context `{JsNumerics}.

Lemma liveViewInvariant_step h a :
  actionSeekInRange h a -> liveViewInvariant h -> liveViewInvariant (applyAction h a).
Proof.
  unfold liveViewInvariant. intros Hseek (Hlo & Hempty & Hlive).
  destruct a; simpl in *.
  - (* position *)
    destruct (isPlaying (state h)) eqn:Hplaying.
    + rewrite handlePosition_guard by assumption. rewrite Hplaying. auto.
    + destruct (handlePosition_live now position h Hplaying) as (Hhist & Hcur & _).
      rewrite handlePosition_playbackIndex, Hhist, Hcur.
      split; [exact Hlo|]. split.
      * intros Hnil. apply (f_equal length) in Hnil.
        rewrite length_app in Hnil. simpl in Hnil. lia.
      * intros _ _. rewrite last_snoc. reflexivity.
  - (* tick *)
    destruct (jsLength (trackHistory (state h)) <=? playbackIndex (state h) + 1)%Z eqn:E;
      simpl.
    + apply Z.leb_le in E. unfold jsLength in *. split; [lia|]. split; [exact Hempty|].
      intros _ Hidx.
      assert (Hnil : trackHistory (state h) = [])
        by (destruct (trackHistory (state h)); [reflexivity|simpl in Hidx; lia]).
      rewrite (Hempty Hnil), Hnil. reflexivity.
    + apply Z.leb_gt in E. split; [lia|]. split.
      * intros Hnil. rewrite Hnil in E. unfold jsLength in E. simpl in E. lia.
      * intros _ Hidx. lia.
  - (* start *)
    split; [lia|]. split; [exact Hempty|]. discriminate.
  - (* stop *)
    unfold lastOfHistory. rewrite at_index_last. split; [lia|]. split.
    + intros ->. reflexivity.
    + auto.
  - (* seek *)
    split; [lia|]. split.
    + intros Hnil. rewrite Hnil in Hseek. unfold jsLength in Hseek. simpl in Hseek. lia.
    + intros _ Hidx. lia.
  - auto.
  - auto.
  - auto.
  - destruct (currentPosition (state h)) eqn:Hcur; simpl; rewrite ?Hcur; auto.
  - destruct (currentPosition (state h)) eqn:Hcur; simpl; rewrite ?Hcur; auto.
  - auto.
Qed.

(** X11.  In every state reached from the initial state by the hook's
    operations, with seeks that address an element of the history, the live
    view (not playing, cursor -1) shows the newest position of the history;
    the cursor is never below -1, and an empty history comes with no
    current position. *)
Theorem live_view_shows_newest h :
  reachableByActions h ->
  (-1 <= playbackIndex (state h))%Z /\
  (trackHistory (state h) = [] -> currentPosition (state h) = None) /\
  (isPlaying (state h) = false -> playbackIndex (state h) = (-1)%Z ->
   currentPosition (state h) = last (trackHistory (state h))).
Proof.
  intros Hreach. change (liveViewInvariant h).
  induction Hreach as [|h a Hreach IH Hseek].
  - unfold liveViewInvariant. simpl. split; [lia|]. auto.
  - apply liveViewInvariant_step; assumption.
Qed.
End LiveView.

Lemma live_view_shows_newest_witness :
  currentPosition (state (stopPlayback hookPlayingAt1))
  = last (trackHistory (state (stopPlayback hookPlayingAt1))).
Proof.
  apply (live_view_shows_newest (H := gridNumerics)); [|reflexivity|reflexivity].
  apply (reachableByActions_step (H := gridNumerics) hookPlayingAt1 ActStopPlayback);
    [|exact I].
  apply (reachableByActions_step (H := gridNumerics) hookPlaying ActTick); [|exact I].
  apply (reachableByActions_step (H := gridNumerics) hookTwoFixes ActStartPlayback);
    [|exact I].
  apply (reachableByActions_step (H := gridNumerics) _
           (ActPosition fixOrigin2.1 fixOrigin2.2)); [|exact I].
  apply (reachableByActions_step (H := gridNumerics) _
           (ActPosition fixOrigin1.1 fixOrigin1.2)); [|exact I].
  constructor.
Defined.

(** A seek into the history stores the index and shows the element. *)
Lemma seek_into_history_shows_element index h :
  (0 <= index < jsLength (trackHistory (state h)))%Z ->
  playbackIndex (state (setPlaybackIndex index h)) = index /\
  currentPosition (state (setPlaybackIndex index h)) = at_index (trackHistory (state h)) index.
Proof.
  intros Hin. unfold setPlaybackIndex, onState. simpl. split; [reflexivity|].
  destruct (at_index_in_range (trackHistory (state h)) index Hin) as [x Hx].
  rewrite Hx. reflexivity.
Qed.

Section ControlsOnHook.

(** X12.  Driven by the state of [useTracking] with a non-empty history and
    a cursor between -1 and the last index, the skip buttons of the playback
    controls always seek to an element of the history: the cursor ends
    between 0 and the last index, it moves by at most ten, and the current
    position is the element under it.  Reset stops playback and then seeks
    to the last index, so it leaves the cursor on [length - 1] (not on the
    live value -1 that [stop()] sets) with the newest position shown. *)
Theorem playback_controls_stay_in_range h :
  let L := jsLength (trackHistory (state h)) in
  ((0 < L)%Z -> (-1 <= playbackIndex (state h) <= L - 1)%Z ->
   let b := PlaybackControls.skipBack h in
   let f := PlaybackControls.skipForward h in
   (0 <= playbackIndex (state b) <= L - 1)%Z /\
   (playbackIndex (state h) - 10 <= playbackIndex (state b))%Z /\
   currentPosition (state b) = at_index (trackHistory (state h)) (playbackIndex (state b)) /\
   is_Some (currentPosition (state b)) /\
   (0 <= playbackIndex (state f) <= L - 1)%Z /\
   (playbackIndex (state f) <= playbackIndex (state h) + 10)%Z /\
   currentPosition (state f) = at_index (trackHistory (state h)) (playbackIndex (state f)) /\
   is_Some (currentPosition (state f))) /\
  (let r := PlaybackControls.reset h in
   isPlaying (state r) = false /\
   playbackIndex (state r) = (L - 1)%Z /\
   currentPosition (state r) = last (trackHistory (state h))).
Proof.
  intros L. split.
  - intros HL Hidx b f. subst b f.
    unfold PlaybackControls.skipBack, PlaybackControls.skipForward,
      PlaybackControls.handleSkipBack, PlaybackControls.handleSkipForward.
    fold L.
    destruct (seek_into_history_shows_element (Z.max 0 (playbackIndex (state h) - 10)) h)
      as (Hb1 & Hb2); [fold L; lia|].
    destruct (seek_into_history_shows_element
                (Z.min (L - 1) (playbackIndex (state h) + 10)) h)
      as (Hf1 & Hf2); [fold L; lia|].
    rewrite Hb1, Hf1. repeat split; try lia; try assumption.
    + destruct (at_index_in_range (trackHistory (state h))
                  (Z.max 0 (playbackIndex (state h) - 10))) as [x Hx]; [fold L; lia|].
      rewrite Hb2, Hx. eauto.
    + destruct (at_index_in_range (trackHistory (state h))
                  (Z.min (L - 1) (playbackIndex (state h) + 10))) as [x Hx]; [fold L; lia|].
      rewrite Hf2, Hx. eauto.
  - intros r. subst r. unfold PlaybackControls.reset, PlaybackControls.handleReset.
    unfold setPlaybackIndex, stopPlayback, onState, lastOfHistory. simpl.
    rewrite at_index_last. fold L. repeat split.
    destruct (last (trackHistory (state h))); reflexivity.
Qed.
End ControlsOnHook.

Lemma playback_controls_stay_in_range_witness :
  playbackIndex (state (PlaybackControls.skipForward hookPlaying)) = 1%Z /\
  playbackIndex (state (PlaybackControls.skipBack hookPlayingAt1)) = 0%Z /\
  playbackIndex (state (PlaybackControls.reset hookPlaying)) = 1%Z.
Proof.
  destruct (playback_controls_stay_in_range hookPlaying) as (Hskip & Hreset).
  destruct (playback_controls_stay_in_range hookPlayingAt1) as (Hskip' & _).
  destruct Hskip as (_ & _ & _ & _ & Hf & _); [reflexivity|vm_compute; split; discriminate|].
  destruct Hskip' as (Hb & _); [reflexivity|vm_compute; split; discriminate|].
  destruct Hreset as (_ & Hr & _).
  split; [reflexivity|]. split; [reflexivity|]. exact Hr.
Defined.

(** ** Playback of the index page *)

Section IndexPlayback.
Import IndexPage.

Lemma Qfloor_between (x : Q) (z : Z) :
  (inject_Z z <= x)%Q -> (x < inject_Z z + 1)%Q -> Qfloor x = z.
Proof.
  intros Hlo Hhi.
  pose proof (Qfloor_resp_le _ _ Hlo) as H1. rewrite Qfloor_Z in H1.
  pose proof (Qfloor_le x) as H2.
  assert (H3 : (inject_Z (Qfloor x) < inject_Z (z + 1))%Q)
    by (rewrite inject_Z_plus; change (inject_Z 1) with 1%Q; lra).
  rewrite <- Zlt_Qlt in H3. lia.
Qed.

(** One step of a running playback at speed 1 or more: it ends at the last
    index, or it moves the cursor on by at least one and keeps it within
    the history. *)
Lemma playbackStep_progress len s :
  (0 < len)%Z -> (1 <= playbackSpeed s)%Q -> isPlaying s = true ->
  let s' := playbackStep len s in
  playbackSpeed s' = playbackSpeed s /\
  ((isPlaying s' = false /\ playbackIndex s' = (len - 1)%Z) \/
   (isPlaying s' = true /\ (playbackIndex s + 1 <= playbackIndex s')%Z /\
    (0 <= playbackIndex s' <= len - 1)%Z)).
Proof.
  intros Hlen Hspeed Hplaying s'. subst s'. unfold playbackStep.
  rewrite Hplaying. replace (len =? 0)%Z with false by (symmetry; apply Z.eqb_neq; lia).
  simpl. destruct (playbackIndex s <? 0)%Z eqn:Hneg.
  - apply Z.ltb_lt in Hneg. simpl. split; [reflexivity|]. right. repeat split; lia.
  - apply Z.ltb_ge in Hneg. unfold intervalTick.
    destruct (Qle_bool (inject_Z len) (inject_Z (playbackIndex s) + playbackSpeed s))
      eqn:Hend; cbn [isPlaying playbackIndex playbackSpeed].
    + split; [reflexivity|]. left. auto.
    + split; [reflexivity|]. right. split; [exact Hplaying|].
      assert (Hlt : (inject_Z (playbackIndex s) + playbackSpeed s < inject_Z len)%Q).
      { apply Qlt_bool_iff. unfold Qlt_bool. rewrite Hend. reflexivity. }
      pose proof (Qfloor_resp_le (inject_Z (playbackIndex s + 1))
                    (inject_Z (playbackIndex s) + playbackSpeed s)) as Hup.
      rewrite Qfloor_Z in Hup.
      assert (Hstep : (playbackIndex s + 1
                       <= Qfloor (inject_Z (playbackIndex s) + playbackSpeed s))%Z)
        by (apply Hup; rewrite inject_Z_plus; change (inject_Z 1) with 1%Q; lra).
      pose proof (Qfloor_le (inject_Z (playbackIndex s) + playbackSpeed s)) as Hfl.
      assert (Hhi : (inject_Z (Qfloor (inject_Z (playbackIndex s) + playbackSpeed s))
                     < inject_Z len)%Q) by lra.
      rewrite <- Zlt_Qlt in Hhi. lia.
Qed.

Lemma playbackStep_stopped len s : isPlaying s = false -> playbackStep len s = s.
Proof. intros Hs. unfold playbackStep. rewrite Hs. reflexivity. Qed.

Lemma playbackSteps_stopped n len s :
  isPlaying s = false -> Nat.iter n (playbackStep len) s = s.
Proof.
  intros Hs. induction n as [|n IH]; [reflexivity|].
  simpl. rewrite IH. apply playbackStep_stopped, Hs.
Qed.

Lemma playbackSteps_progress k len s :
  (0 < len)%Z -> (1 <= playbackSpeed s)%Q -> isPlaying s = true ->
  (playbackIndex s <= len - 1)%Z ->
  let s' := Nat.iter k (playbackStep len) s in
  playbackSpeed s' = playbackSpeed s /\
  ((isPlaying s' = false /\ playbackIndex s' = (len - 1)%Z) \/
   (isPlaying s' = true /\ (playbackIndex s + Z.of_nat k <= playbackIndex s')%Z /\
    (playbackIndex s' <= len - 1)%Z)).
Proof.
  intros Hlen Hspeed Hplaying Hhi. induction k as [|k IH].
  - simpl. split; [reflexivity|]. right. repeat split; [assumption|lia|lia].
  - simpl in *. destruct IH as (Hsp & [[Hstop Hidx]|(Hrun & Hlo & Hup)]).
    + rewrite playbackStep_stopped by assumption. split; [exact Hsp|]. left. auto.
    + destruct (playbackStep_progress len (Nat.iter k (playbackStep len) s))
        as (Hsp' & [[Hstop Hidx]|(Hrun' & Hlo' & Hup')]); try assumption.
      { rewrite Hsp. exact Hspeed. }
      * split; [rewrite Hsp'; exact Hsp|]. left. auto.
      * split; [rewrite Hsp'; exact Hsp|]. right. repeat split; [assumption|lia|lia].
Qed.

(** X13.  On the index page, playback at speed 1 or more over a non-empty
    history always ends: from a playing state whose cursor is between -1
    and the last index, after at least [length - cursor] firings of the
    playback effect the playing flag is cleared and the cursor is on the
    last index, and further firings change nothing. *)
Theorem index_playback_ends n len s :
  (0 < len)%Z -> (1 <= playbackSpeed s)%Q -> isPlaying s = true ->
  (-1 <= playbackIndex s <= len - 1)%Z ->
  (len - playbackIndex s <= Z.of_nat n)%Z ->
  isPlaying (Nat.iter n (playbackStep len) s) = false /\
  playbackIndex (Nat.iter n (playbackStep len) s) = (len - 1)%Z /\
  playbackStep len (Nat.iter n (playbackStep len) s) = Nat.iter n (playbackStep len) s.
Proof.
  intros Hlen Hspeed Hplaying [Hlo Hhi] Hn.
  destruct (playbackSteps_progress n len s Hlen Hspeed Hplaying Hhi)
    as (_ & [[Hstop Hidx]|(_ & Hge & Hle)]).
  - split; [exact Hstop|]. split; [exact Hidx|]. apply playbackStep_stopped, Hstop.
  - lia.
Qed.

(** X14.  On the index page, playback at a speed below 1 (the 0.5x button)
    never moves: with the cursor on an element of the history, a firing of
    the playback effect computes [Math.floor(cursor + speed)], which is the
    cursor itself, so any number of firings leaves the state as it is, still
    playing. *)
Theorem index_playback_stuck_below_speed_1 n len s :
  isPlaying s = true ->
  (0 <= playbackIndex s < len)%Z ->
  (0 <= playbackSpeed s < 1)%Q ->
  Nat.iter n (playbackStep len) s = s.
Proof.
  intros Hplaying [Hlo Hhi] [Hs0 Hs1].
  assert (Hstep : playbackStep len s = s).
  { unfold playbackStep. rewrite Hplaying.
    replace (len =? 0)%Z with false by (symmetry; apply Z.eqb_neq; lia).
    replace (playbackIndex s <? 0)%Z with false by (symmetry; apply Z.ltb_ge; lia).
    simpl. unfold intervalTick.
    assert (Hlen : (inject_Z (playbackIndex s) + 1 <= inject_Z len)%Q).
    { change 1%Q with (inject_Z 1). rewrite <- inject_Z_plus, <- Zle_Qle. lia. }
    replace (Qle_bool (inject_Z len) (inject_Z (playbackIndex s) + playbackSpeed s))
      with false.
    2:{ symmetry. apply negb_true_iff. change (Qlt_bool
          (inject_Z (playbackIndex s) + playbackSpeed s) (inject_Z len) = true).
        apply Qlt_bool_iff. lra. }
    rewrite (Qfloor_between _ (playbackIndex s)) by lra.
    destruct s. simpl in *. rewrite Hplaying. reflexivity. }
  induction n as [|n IH]; [reflexivity|]. simpl. rewrite IH. exact Hstep.
Qed.

(** X15.  Every handler of the index page keeps the cursor between -1 and
    the last index of the history, as long as the history does not shrink
    and no negative speed is set; so whenever the cursor is not -1 the 3D
    view's active position is the history element under the cursor. *)
Theorem index_cursor_stays_in_history len len' s a trackHistory currentPosition :
  (0 <= len <= len')%Z ->
  jsLength trackHistory = len' ->
  speedNonNegative a ->
  (0 <= playbackSpeed s)%Q ->
  (-1 <= playbackIndex s <= len - 1)%Z ->
  let s' := handle len' s a in
  (-1 <= playbackIndex s' <= len' - 1)%Z /\
  (0 <= playbackSpeed s')%Q /\
  (playbackIndex s' <> (-1)%Z ->
   activePosition (playbackIndex s') trackHistory currentPosition
     = at_index trackHistory (playbackIndex s') /\
   is_Some (activePosition (playbackIndex s') trackHistory currentPosition)).
Proof.
  intros Hlens Hhist Hspeed Hs Hidx s'.
  assert (Hrange : (-1 <= playbackIndex s' <= len' - 1)%Z /\ (0 <= playbackSpeed s')%Q).
  { subst s'. destruct a; simpl in *.
    - destruct (negb (isPlaying s) && (playbackIndex s <? 0)%Z && (0 <? len')%Z) eqn:E.
      + apply andb_true_iff in E as [_ E]. apply Z.ltb_lt in E. split; [lia|assumption].
      + split; [lia|assumption].
    - split; [lia|assumption].
    - unfold handleSkipBack. destruct (len' =? 0)%Z eqn:E; simpl.
      + split; [lia|assumption].
      + apply Z.eqb_neq in E. split; [lia|assumption].
    - unfold handleSkipForward. destruct (len' =? 0)%Z eqn:E; simpl.
      + split; [lia|assumption].
      + apply Z.eqb_neq in E. split; [lia|assumption].
    - split; [lia|assumption].
    - unfold playbackStep.
      destruct (negb (isPlaying s) || (len' =? 0)%Z) eqn:E; [split; [lia|assumption]|].
      apply orb_false_iff in E as [_ E]. apply Z.eqb_neq in E.
      destruct (playbackIndex s <? 0)%Z eqn:Hneg; simpl; [split; [lia|assumption]|].
      apply Z.ltb_ge in Hneg. unfold intervalTick.
      destruct (Qle_bool (inject_Z len') (inject_Z (playbackIndex s) + playbackSpeed s))
        eqn:Hend; cbn [isPlaying playbackIndex playbackSpeed]; [split; [lia|assumption]|].
      split; [|assumption].
      assert (Hlt : (inject_Z (playbackIndex s) + playbackSpeed s < inject_Z len')%Q).
      { apply Qlt_bool_iff. unfold Qlt_bool. rewrite Hend. reflexivity. }
      pose proof (Qfloor_resp_le (inject_Z (playbackIndex s))
                    (inject_Z (playbackIndex s) + playbackSpeed s) ltac:(lra)) as Hup.
      rewrite Qfloor_Z in Hup.
      pose proof (Qfloor_le (inject_Z (playbackIndex s) + playbackSpeed s)) as Hfl.
      assert (Hhi : (inject_Z (Qfloor (inject_Z (playbackIndex s) + playbackSpeed s))
                     < inject_Z len')%Q) by lra.
      rewrite <- Zlt_Qlt in Hhi. lia. }
  destruct Hrange as [Hr Hsp]. split; [exact Hr|]. split; [exact Hsp|].
  intros Hne. unfold activePosition. rewrite Hhist.
  replace (0 <=? playbackIndex s')%Z with true by (symmetry; apply Z.leb_le; lia).
  replace (playbackIndex s' <? len')%Z with true by (symmetry; apply Z.ltb_lt; lia).
  simpl. split; [reflexivity|].
  destruct (at_index_in_range trackHistory (playbackIndex s')) as [x ->]; [|eauto].
  rewrite Hhist. lia.
Qed.
End IndexPlayback.

(** ** Further properties of the change feed *)

Section FeedViews.
Import Supabase.

Lemma last_slice_last {A} (n : nat) (l : list A) :
  0 < n -> last (slice_last n l) = last l.
Proof.
  intros Hn. unfold slice_last.
  rewrite <- (take_drop (length l - n) l) at 3. rewrite last_app.
  destruct (last (drop (length l - n) l)) eqn:Hlast; [reflexivity|].
  apply last_None in Hlast. apply (f_equal length) in Hlast.
  rewrite length_drop in Hlast. simpl in Hlast.
  assert (Hnil : l = []) by (destruct l; [reflexivity|simpl in Hlast; lia]).
  rewrite Hnil. reflexivity.
Qed.

Lemma onPositionInsert_position sel st r d :
  allDevicePositions (onPositionInsert sel st r) !! d =
    if decide (device_id r = d) then Some (toGPSPosition r)
    else allDevicePositions st !! d.
Proof.
  unfold onPositionInsert.
  destruct (forSelectedDevice sel (device_id r)); simpl; apply lookup_insert.
Qed.

Lemma onPositionInsert_history_lookup sel st r d :
  allDeviceTrackHistory (onPositionInsert sel st r) !! d =
    if decide (device_id r = d)
    then Some (slice_last 199 (default [] (allDeviceTrackHistory st !! d))
               ++ [toGPSPosition r])
    else allDeviceTrackHistory st !! d.
Proof.
  unfold onPositionInsert.
  destruct (forSelectedDevice sel (device_id r)); simpl;
    rewrite lookup_insert; destruct (decide (device_id r = d)) as [->|]; reflexivity.
Qed.

(** The latest position of a device is the newest element of its history,
    and a device has a history exactly when it has a latest position. *)
Lemma feed_maps_agree sel rows st d :
  (allDevicePositions st !! d = last (default [] (allDeviceTrackHistory st !! d)) /\
   (allDeviceTrackHistory st !! d = None <-> allDevicePositions st !! d = None)) ->
  allDevicePositions (feed sel rows st) !! d =
    last (default [] (allDeviceTrackHistory (feed sel rows st) !! d)) /\
  (allDeviceTrackHistory (feed sel rows st) !! d = None <->
   allDevicePositions (feed sel rows st) !! d = None).
Proof.
  revert st. induction rows as [|r rows IH]; intros st Hst; [exact Hst|].
  change (feed sel (r :: rows) st) with (feed sel rows (onPositionInsert sel st r)).
  apply IH. rewrite onPositionInsert_position, onPositionInsert_history_lookup.
  destruct (decide (device_id r = d)); [|exact Hst].
  simpl. rewrite last_snoc. split; [reflexivity|]. split; discriminate.
Qed.

Lemma feed_untouched sel rows st d :
  rowsOf d rows = [] ->
  allDeviceTrackHistory (feed sel rows st) !! d = allDeviceTrackHistory st !! d.
Proof.
  revert st. induction rows as [|r rows IH]; intros st Hnone; [reflexivity|].
  change (feed sel (r :: rows) st) with (feed sel rows (onPositionInsert sel st r)).
  unfold rowsOf in Hnone. rewrite filter_cons in Hnone.
  destruct (decide (device_id r = d)) as [Heq|Hne]; [discriminate|].
  rewrite IH by exact Hnone. rewrite onPositionInsert_history_lookup.
  rewrite decide_False by exact Hne. reflexivity.
Qed.

(** X16.  In the change feed, the two per-device tables agree: after any
    sequence of inserted rows the latest position recorded for a device is
    the newest element of that device's history, which is the position of
    its last row; a device without rows has neither a history nor a latest
    position, whatever arrives for other devices. *)
Theorem feed_latest_position_is_newest sel rows d :
  let st := feed sel rows initial in
  allDevicePositions st !! d = last (default [] (allDeviceTrackHistory st !! d)) /\
  allDevicePositions st !! d = toGPSPosition <$> last (rowsOf d rows) /\
  (rowsOf d rows = [] ->
   allDeviceTrackHistory st !! d = None /\ allDevicePositions st !! d = None).
Proof.
  intros st. subst st.
  destruct (feed_maps_agree sel rows initial d) as [Hagree Hnone].
  { simpl. rewrite !lookup_empty. simpl. split; [reflexivity|tauto]. }
  split; [exact Hagree|]. split.
  - rewrite Hagree, feed_device_history.
    + simpl. rewrite lookup_empty. simpl.
      rewrite last_slice_last by lia. apply fmap_last.
    + simpl. rewrite lookup_empty. simpl. lia.
  - intros Hrows.
    assert (Hh : allDeviceTrackHistory (feed sel rows initial) !! d = None).
    { rewrite feed_untouched by exact Hrows. apply lookup_empty. }
    split; [exact Hh|]. apply Hnone, Hh.
Qed.

Lemma feed_current_is_last sel rows st :
  Supabase.currentPosition st = last (Supabase.trackHistory st) ->
  Supabase.currentPosition (feed sel rows st) = last (Supabase.trackHistory (feed sel rows st)).
Proof.
  revert st. induction rows as [|r rows IH]; intros st Hst; [exact Hst|].
  change (feed sel (r :: rows) st) with (feed sel rows (onPositionInsert sel st r)).
  apply IH. unfold onPositionInsert.
  destruct (forSelectedDevice sel (device_id r)); simpl; [|exact Hst].
  rewrite last_snoc. reflexivity.
Qed.

(** The current position after a sequence of inserted rows: the position
    of the last row taken, the earlier one when no row is taken. *)
Lemma feed_currentPosition sel (rows : list TrackingPosition) st :
  Supabase.currentPosition (feed sel rows st) =
    match last (filter (fun r => forSelectedDevice sel (device_id r)) rows) with
    | Some r => Some (toGPSPosition r)
    | None => Supabase.currentPosition st
    end.
Proof.
  revert st. induction rows as [|r rows IH]; intros st; [reflexivity|].
  change (feed sel (r :: rows) st) with (feed sel rows (onPositionInsert sel st r)).
  rewrite IH, filter_cons. unfold onPositionInsert.
  destruct (forSelectedDevice sel (device_id r)) eqn:Hsel.
  - rewrite decide_True by exact I. cbn [Supabase.currentPosition].
    destruct (filter _ rows) as [|r' l]; [reflexivity|].
    change (last (r :: r' :: l)) with (last (r' :: l)).
    destruct (last (r' :: l)) eqn:Hlast; [reflexivity|].
    apply last_None in Hlast. discriminate.
  - rewrite decide_False by (simpl; tauto). reflexivity.
Qed.

Lemma taken_for_selected s (rows : list TrackingPosition) :
  s <> "" ->
  filter (fun r => forSelectedDevice (Some s) (device_id r)) rows = rowsOf s rows.
Proof.
  intros Hs. unfold rowsOf. apply list_filter_iff. intros r. unfold forSelectedDevice.
  rewrite bool_decide_false by exact Hs. simpl.
  split; [apply bool_decide_unpack|apply bool_decide_pack].
Qed.

Lemma taken_without_selection (rows : list TrackingPosition) :
  filter (fun r => forSelectedDevice None (device_id r)) rows = rows.
Proof.
  induction rows as [|r rows IH]; [reflexivity|].
  rewrite filter_cons_True by exact I. f_equal. exact IH.
Qed.

Lemma slice_last_app_slice_r {A} (n : nat) (arr more : list A) :
  slice_last n (arr ++ slice_last n more) = slice_last n (arr ++ more).
Proof.
  unfold slice_last at 2.
  destruct (decide (length more <= n)) as [Hle|Hgt].
  - replace (length more - n) with 0 by lia. reflexivity.
  - unfold slice_last. rewrite !length_app, length_drop.
    replace (length arr + (length more - (length more - n)) - n) with (length arr) by lia.
    replace (length arr + length more - n)
      with (length arr + (length more - n)) by lia.
    rewrite !drop_app_ge by lia.
    replace (length arr - length arr) with 0 by lia.
    replace (length arr + (length more - n) - length arr) with (length more - n) by lia.
    reflexivity.
Qed.

(** X17.  With a device selected, once the initial fetch has returned its
    rows (at most 200, newest first), the history the hook exposes is the
    last 200 of the fetched positions, oldest first, followed by the
    positions of the rows inserted for that device since; rows of other
    devices never enter it.  Its current position is the last of these
    positions, and stays what it was when there is none.  The fetch does
    not fill the per-device tables: for a device without a table entry
    before, the exposed history is the last 200 of the fetched positions
    followed by the device's table entry.  With no device selected every
    inserted row is taken. *)
Theorem feed_selected_device_view rows st :
  (forall s positionsData,
      s <> "" -> length positionsData <= 200 ->
      let st0 := InitialFetch.onPositionsFetched positionsData st in
      let st' := feed (Some s) rows st0 in
      let fetched := toGPSPosition <$> rev positionsData in
      let fed := toGPSPosition <$> rowsOf s rows in
      Supabase.trackHistory st' = slice_last 200 (fetched ++ fed) /\
      (fetched ++ fed <> [] -> Supabase.currentPosition st' = last (fetched ++ fed)) /\
      (fetched ++ fed = [] -> Supabase.currentPosition st' = Supabase.currentPosition st) /\
      (allDeviceTrackHistory st !! s = None ->
       Supabase.trackHistory st'
       = slice_last 200 (fetched ++ default [] (allDeviceTrackHistory st' !! s)))) /\
  (length (Supabase.trackHistory st) <= 200 ->
   let st' := feed None rows st in
   Supabase.trackHistory st'
   = slice_last 200 (Supabase.trackHistory st ++ (toGPSPosition <$> rows)) /\
   (rows <> [] -> Supabase.currentPosition st' = toGPSPosition <$> last rows)).
Proof.
  split.
  - intros s positionsData Hs Hlen st0 st' fetched fed.
    assert (Hhist : Supabase.trackHistory st' = slice_last 200 (fetched ++ fed)).
    { subst st' st0 fetched fed. rewrite feed_trackHistory.
      - rewrite taken_for_selected by exact Hs. reflexivity.
      - cbn [InitialFetch.onPositionsFetched Supabase.trackHistory].
        rewrite length_fmap, length_rev. exact Hlen. }
    assert (Hcur : Supabase.currentPosition st' =
                   match last (rowsOf s rows) with
                   | Some r => Some (toGPSPosition r)
                   | None => Supabase.currentPosition st0
                   end).
    { subst st'. rewrite feed_currentPosition, taken_for_selected by exact Hs.
      reflexivity. }
    assert (Hcur0 : Supabase.currentPosition st0 =
                    match last fetched with
                    | Some p => Some p
                    | None => Supabase.currentPosition st
                    end).
    { subst st0. cbn [InitialFetch.onPositionsFetched Supabase.currentPosition].
      fold fetched. rewrite at_index_last.
      destruct fetched as [|p l]; [reflexivity|].
      replace (0 <? jsLength (p :: l))%Z with true
        by (symmetry; apply Z.ltb_lt; unfold jsLength; cbn [length]; lia).
      destruct (last (p :: l)) eqn:Hlast; [reflexivity|].
      apply last_None in Hlast. discriminate. }
    assert (Hlast : last (fetched ++ fed) =
                    match last (rowsOf s rows) with
                    | Some r => Some (toGPSPosition r)
                    | None => last fetched
                    end).
    { subst fed. rewrite last_app, fmap_last.
      destruct (last (rowsOf s rows)); reflexivity. }
    split; [exact Hhist|].
    assert (Hcurrent :
      (fetched ++ fed <> [] -> Supabase.currentPosition st' = last (fetched ++ fed)) /\
      (fetched ++ fed = [] -> Supabase.currentPosition st' = Supabase.currentPosition st)).
    { rewrite Hcur, Hlast, Hcur0. subst fed.
      destruct (last (rowsOf s rows)) as [r|] eqn:Hr.
      - split; [reflexivity|]. intros Hnil. apply app_eq_nil in Hnil as [_ Hd].
        apply fmap_nil_inv in Hd. rewrite Hd in Hr. discriminate.
      - apply last_None in Hr. rewrite Hr. rewrite fmap_nil, app_nil_r.
        destruct (last fetched) eqn:Hf.
        + split; [reflexivity|]. intros Hnil. rewrite Hnil in Hf. discriminate.
        + apply last_None in Hf. split; [contradiction|reflexivity]. }
    destruct Hcurrent as [Hsome Hnil].
    split; [exact Hsome|]. split; [exact Hnil|].
    intros Hnone. rewrite Hhist. subst st' st0.
    rewrite feed_device_history.
    + cbn [InitialFetch.onPositionsFetched Supabase.allDeviceTrackHistory].
      rewrite Hnone. cbn [default app]. rewrite slice_last_app_slice_r. reflexivity.
    + cbn [InitialFetch.onPositionsFetched Supabase.allDeviceTrackHistory].
      rewrite Hnone. simpl. lia.
  - intros Hlen st'. subst st'. split.
    + rewrite feed_trackHistory by exact Hlen.
      rewrite taken_without_selection. reflexivity.
    + intros Hne. rewrite feed_currentPosition, taken_without_selection.
      destruct (last rows) eqn:Hlast; [reflexivity|].
      apply last_None in Hlast. contradiction.
Qed.
End FeedViews.

Lemma feed_selected_device_view_witness :
  Supabase.trackHistory
    (Supabase.feed (Some "drill-a") rows410
       (InitialFetch.onPositionsFetched fetchedRows Supabase.initial))
  = slice_last 200
      ((Supabase.toGPSPosition <$> rev fetchedRows)
       ++ (Supabase.toGPSPosition <$> Supabase.rowsOf "drill-a" rows410)).
Proof.
  destruct (feed_selected_device_view rows410 Supabase.initial) as (Hsel & _).
  pose proof (Hsel "drill-a" fetchedRows) as Hview. cbv zeta in Hview.
  destruct Hview as (Hhist & _).
  - discriminate.
  - vm_compute. lia.
  - exact Hhist.
Defined.

Section AlertFeedBound.
Import AlertFeed.

Lemma feedAlerts_formula rows prev :
  length prev <= 50 ->
  feedAlerts rows prev = take 50 (rev (toAlert <$> rows) ++ prev).
Proof.
  revert prev. induction rows as [|r rows IH]; intros prev Hlen.
  - simpl. rewrite take_ge by assumption. reflexivity.
  - change (feedAlerts (r :: rows) prev) with (feedAlerts rows (onAlertInsert prev r)).
    rewrite IH by (unfold onAlertInsert; rewrite length_take; lia).
    unfold onAlertInsert.
    rewrite (take_app_take 50 (rev (toAlert <$> rows)) (toAlert r :: prev)).
    rewrite fmap_cons. simpl rev. rewrite <- app_assoc. reflexivity.
Qed.

(** X18.  The alert list of the change feed is the newest 50 alerts, newest
    first: after any sequence of inserted alert rows on top of a list of at
    most 50 alerts, it is the first 50 of the rows in reverse arrival order
    followed by the earlier list; with 50 or more rows it holds exactly the
    last 50 rows, the latest in front. *)
Theorem alert_feed_keeps_newest_50 rows prev :
  length prev <= 50 ->
  feedAlerts rows prev = take 50 (rev (toAlert <$> rows) ++ prev) /\
  length (feedAlerts rows prev) <= 50 /\
  (50 <= length rows ->
   feedAlerts rows prev = rev (toAlert <$> drop (length rows - 50) rows) /\
   length (feedAlerts rows prev) = 50).
Proof.
  intros Hlen. rewrite feedAlerts_formula by assumption.
  split; [reflexivity|]. split; [rewrite length_take; lia|].
  intros Hmany.
  assert (Hrev : take 50 (rev (toAlert <$> rows) ++ prev)
                 = rev (toAlert <$> drop (length rows - 50) rows)).
  { rewrite take_app_le by (rewrite length_rev, length_fmap; lia).
    rewrite <- (take_drop (length rows - 50) rows) at 1.
    rewrite fmap_app, rev_app_distr.
    rewrite take_app_length'; [reflexivity|].
    rewrite length_rev, length_fmap, length_drop. lia. }
  split; [exact Hrev|].
  rewrite Hrev, length_rev, length_fmap, length_drop. lia.
Qed.
End AlertFeedBound.

(** ** The motion simulator *)

Section SimulatorStep.
Context `{SimNumerics}.
Import Simulator.

Lemma moveDistance_pos : (0 < moveDistance)%Q.
Proof. reflexivity. Qed.

Lemma at_index_rem_next {A} (path : list A) (i : Z) :
  (0 <= i < jsLength path)%Z ->
  (0 <= Z.rem (i + 1) (jsLength path) < jsLength path)%Z.
Proof.
  intros Hi. rewrite Z.rem_mod_nonneg by lia. apply Z.mod_pos_bound. lia.
Qed.

(** The two shapes of a step of a valid tracker. *)
Lemma simulateDevice_cases now random1 random2 deviceId path st :
  (forall v, 0 <= Math_sqrt v)%Q ->
  validTracker path st ->
  exists currentPoint nextPoint,
    at_index path (Supabase.pathIndex st) = Some currentPoint /\
    at_index path (Z.rem (Supabase.pathIndex st + 1) (jsLength path)) = Some nextPoint /\
    ((simulateDevice now random1 random2 deviceId path st =
        ({| Supabase.pathIndex := Z.rem (Supabase.pathIndex st + 1) (jsLength path);
            Supabase.progress := 0 |},
         Some (positionData now random1 random2 deviceId
                 (lat nextPoint) (lng nextPoint) (depth nextPoint)
                 (normalizedHeading currentPoint nextPoint)))) \/
     (exists progress,
        (Supabase.progress st <= progress < 1)%Q /\
        simulateDevice now random1 random2 deviceId path st =
          ({| Supabase.pathIndex := Supabase.pathIndex st; Supabase.progress := progress |},
           Some (positionData now random1 random2 deviceId
                   (lat currentPoint + (lat nextPoint - lat currentPoint) * progress)
                   (lng currentPoint + (lng nextPoint - lng currentPoint) * progress)
                   (depth currentPoint + (depth nextPoint - depth currentPoint) * progress)
                   (normalizedHeading currentPoint nextPoint))))).
Proof.
  intros Hsqrt [Hidx Hprog].
  destruct (at_index_in_range path _ Hidx) as [c Hc].
  destruct (at_index_in_range path _ (at_index_rem_next path _ Hidx)) as [nx Hn].
  exists c, nx. split; [exact Hc|]. split; [exact Hn|].
  unfold simulateDevice.
  destruct path as [|w path]; [unfold jsLength in Hidx; simpl in Hidx; lia|].
  rewrite Hc, Hn.
  destruct (Qeq_bool (segmentLength c nx) 0) eqn:Hzero; simpl orb.
  - left. cbn [Supabase.pathIndex]. rewrite Hn. reflexivity.
  - destruct (Qle_bool 1 (Supabase.progress st + moveDistance / segmentLength c nx))
      eqn:Hreached.
    + left. cbn [Supabase.pathIndex]. rewrite Hn. reflexivity.
    + right. exists (Supabase.progress st + moveDistance / segmentLength c nx)%Q.
      split; [|reflexivity]. split.
      * assert (Hpos : (0 < segmentLength c nx)%Q).
        { apply Qeq_bool_neq in Hzero.
          assert (Hge : (0 <= segmentLength c nx)%Q)
            by (unfold segmentLength; apply Hsqrt).
          apply Qle_lteq in Hge as [Hlt|Heq]; [exact Hlt|].
          exfalso. apply Hzero. symmetry. exact Heq. }
        assert (Hmove : (0 <= moveDistance / segmentLength c nx)%Q).
        { apply Qle_shift_div_l; [exact Hpos|]. rewrite Qmult_0_l. discriminate. }
        lra.
      * apply Qlt_bool_iff. unfold Qlt_bool. rewrite Hreached. reflexivity.
Qed.

(** X19.  A simulator step keeps a tracker valid: from a tracker that
    addresses a waypoint of the path with a progress in [0, 1), the step
    always inserts a row and leaves a tracker of the same kind, either on
    the same waypoint with a progress that did not decrease, or on the next
    waypoint of the cycle with progress 0.  A tracker that addresses no
    waypoint (or an empty path) is passed over: nothing changes and nothing
    is inserted. *)
Theorem simulator_step_keeps_tracker_valid now random1 random2 deviceId path st :
  (forall v, 0 <= Math_sqrt v)%Q ->
  let r := simulateDevice now random1 random2 deviceId path st in
  (validTracker path st ->
   validTracker path r.1 /\ is_Some r.2 /\
   ((Supabase.pathIndex r.1 = Supabase.pathIndex st /\
     (Supabase.progress st <= Supabase.progress r.1)%Q) \/
    (Supabase.pathIndex r.1 = ((Supabase.pathIndex st + 1) mod jsLength path)%Z /\
     Supabase.progress r.1 = 0%Q))) /\
  (~ (0 <= Supabase.pathIndex st < jsLength path)%Z -> r = (st, None)).
Proof.
  intros Hsqrt r. subst r. split.
  - intros Hvalid.
    destruct (simulateDevice_cases now random1 random2 deviceId path st Hsqrt Hvalid)
      as (c & nx & Hc & Hn & [Hstep|(progress & Hprog & Hstep)]); rewrite Hstep;
      unfold validTracker; cbn [fst snd Supabase.pathIndex Supabase.progress].
    + destruct Hvalid as [Hidx _].
      pose proof (at_index_rem_next path _ Hidx) as Hnext.
      split; [split; [exact Hnext|lra]|].
      split; [eauto|]. right. split; [|reflexivity].
      apply Z.rem_mod_nonneg; lia.
    + destruct Hvalid as [Hidx Hp].
      split; [split; [exact Hidx|lra]|]. split; [eauto|]. left. split; [reflexivity|lra].
  - intros Hout. unfold simulateDevice. destruct path as [|w path]; [reflexivity|].
    rewrite (at_index_out_of_range (w :: path) (Supabase.pathIndex st)) by lia.
    reflexivity.
Qed.

Lemma zoneOfDepth_in depth : zoneOfDepth depth ∈ simulatedZones.
Proof.
  unfold zoneOfDepth, simulatedZones.
  destruct (Qlt_bool 200 depth); [set_solver|].
  destruct (Qlt_bool 100 depth); [set_solver|].
  destruct (Qlt_bool 30 depth); [set_solver|].
  destruct (Qlt_bool 0 depth); set_solver.
Qed.

Lemma zoneOfDepth_surface depth :
  zoneOfDepth depth = "Surface" <-> (depth <= 0)%Q.
Proof.
  unfold zoneOfDepth. split.
  - destruct (Qlt_bool 200 depth); [discriminate|].
    destruct (Qlt_bool 100 depth); [discriminate|].
    destruct (Qlt_bool 30 depth); [discriminate|].
    destruct (Qlt_bool 0 depth) eqn:E; [discriminate|].
    intros _. apply Qlt_bool_false_iff, E.
  - intros Hle.
    replace (Qlt_bool 200 depth) with false by (symmetry; apply Qlt_bool_false_iff; lra).
    replace (Qlt_bool 100 depth) with false by (symmetry; apply Qlt_bool_false_iff; lra).
    replace (Qlt_bool 30 depth) with false by (symmetry; apply Qlt_bool_false_iff; lra).
    replace (Qlt_bool 0 depth) with false by (symmetry; apply Qlt_bool_false_iff; lra).
    reflexivity.
Qed.

(** The ranges of a row built at a given depth. *)
Lemma positionData_ranges now random1 random2 deviceId lat lng depth heading :
  (0 <= depth)%Q -> (0 <= random1)%Q -> (0 <= random2 < 1)%Q ->
  let row := positionData now random1 random2 deviceId lat lng depth heading in
  (5 <= signal_strength row <= 100)%Z /\
  (8 <= speed row < 10)%Q /\
  (5 <= accuracy row)%Q /\
  zone row ∈ simulatedZones /\
  (raw_is_underground row = true -> zone row <> "Surface").
Proof.
  intros Hdepth Hr1 Hr2 row. subst row. unfold positionData. simpl.
  split; [|split; [|split; [|split]]].
  - unfold Math_round.
    assert (Hlo : (5 <= Qmax 5 (100 - depth / 3 - random1 * 5))%Q) by apply Q.le_max_l.
    assert (Hhi : (Qmax 5 (100 - depth / 3 - random1 * 5) <= 100)%Q).
    { apply Q.max_lub; [discriminate|].
      assert (Hthird : (0 <= depth / 3)%Q)
        by (apply Qle_shift_div_l; [reflexivity|lra]).
      generalize dependent (depth / 3)%Q. intros third Hthird. lra. }
    generalize dependent (Qmax 5 (100 - depth / 3 - random1 * 5)). intros m Hlo Hhi.
    pose proof (Qfloor_resp_le 5 (m + (1 # 2)) ltac:(lra)) as H5.
    pose proof (Qfloor_resp_le (m + (1 # 2)) (100 + (1 # 2)) ltac:(lra)) as H100.
    change (Qfloor 5) with 5%Z in H5.
    change (Qfloor (100 + (1 # 2))) with 100%Z in H100. lia.
  - unfold simSpeed. lra.
  - lra.
  - apply zoneOfDepth_in.
  - intros Hunder Hsurf. apply Qlt_bool_iff in Hunder.
    apply zoneOfDepth_surface in Hsurf. lra.
Qed.

Lemma normalizedHeading_range c nx :
  (forall dx dz, -180 <= headingDegrees dx dz <= 180)%Q ->
  (0 <= normalizedHeading c nx < 360)%Q.
Proof.
  intros Hraw. unfold normalizedHeading.
  set (raw := headingDegrees _ _).
  assert (Hr : (-180 <= raw <= 180)%Q) by apply Hraw.
  destruct (Qlt_bool raw 0) eqn:Hneg.
  - apply Qlt_bool_iff in Hneg. lra.
  - apply Qlt_bool_false_iff in Hneg. lra.
Qed.

Lemma at_index_Forall {A} (P : A -> Prop) (l : list A) (i : Z) (a : A) :
  Forall P l -> at_index l i = Some a -> P a.
Proof.
  intros Hall Hat. unfold at_index in Hat.
  destruct (i <? 0)%Z; [discriminate|].
  eapply Forall_lookup_1; eassumption.
Qed.

(** The ranges of the row a valid tracker inserts. *)
Lemma simulateDevice_row_ranges now random1 random2 deviceId path st lo hi :
  (forall v, 0 <= Math_sqrt v)%Q ->
  (forall dx dz, -180 <= headingDegrees dx dz <= 180)%Q ->
  validTracker path st ->
  Forall (fun w => (lo <= depth w <= hi)%Q) path ->
  (0 <= lo)%Q -> (0 <= random1)%Q -> (0 <= random2 < 1)%Q ->
  exists row,
    (simulateDevice now random1 random2 deviceId path st).2 = Some row /\
    (lo <= p_depth row <= hi)%Q /\
    (5 <= signal_strength row <= 100)%Z /\
    (8 <= speed row < 10)%Q /\
    (0 <= heading row < 360)%Q /\
    altitude row = (- p_depth row)%Q /\
    (5 <= accuracy row)%Q /\
    zone row ∈ simulatedZones /\
    (raw_is_underground row = true -> zone row <> "Surface").
Proof.
  intros Hsqrt Hraw Hvalid Hall Hlo Hr1 Hr2.
  destruct (simulateDevice_cases now random1 random2 deviceId path st Hsqrt Hvalid)
    as (c & nx & Hc & Hn & [Hstep|(progress & Hprog & Hstep)]); rewrite Hstep; simpl.
  - pose proof (at_index_Forall _ _ _ _ Hall Hn) as Hd. simpl in Hd.
    eexists. split; [reflexivity|].
    destruct (positionData_ranges now random1 random2 deviceId (lat nx) (lng nx)
                (depth nx) (normalizedHeading c nx)) as (Hs & Hsp & Hacc & Hz & Hu);
      [lra|assumption|assumption|].
    split; [exact Hd|]. split; [exact Hs|]. split; [exact Hsp|].
    split; [apply normalizedHeading_range, Hraw|]. split; [reflexivity|]. auto.
  - pose proof (at_index_Forall _ _ _ _ Hall Hn) as Hdn.
    pose proof (at_index_Forall _ _ _ _ Hall Hc) as Hdc. simpl in Hdn, Hdc.
    assert (Hd : (lo <= depth c + (depth nx - depth c) * progress <= hi)%Q).
    { destruct Hprog as [Hp0 Hp1]. destruct Hvalid as [_ [Hs0 _]].
      assert (Hp : (0 <= progress)%Q) by lra.
      assert (H1 : (0 <= (1 - progress) * (depth c - lo))%Q)
        by (apply Qmult_le_0_compat; lra).
      assert (H2 : (0 <= progress * (depth nx - lo))%Q)
        by (apply Qmult_le_0_compat; lra).
      assert (H3 : (0 <= (1 - progress) * (hi - depth c))%Q)
        by (apply Qmult_le_0_compat; lra).
      assert (H4 : (0 <= progress * (hi - depth nx))%Q)
        by (apply Qmult_le_0_compat; lra).
      split; nra. }
    eexists. split; [reflexivity|].
    destruct (positionData_ranges now random1 random2 deviceId
                (lat c + (lat nx - lat c) * progress)
                (lng c + (lng nx - lng c) * progress)
                (depth c + (depth nx - depth c) * progress)
                (normalizedHeading c nx)) as (Hs & Hsp & Hacc & Hz & Hu);
      [lra|assumption|assumption|].
    split; [exact Hd|]. split; [exact Hs|]. split; [exact Hsp|].
    split; [apply normalizedHeading_range, Hraw|]. split; [reflexivity|]. auto.
Qed.
(** X20.  Every row a valid tracker inserts lies on the current segment:
    when the depths of the path's waypoints are within [lo, hi], with
    lo >= 0, so is the depth of the row.  Its signal strength is a whole
    number between 5 and 100, its speed is between 8 and 10 km/h and its
    heading between 0 and 360 degrees (the upper bounds included, as they
    also hold of the rounded sums of floating-point arithmetic), its
    altitude is the negated depth and its accuracy at least 5 m; its zone
    is one of the five depth bands, and a row flagged underground (depth
    above 5 m) is never labelled "Surface". *)
Theorem simulated_row_ranges now random1 random2 deviceId path st lo hi :
  (forall v, 0 <= Math_sqrt v)%Q ->
  (forall dx dz, -180 <= headingDegrees dx dz <= 180)%Q ->
  validTracker path st ->
  Forall (fun w => (lo <= depth w <= hi)%Q) path ->
  (0 <= lo)%Q -> (0 <= random1)%Q -> (0 <= random2 < 1)%Q ->
  exists row,
    (simulateDevice now random1 random2 deviceId path st).2 = Some row /\
    (lo <= p_depth row <= hi)%Q /\
    (5 <= signal_strength row <= 100)%Z /\
    (8 <= speed row <= 10)%Q /\
    (0 <= heading row <= 360)%Q /\
    altitude row = (- p_depth row)%Q /\
    (5 <= accuracy row)%Q /\
    zone row ∈ simulatedZones /\
    (raw_is_underground row = true -> zone row <> "Surface").
Proof.
  intros Hsqrt Hraw Hvalid Hall Hlo Hr1 Hr2.
  destruct (simulateDevice_row_ranges now random1 random2 deviceId path st lo hi
              Hsqrt Hraw Hvalid Hall Hlo Hr1 Hr2)
    as (row & Hrow & Hd & Hs & Hsp & Hh & Halt & Hacc & Hz & Hu).
  exists row. split; [exact Hrow|]. split; [exact Hd|]. split; [exact Hs|].
  split; [split; [apply Hsp|apply Qlt_le_weak, Hsp]|].
  split; [split; [apply Hh|apply Qlt_le_weak, Hh]|].
  split; [exact Halt|]. split; [exact Hacc|]. split; [exact Hz|exact Hu].
Qed.
End SimulatorStep.

Section SimulatorTick.
Context `{SimNumerics}.
Import Simulator.

Lemma simulateOne_facts now acc dp :
  dom (simulateOne now acc dp).1 = dom acc.1 /\
  (forall d, d <> dp_deviceId dp -> (simulateOne now acc dp).1 !! d = acc.1 !! d) /\
  length (simulateOne now acc dp).2 <= S (length acc.2).
Proof.
  unfold simulateOne. destruct (acc.1 !! dp_deviceId dp) as [st|] eqn:Hst.
  - cbn [fst snd]. split; [|split].
    + rewrite dom_insert_L. apply elem_of_dom_2 in Hst.
      apply subseteq_union_1_L, singleton_subseteq_l, Hst.
    + intros d Hne. apply lookup_insert_ne. congruence.
    + destruct (simulateDevice _ _ _ _ _ _).2; [rewrite length_app; simpl|]; lia.
  - split; [reflexivity|]. split; [reflexivity|lia].
Qed.

Lemma simulatePosition_facts now devicePaths acc :
  dom (foldl (simulateOne now) acc devicePaths).1 = dom acc.1 /\
  (forall d, d ∉ (dp_deviceId <$> devicePaths) ->
     (foldl (simulateOne now) acc devicePaths).1 !! d = acc.1 !! d) /\
  length (foldl (simulateOne now) acc devicePaths).2 <= length acc.2 + length devicePaths.
Proof.
  revert acc. induction devicePaths as [|dp dps IH]; intros acc.
  - simpl. split; [reflexivity|]. split; [reflexivity|lia].
  - simpl. destruct (IH (simulateOne now acc dp)) as (Hdom & Hother & Hlen).
    destruct (simulateOne_facts now acc dp) as (Hdom1 & Hother1 & Hlen1).
    split; [rewrite Hdom; exact Hdom1|]. split.
    + intros d Hd. apply not_elem_of_cons in Hd as [Hne Hd].
      rewrite Hother by exact Hd. apply Hother1. exact Hne.
    + lia.
Qed.

(** X21.  A simulator tick works on the trackers of the devices it is
    given and on nothing else: the progress table keeps exactly its
    devices (no tracker is created or dropped), the tracker of every other
    device is left as it is, and at most one row per listed device is
    inserted.  On an empty table, as [stopSimulation] leaves it, a tick
    inserts nothing and the table stays empty. *)
Theorem simulator_tick_is_per_device now devicePaths ref :
  let r := simulatePosition now devicePaths ref in
  dom r.1 = dom ref /\
  (forall d, d ∉ (dp_deviceId <$> devicePaths) -> r.1 !! d = ref !! d) /\
  length r.2 <= length devicePaths /\
  simulatePosition now devicePaths (Supabase.stopSimulation ref) = (∅, []).
Proof.
  intros r. subst r. unfold simulatePosition.
  destruct (simulatePosition_facts now devicePaths (ref, [])) as (Hdom & Hother & Hlen).
  split; [exact Hdom|]. split; [exact Hother|]. split; [exact Hlen|].
  unfold Supabase.stopSimulation.
  induction devicePaths as [|dp dps IH]; [reflexivity|].
  simpl. unfold simulateOne at 2. cbn [fst]. rewrite lookup_empty. apply IH.
  - apply (simulatePosition_facts now dps (∅, [])).
  - intros d Hd. apply (simulatePosition_facts now dps (∅, [])). exact Hd.
  - apply (simulatePosition_facts now dps (∅, [])).
Qed.

Lemma createTunnelPath_depths pathType :
  Forall (fun w => (0 <= depth w <= 280)%Q) (createTunnelPath pathType).
Proof.
  assert (Hb : forallb (fun w => Qle_bool 0 (depth w) && Qle_bool (depth w) 280)
                 (createTunnelPath pathType) = true)
    by (destruct pathType; vm_compute; reflexivity).
  apply Forall_forall. intros w Hw. apply list_elem_of_In in Hw.
  rewrite forallb_forall in Hb. specialize (Hb w Hw).
  apply andb_true_iff in Hb as [H0 H1]. split; apply Qle_bool_iff; assumption.
Qed.

(** X22.  Each of the three routes resolves every one of its node ids in
    the mine layout (25, 15 and 18 waypoints), so on any of them every row a
    valid tracker inserts has a depth between 0 and 280 m and a signal
    strength between 5 and 100.  The routes end on the node they start
    from, so the last segment has length 0: with a square root that is 0
    at 0, a tracker on the last waypoint moves to waypoint 0 with progress 0
    in one tick, whatever its progress was, and inserts a surface row. *)
Theorem simulated_routes_stay_in_range pathType now random1 random2 deviceId st :
  let path := createTunnelPath pathType in
  length path =
    length (match pathType with path1 => route1 | path2 => route2 | path3 => route3 end) /\
  ((forall v, 0 <= Math_sqrt v)%Q ->
   (forall dx dz, -180 <= headingDegrees dx dz <= 180)%Q ->
   validTracker path st ->
   (0 <= random1)%Q -> (0 <= random2 < 1)%Q ->
   exists row,
     (simulateDevice now random1 random2 deviceId path st).2 = Some row /\
     (0 <= p_depth row <= 280)%Q /\
     (5 <= signal_strength row <= 100)%Z) /\
  (Math_sqrt 0 == 0 ->
   Supabase.pathIndex st = (jsLength path - 1)%Z ->
   exists row,
     simulateDevice now random1 random2 deviceId path st
       = (Supabase.freshProgress, Some row) /\
     p_depth row = 0%Q /\ zone row = "Surface").
Proof.
  intros path. subst path. split; [destruct pathType; reflexivity|]. split.
  - intros Hsqrt Hraw Hvalid Hr1 Hr2.
    destruct (simulateDevice_row_ranges now random1 random2 deviceId
                (createTunnelPath pathType) st 0 280 Hsqrt Hraw Hvalid
                (createTunnelPath_depths pathType) ltac:(lra) Hr1 Hr2)
      as (row & Hrow & Hd & Hs & _).
    exists row. auto.
  - intros Hzero Hidx.
    assert (Hseg : forall c nx,
               at_index (createTunnelPath pathType) (Supabase.pathIndex st) = Some c ->
               at_index (createTunnelPath pathType)
                 (Z.rem (Supabase.pathIndex st + 1) (jsLength (createTunnelPath pathType)))
                 = Some nx ->
               segmentLength c nx = Math_sqrt 0 /\ depth nx = 0%Q /\
               Z.rem (Supabase.pathIndex st + 1) (jsLength (createTunnelPath pathType)) = 0%Z).
    { rewrite Hidx. intros c nx.
      destruct pathType; vm_compute; intros [= <-] [= <-]; auto. }
    assert (Hin : (0 <= Supabase.pathIndex st < jsLength (createTunnelPath pathType))%Z).
    { rewrite Hidx. destruct pathType; vm_compute; split; congruence. }
    destruct (at_index_in_range _ _ Hin) as [c Hc].
    destruct (at_index_in_range _ _ (at_index_rem_next _ _ Hin)) as [nx Hn].
    destruct (Hseg c nx Hc Hn) as (Hlen & Hdepth & Hrem).
    unfold simulateDevice.
    destruct (createTunnelPath pathType) as [|w ws];
      [unfold jsLength in Hin; simpl in Hin; lia|].
    rewrite Hc, Hn, Hlen.
    replace (Qeq_bool (Math_sqrt 0) 0) with true
      by (symmetry; apply Qeq_bool_iff; exact Hzero).
    cbn [orb Supabase.pathIndex]. rewrite Hn.
    eexists. split.
    + rewrite Hrem. reflexivity.
    + cbn [p_depth zone positionData]. split; [exact Hdepth|].
      rewrite Hdepth. reflexivity.
Qed.
End SimulatorTick.

(** *** The further properties at concrete inputs *)

Lemma index_playback_ends_witness :
  IndexPage.isPlaying (Nat.iter 7 (IndexPage.playbackStep 10) indexDoubleSpeed) = false /\
  IndexPage.playbackIndex (Nat.iter 7 (IndexPage.playbackStep 10) indexDoubleSpeed) = 9%Z.
Proof.
  destruct (index_playback_ends 7 10 indexDoubleSpeed) as (Hp & Hidx & Hstable).
  - reflexivity.
  - discriminate.
  - reflexivity.
  - vm_compute. split; discriminate.
  - vm_compute. discriminate.
  - split; [exact Hp|exact Hidx].
Defined.

Lemma index_playback_stuck_below_speed_1_witness :
  Nat.iter 1000 (IndexPage.playbackStep 10) indexHalfSpeed = indexHalfSpeed.
Proof.
  apply index_playback_stuck_below_speed_1.
  - reflexivity.
  - vm_compute. split; congruence.
  - split; [discriminate|reflexivity].
Defined.

Lemma index_cursor_stays_in_history_witness :
  let s := IndexPage.handle 2 (IndexPage.handleTogglePlay 2 IndexPage.initial)
             IndexPage.Step in
  (-1 <= IndexPage.playbackIndex s <= 2 - 1)%Z /\
  is_Some (IndexPage.activePosition (IndexPage.playbackIndex s)
             (trackHistory (state hookTwoFixes)) None).
Proof.
  intros s. subst s.
  destruct (index_cursor_stays_in_history 2 2
              (IndexPage.handleTogglePlay 2 IndexPage.initial) IndexPage.Step
              (trackHistory (state hookTwoFixes)) None) as (Hrange & _ & Hactive).
  - lia.
  - reflexivity.
  - exact I.
  - discriminate.
  - vm_compute. split; discriminate.
  - split; [exact Hrange|]. apply Hactive. vm_compute. discriminate.
Defined.

Lemma alert_feed_keeps_newest_50_witness :
  length (AlertFeed.feedAlerts alertRows60 []) = 50 /\
  AlertFeed.feedAlerts alertRows60 []
    = rev (AlertFeed.toAlert <$> drop 10 alertRows60).
Proof.
  destruct (alert_feed_keeps_newest_50 alertRows60 []) as (_ & _ & Hmany);
    [simpl; lia|].
  destruct Hmany as [Heq Hlen]; [vm_compute; lia|].
  split; [exact Hlen|exact Heq].
Defined.

Lemma simulator_step_keeps_tracker_valid_witness :
  Simulator.validTracker (Simulator.createTunnelPath Simulator.path1)
    (Simulator.simulateDevice (H := sampleSimNumerics) 1000 (1 # 2) (1 # 2) "drill-a"
       (Simulator.createTunnelPath Simulator.path1) trackerMidway).1 /\
  Simulator.simulateDevice (H := sampleSimNumerics) 1000 (1 # 2) (1 # 2) "drill-a"
    (Simulator.createTunnelPath Simulator.path1)
    {| Supabase.pathIndex := 25; Supabase.progress := 0 |}
  = ({| Supabase.pathIndex := 25; Supabase.progress := 0 |}, None).
Proof.
  split.
  - apply (simulator_step_keeps_tracker_valid (H := sampleSimNumerics)).
    + exact Qabs_nonneg.
    + split; [vm_compute; split; congruence|split; [discriminate|reflexivity]].
  - apply (simulator_step_keeps_tracker_valid (H := sampleSimNumerics)).
    + exact Qabs_nonneg.
    + vm_compute. intros [_ Hlt]. discriminate.
Defined.

Lemma simulated_row_ranges_witness :
  exists row,
    (Simulator.simulateDevice (H := sampleSimNumerics) 1000 (1 # 2) (1 # 2) "drill-a"
       (Simulator.createTunnelPath Simulator.path1) trackerMidway).2 = Some row /\
    (0 <= Simulator.p_depth row <= 280)%Q /\
    (5 <= Simulator.signal_strength row <= 100)%Z.
Proof.
  destruct (simulated_row_ranges (H := sampleSimNumerics) 1000 (1 # 2) (1 # 2) "drill-a"
              (Simulator.createTunnelPath Simulator.path1) trackerMidway 0 280)
    as (row & Hrow & Hd & Hs & _).
  - exact Qabs_nonneg.
  - intros dx dz. split; discriminate.
  - split; [vm_compute; split; congruence|split; [discriminate|reflexivity]].
  - apply (createTunnelPath_depths Simulator.path1).
  - discriminate.
  - discriminate.
  - split; [discriminate|reflexivity].
  - exists row. auto.
Defined.

Lemma simulated_routes_stay_in_range_witness :
  exists row,
    Simulator.simulateDevice (H := sampleSimNumerics) 1000 (1 # 2) (1 # 2) "drill-a"
      (Simulator.createTunnelPath Simulator.path1) trackerAtEnd
    = (Supabase.freshProgress, Some row) /\
    Simulator.p_depth row = 0%Q /\ Simulator.zone row = "Surface".
Proof.
  apply (simulated_routes_stay_in_range (H := sampleSimNumerics) Simulator.path1).
  - reflexivity.
  - reflexivity.
Defined.

(** ** The device record and the alerts of the default fences *)

Section DeviceRecord.
Context `{JsNumerics}.

(** What every operation keeps of the device and of the underground flag. *)
Lemma applyAction_device h a :
  let h' := applyAction h a in
  (Device.id (device (state h)) = "vehicle-001" ->
   Device.id (device (state h')) = "vehicle-001") /\
  (Device.name (device (state h)) = "Mining Truck #1" ->
   Device.name (device (state h')) = "Mining Truck #1") /\
  (Device.lastPosition (device (state h)) = last (trackHistory (state h)) ->
   Device.lastPosition (device (state h')) = last (trackHistory (state h'))) /\
  (isUnderground (state h)
     = match last (trackHistory (state h)) with
       | Some p => Qlt_bool 10 (GPSPosition.depth p)
       | None => false
       end ->
   isUnderground (state h')
     = match last (trackHistory (state h')) with
       | Some p => Qlt_bool 10 (GPSPosition.depth p)
       | None => false
       end).
Proof.
  destruct a; cbn [applyAction]; cbv zeta.
  - unfold handlePosition. destruct (isPlaying (state h)); [tauto|].
    cbn [state device trackHistory isUnderground Device.id Device.name
         Device.lastPosition].
    rewrite last_snoc. unfold positionOf, newPosition. cbn [GPSPosition.depth].
    repeat split; auto.
  - unfold playbackTick, onState. cbn [state]. cbv zeta.
    destruct (jsLength (trackHistory (state h)) <=? playbackIndex (state h) + 1)%Z;
      cbn [device trackHistory isUnderground]; tauto.
  - unfold startPlayback, onState. cbn [state device trackHistory isUnderground]. tauto.
  - unfold stopPlayback, onState. cbn [state device trackHistory isUnderground]. tauto.
  - unfold setPlaybackIndex, onState. cbn [state device trackHistory isUnderground]. tauto.
  - unfold setPlaybackSpeed, onState. cbn [state device trackHistory isUnderground]. tauto.
  - unfold dismissAlert, onState, withAlertsAndDevice.
    cbn [state device trackHistory isUnderground]. tauto.
  - unfold addGeofence, onState. cbn [state device trackHistory isUnderground]. tauto.
  - unfold triggerEmergency, onState, withAlertsAndDevice, withStatus. cbn [state].
    destruct (currentPosition (state h));
      cbn [device trackHistory isUnderground Device.id Device.name Device.lastPosition];
      tauto.
  - unfold reportBreakdown, onState, withAlertsAndDevice, withStatus. cbn [state].
    destruct (currentPosition (state h));
      cbn [device trackHistory isUnderground Device.id Device.name Device.lastPosition];
      tauto.
  - unfold clearEmergency, onState, withAlertsAndDevice, withStatus.
    cbn [state device trackHistory isUnderground Device.id Device.name
         Device.lastPosition]. tauto.
Qed.

(** X23.  Whatever sequence of the hook's operations runs from the initial
    state, the device keeps its identifier and name, its [lastPosition] is
    the newest position of the history (also while playback shows an older
    one as current position), and the underground flag says whether the
    depth of that newest position exceeds 10 m. *)
Theorem device_follows_newest_fix acts :
  let s := state (runActions acts initialHook) in
  Device.id (device s) = "vehicle-001" /\
  Device.name (device s) = "Mining Truck #1" /\
  Device.lastPosition (device s) = last (trackHistory s) /\
  isUnderground s
    = match last (trackHistory s) with
      | Some p => Qlt_bool 10 (GPSPosition.depth p)
      | None => false
      end.
Proof.
  cbv zeta. unfold runActions.
  assert (Hgen : forall h,
             (Device.id (device (state h)) = "vehicle-001" /\
              Device.name (device (state h)) = "Mining Truck #1" /\
              Device.lastPosition (device (state h)) = last (trackHistory (state h)) /\
              isUnderground (state h)
                = match last (trackHistory (state h)) with
                  | Some p => Qlt_bool 10 (GPSPosition.depth p)
                  | None => false
                  end) ->
             let s := state (foldl applyAction h acts) in
             Device.id (device s) = "vehicle-001" /\
             Device.name (device s) = "Mining Truck #1" /\
             Device.lastPosition (device s) = last (trackHistory s) /\
             isUnderground s
               = match last (trackHistory s) with
                 | Some p => Qlt_bool 10 (GPSPosition.depth p)
                 | None => false
                 end).
  { induction acts as [|a acts IH]; intros h Hh; [exact Hh|].
    simpl. apply IH.
    destruct (applyAction_device h a) as (H1 & H2 & H3 & H4).
    destruct Hh as (Hh1 & Hh2 & Hh3 & Hh4). auto. }
  apply Hgen. repeat split.
Qed.
End DeviceRecord.

Section DefaultFences.
Context `{JsNumerics}.

Lemma checkFence_default now dev lastPos newPos depth acc fence lat lng :
  Device.id dev = "vehicle-001" ->
  In fence (createMineGeofences lat lng) ->
  Forall defaultAlert acc ->
  Forall defaultAlert (checkFence now dev lastPos newPos depth acc fence).
Proof.
  intros Hid Hin Hacc. unfold checkFence.
  destruct lastPos as [p|]; [|exact Hacc].
  destruct Hin as [<-|[<-|[<-|[]]]];
    cbn [Geofence.isActive Geofence.alertOnEnter Geofence.alertOnExit negb];
    set (wasInside := insideFence _ p); set (isInside := insideFence _ newPos);
    destruct wasInside, isInside; cbn [andb negb]; try exact Hacc;
    (constructor; [|exact Hacc]);
    (split; [reflexivity|split; [exact Hid|]]).
  - left. repeat split.
  - right. left. repeat split.
Qed.

Lemma geofenceLoop_default now dev lastPos newPos depth gs acc lat lng :
  Device.id dev = "vehicle-001" ->
  (forall fence, In fence gs -> In fence (createMineGeofences lat lng)) ->
  Forall defaultAlert acc ->
  Forall defaultAlert (geofenceLoop now dev lastPos newPos depth gs acc).
Proof.
  intros Hid. unfold geofenceLoop. revert acc.
  induction gs as [|g gs IH]; intros acc Hgs Hacc; [exact Hacc|].
  simpl. apply IH.
  - intros fence Hin. apply Hgs. right. exact Hin.
  - apply checkFence_default with lat lng; [exact Hid| |exact Hacc].
    apply Hgs. left. reflexivity.
Qed.

Lemma handlePosition_default now position h :
  isPlaying (state h) = false ->
  Device.id (device (state h)) = "vehicle-001" ->
  (initialPositionSet h = true ->
   exists lat lng, geofences (state h) = createMineGeofences lat lng) ->
  Forall defaultAlert (alerts (state h)) ->
  let h' := handlePosition now position h in
  isPlaying (state h') = false /\
  Device.id (device (state h')) = "vehicle-001" /\
  (exists lat lng, geofences (state h') = createMineGeofences lat lng) /\
  Forall defaultAlert (alerts (state h')).
Proof.
  intros Hlive Hid Hgs Hacc. cbv zeta.
  assert (Hforce : exists lat lng, geofencesInForce position h = createMineGeofences lat lng).
  { unfold geofencesInForce. destruct (initialPositionSet h); [auto|eauto]. }
  unfold handlePosition. rewrite Hlive.
  cbn [state isPlaying device Device.id geofences alerts].
  split; [reflexivity|]. split; [exact Hid|]. split; [exact Hforce|].
  destruct Hforce as (lat & lng & ->).
  apply Forall_take. unfold signalLossCheck.
  assert (Hloop : Forall defaultAlert
                    (geofenceLoop now (device (state h)) (currentPosition (state h))
                       (positionOf now position h)
                       (calculateDepth now (c_accuracy (coords position))
                          (trackHistory (state h)))
                       (createMineGeofences lat lng) (alerts (state h)))).
  { apply geofenceLoop_default with lat lng; auto. }
  destruct (signalLossGuard _ _); [|exact Hloop].
  constructor; [|exact Hloop].
  split; [reflexivity|]. split; [exact Hid|]. right. right. repeat split.
Qed.

(** X24.  With the fences the hook creates itself, position updates from
    the initial state raise three kinds of alert only: leaving the safe zone
    (priority high), entering the hazard zone (priority critical) and losing
    the signal (priority high).  The emergency rally point never alerts, and
    every alert in the list is unread and names the vehicle. *)
Theorem default_fences_alert_kinds fixes a :
  In a (alerts (state (runFixes fixes initialHook))) ->
  Alert.isRead a = false /\ Alert.deviceId a = "vehicle-001" /\ defaultAlertKind a.
Proof.
  intros Hin.
  assert (Hgen : forall h,
             isPlaying (state h) = false ->
             Device.id (device (state h)) = "vehicle-001" ->
             (initialPositionSet h = true ->
              exists lat lng, geofences (state h) = createMineGeofences lat lng) ->
             Forall defaultAlert (alerts (state h)) ->
             Forall defaultAlert (alerts (state (runFixes fixes h)))).
  { clear Hin. unfold runFixes.
    induction fixes as [|f fixes IH]; intros h H1 H2 H3 H4; [exact H4|].
    cbn [foldl].
    destruct (handlePosition_default f.1 f.2 h H1 H2 H3 H4) as (H1' & H2' & H3' & H4').
    apply IH; [exact H1'|exact H2'|intros _; exact H3'|exact H4']. }
  assert (Hall : Forall defaultAlert (alerts (state (runFixes fixes initialHook)))).
  { apply Hgen; [reflexivity|reflexivity|discriminate|constructor]. }
  rewrite Forall_forall in Hall. apply Hall. apply list_elem_of_In. exact Hin.
Qed.
End DefaultFences.

(** ** Compass labels of the status panel and of the index page *)

Section Compass.

Lemma Math_round_bounds (x : Q) :
  (inject_Z (Math_round x) - (1 # 2) <= x < inject_Z (Math_round x) + (1 # 2))%Q.
Proof.
  unfold Math_round.
  pose proof (Qfloor_le (x + (1 # 2))) as Hlo.
  pose proof (Qlt_floor (x + (1 # 2))) as Hhi.
  rewrite inject_Z_plus in Hhi. change (inject_Z 1) with 1%Q in Hhi.
  generalize dependent (inject_Z (Qfloor (x + (1 # 2)))). intros q Hlo Hhi.
  split; lra.
Qed.

(** The eighth of the circle a heading is rounded to. *)
Lemma heading_octant (heading : Q) :
  let k := Math_round (heading / 45) in
  (45 * inject_Z k - 22.5 <= heading < 45 * inject_Z k + 22.5)%Q.
Proof.
  intros k. subst k.
  pose proof (Math_round_bounds (heading / 45)) as Hb.
  assert (Hdiv : (heading / 45 * 45 == heading)%Q) by (apply Qdiv_mult_l; discriminate).
  generalize dependent (inject_Z (Math_round (heading / 45))).
  generalize dependent (heading / 45)%Q. intros t Ht q Hb.
  split; lra.
Qed.

(** X25.  For a heading between 0 and 360 degrees, as the rows of the
    simulator carry it, the status panel and the index page show the same
    compass label: the status panel's rounding to the nearest multiple of 45
    and the index page's intervals agree, 360 included.  For a heading
    between -337.5 and -22.5 the status panel has no label (the index into
    its table is negative) while the index page shows "N". *)
Theorem compass_labels_agree heading :
  ((0 <= heading <= 360)%Q ->
   StatusPanel.getHeadingDirection heading = Some (IndexPage.headingDirection heading)) /\
  ((-337.5 <= heading < -22.5)%Q ->
   StatusPanel.getHeadingDirection heading = None /\
   IndexPage.headingDirection heading = "N").
Proof.
  pose proof (heading_octant heading) as Hk. cbv zeta in Hk.
  unfold StatusPanel.getHeadingDirection. cbv zeta.
  set (k := Math_round (heading / 45)) in *.
  split.
  - intros Hrange.
    assert (Hcases : (0 <= k <= 8)%Z).
    { split.
      - apply Z.lt_succ_r. apply Z.lt_pred_lt_succ. rewrite (Zlt_Qlt (Z.pred 0) k).
        change (inject_Z (Z.pred 0)) with (-1)%Q.
        generalize dependent (inject_Z k). intros q Hk. lra.
      - apply Z.lt_succ_r. rewrite (Zlt_Qlt k (Z.succ 8)).
        change (inject_Z (Z.succ 8)) with 9%Q.
        generalize dependent (inject_Z k). intros q Hk. lra. }
    assert (Hk9 : (k = 0 \/ k = 1 \/ k = 2 \/ k = 3 \/ k = 4 \/ k = 5 \/ k = 6 \/ k = 7
                   \/ k = 8)%Z) by lia.
    clear Hcases. unfold IndexPage.headingDirection.
    destruct Hk9 as [Hv|[Hv|[Hv|[Hv|[Hv|[Hv|[Hv|[Hv|Hv]]]]]]]]; rewrite Hv in *;
      unfold inject_Z in Hk;
      match goal with
      | |- at_index ?l ?i = _ =>
          let v := eval vm_compute in (at_index l i) in
          change (at_index l i) with v
      end;
      repeat
        (match goal with
         | |- context [Qlt_bool ?a ?b] =>
             let E := fresh "E" in
             first
               [ assert (E : Qlt_bool a b = true) by (apply Qlt_bool_iff; lra)
               | assert (E : Qlt_bool a b = false) by (apply Qlt_bool_false_iff; lra) ];
             rewrite E; clear E
         | |- context [Qle_bool ?a ?b] =>
             let E := fresh "E" in
             first
               [ assert (E : Qle_bool a b = true) by (apply Qle_bool_iff; lra)
               | assert (E : Qle_bool a b = false)
                   by (apply not_true_iff_false; rewrite Qle_bool_iff; lra) ];
             rewrite E; clear E
         end; cbn [andb orb negb]);
      try reflexivity.
  - intros Hrange.
    assert (Hcases : (-7 <= k <= -1)%Z).
    { split.
      - apply Z.lt_succ_r. apply Z.lt_pred_lt_succ. rewrite (Zlt_Qlt (Z.pred (-7)) k).
        change (inject_Z (Z.pred (-7))) with (-8)%Q.
        generalize dependent (inject_Z k). intros q Hk. lra.
      - apply Z.lt_succ_r. rewrite (Zlt_Qlt k (Z.succ (-1))).
        change (inject_Z (Z.succ (-1))) with 0%Q.
        generalize dependent (inject_Z k). intros q Hk. lra. }
    split.
    + unfold at_index.
      assert (Hneg : (Z.rem k 8 <? 0)%Z = true).
      { clear Hk. generalize dependent k. intros z Hz.
        assert (Hz7 : (z = -7 \/ z = -6 \/ z = -5 \/ z = -4 \/ z = -3 \/ z = -2
                       \/ z = -1)%Z) by lia.
        destruct Hz7 as [->|[->|[->|[->|[->|[->| ->]]]]]]; reflexivity. }
      rewrite Hneg. reflexivity.
    + unfold IndexPage.headingDirection. clear Hk.
      repeat
        (match goal with
         | |- context [Qlt_bool ?a ?b] =>
             let E := fresh "E" in
             first
               [ assert (E : Qlt_bool a b = true) by (apply Qlt_bool_iff; lra)
               | assert (E : Qlt_bool a b = false) by (apply Qlt_bool_false_iff; lra) ];
             rewrite E; clear E
         | |- context [Qle_bool ?a ?b] =>
             let E := fresh "E" in
             first
               [ assert (E : Qle_bool a b = true) by (apply Qle_bool_iff; lra)
               | assert (E : Qle_bool a b = false)
                   by (apply not_true_iff_false; rewrite Qle_bool_iff; lra) ];
             rewrite E; clear E
         end; cbn [andb orb negb]);
      try reflexivity.
Qed.
End Compass.

(** ** The devices [startSimulation] picks *)

Section DeviceSelectionFacts.
Import DeviceSelection.

Lemma indexedFrom_fst i devices : (indexedFrom i devices).*1 = seq i (length devices).
Proof.
  revert i. induction devices as [|d devices IH]; intros i; [reflexivity|].
  simpl. rewrite IH. reflexivity.
Qed.

Lemma indexedFrom_length i devices : length (indexedFrom i devices) = length devices.
Proof.
  revert i. induction devices as [|d devices IH]; intros i; [reflexivity|].
  simpl. rewrite IH. reflexivity.
Qed.

Lemma indexedFrom_lookup i devices j d :
  (j, d) ∈ indexedFrom i devices -> i <= j /\ devices !! (j - i) = Some d.
Proof.
  revert i. induction devices as [|a devices IH]; intros i Hin.
  - apply elem_of_nil in Hin. destruct Hin.
  - simpl in Hin. apply elem_of_cons in Hin as [Heq|Hin].
    + injection Heq as -> ->. split; [lia|]. rewrite Nat.sub_diag. reflexivity.
    + apply IH in Hin as [Hle Hl]. split; [lia|].
      replace (j - i) with (S (j - S i)) by lia. exact Hl.
Qed.

Lemma filter_subseteq {A} (f : A -> bool) (l : list A) x :
  x ∈ List.filter f l -> x ∈ l /\ f x = true.
Proof.
  intros Hin. apply list_elem_of_In in Hin. apply filter_In in Hin as [Hin Hf].
  split; [apply list_elem_of_In; exact Hin|exact Hf].
Qed.

Lemma NoDup_fst_filter {A B} (f : A * B -> bool) (l : list (A * B)) :
  NoDup l.*1 -> NoDup (List.filter f l).*1.
Proof.
  induction l as [|x l IH]; intros Hnd; [constructor|].
  rewrite fmap_cons in Hnd. apply NoDup_cons in Hnd as [Hx Hnd].
  simpl. destruct (f x); [|apply IH, Hnd].
  rewrite fmap_cons. apply NoDup_cons. split; [|apply IH, Hnd].
  intros Hin. apply Hx. apply list_elem_of_fmap in Hin as (y & Hy & Hin).
  apply filter_subseteq in Hin as [Hin _].
  rewrite Hy. apply list_elem_of_fmap_2. exact Hin.
Qed.

Lemma NoDup_fst_take {A B} (n : nat) (l : list (A * B)) :
  NoDup l.*1 -> NoDup (take n l).*1.
Proof.
  intros Hnd. rewrite fmap_take.
  apply (sublist_NoDup _ _ Hnd (sublist_take l.*1 n)).
Qed.

(** How many devices stay when the device at position [k] is left out. *)
Lemma others_count i devices e :
  length (List.filter (fun d => negb (includesDevice [e] d)) (indexedFrom i devices))
  = length devices - (if decide (i <= e.1 < i + length devices) then 1 else 0).
Proof.
  revert i. induction devices as [|a devices IH]; intros i.
  - simpl. destruct (decide _); reflexivity.
  - cbn [indexedFrom List.filter]. unfold includesDevice at 1. cbn [existsb fst].
    rewrite orb_false_r. specialize (IH (S i)).
    destruct (e.1 =? i) eqn:Heq.
    + apply Nat.eqb_eq in Heq. cbn [negb]. rewrite IH.
      rewrite decide_False by lia.
      rewrite decide_True by (cbn [length]; lia). cbn [length]. lia.
    + apply Nat.eqb_neq in Heq. cbn [negb length]. rewrite IH.
      destruct (decide (S i <= e.1 < S i + length devices)) as [Hin|Hout].
      * rewrite decide_True by (cbn [length]; lia).
        destruct devices; [simpl in Hin; lia|cbn [length]; lia].
      * rewrite decide_False by (cbn [length]; lia). lia.
Qed.

Lemma others_avoid (dr : list (nat * TrackingDevice)) ds d :
  d ∈ List.filter (fun d => negb (includesDevice dr d)) ds ->
  d.1 ∉ dr.*1.
Proof.
  intros Hin Hd. apply filter_subseteq in Hin as [_ Hf].
  apply negb_true_iff in Hf.
  apply list_elem_of_fmap in Hd as (e & He & Hd).
  assert (Hex : includesDevice dr d = true).
  { unfold includesDevice. apply existsb_exists. exists e.
    split; [apply list_elem_of_In; exact Hd|]. apply Nat.eqb_eq. congruence. }
  congruence.
Qed.

(** The picked devices are pairwise distinct elements of the device list. *)
Lemma devicesToSimulate_distinct devices :
  NoDup (devicesToSimulate devices).*1 /\
  (forall i d, (i, d) ∈ devicesToSimulate devices -> devices !! i = Some d).
Proof.
  unfold devicesToSimulate.
  assert (Hnd : NoDup (indexedFrom 0 devices).*1)
    by (rewrite indexedFrom_fst; apply NoDup_seq).
  assert (Hfrom : forall x, x ∈ indexedFrom 0 devices -> devices !! x.1 = Some x.2).
  { intros [i d] Hin. apply indexedFrom_lookup in Hin as [_ Hl].
    rewrite Nat.sub_0_r in Hl. exact Hl. }
  set (drills := take 3 _).
  assert (Hdr : forall x, x ∈ drills -> x ∈ indexedFrom 0 devices).
  { intros x Hx. apply (subseteq_take 3) in Hx.
    apply filter_subseteq in Hx as [Hx _]. exact Hx. }
  destruct (2 <=? length drills).
  - split; [apply NoDup_fst_take, NoDup_fst_filter, Hnd|].
    intros i d Hin. apply (Hfrom (i, d)), Hdr, Hin.
  - destruct ((length drills =? 1) && (2 <=? length devices)).
    + split.
      * apply NoDup_fst_take. rewrite fmap_app. apply NoDup_app.
        split; [apply NoDup_fst_take, NoDup_fst_filter, Hnd|]. split.
        -- intros x Hx Hin. apply list_elem_of_fmap in Hin as (d & -> & Hin).
           apply (subseteq_take 2) in Hin. apply others_avoid in Hin. tauto.
        -- apply NoDup_fst_take, NoDup_fst_filter, Hnd.
      * intros i d Hin. apply (Hfrom (i, d)).
        apply (subseteq_take 3) in Hin. apply elem_of_app in Hin as [Hin|Hin].
        -- apply Hdr, Hin.
        -- apply (subseteq_take 2) in Hin.
           apply filter_subseteq in Hin as [Hin _]. exact Hin.
    + split; [apply NoDup_fst_take, Hnd|].
      intros i d Hin. apply (Hfrom (i, d)). apply (subseteq_take _ _ _ Hin).
Qed.

(** X26.  [startSimulation] picks at most three devices, none of them
    twice and each one from the device list.  With two or more drill
    devices it picks the first three of them; otherwise it picks three
    devices, or all when there are fewer, with the single drill device, if
    there is one, in front.  So whenever there are two devices or more at
    least two are simulated, and with a non-empty device list the
    selection is never empty. *)
Theorem devices_to_simulate devices :
  let sel := devicesToSimulate devices in
  let drills := List.filter (fun d => isDrillDevice d.2) (indexedFrom 0 devices) in
  length sel <= 3 /\
  NoDup sel.*1 /\
  (forall i d, (i, d) ∈ sel -> devices !! i = Some d) /\
  (2 <= length drills -> sel = take 3 drills) /\
  (length drills < 2 -> length sel = Nat.min 3 (length devices)) /\
  (length drills = 1 -> 2 <= length devices -> take 1 sel = drills) /\
  (2 <= length devices -> 2 <= length sel) /\
  (devices <> [] -> sel <> []).
Proof.
  intros sel drills.
  assert (Hnd : NoDup (indexedFrom 0 devices).*1)
    by (rewrite indexedFrom_fst; apply NoDup_seq).
  assert (Hfrom : forall i d, (i, d) ∈ indexedFrom 0 devices -> devices !! i = Some d).
  { intros i d Hin. apply indexedFrom_lookup in Hin as [_ Hl].
    rewrite Nat.sub_0_r in Hl. exact Hl. }
  assert (Hdrills : forall x, x ∈ drills -> x ∈ indexedFrom 0 devices).
  { intros x Hx. apply filter_subseteq in Hx as [Hx _]. exact Hx. }
  assert (Hmain :
    length sel <= 3 /\ NoDup sel.*1 /\
    (forall x, x ∈ sel -> x ∈ indexedFrom 0 devices) /\
    (2 <= length drills -> sel = take 3 drills) /\
    (length drills < 2 -> length sel = Nat.min 3 (length devices)) /\
    (length drills = 1 -> 2 <= length devices -> take 1 sel = drills)).
  { subst sel. unfold devicesToSimulate. fold drills.
    pose proof (length_take drills 3) as Hlen.
    destruct (2 <=? length (take 3 drills)) eqn:Htwo.
    - apply Nat.leb_le in Htwo.
      split; [lia|]. split; [apply NoDup_fst_take, NoDup_fst_filter, Hnd|].
      split; [intros x Hx; apply Hdrills, (subseteq_take 3), Hx|].
      split; [reflexivity|]. split; lia.
    - apply Nat.leb_gt in Htwo.
      destruct ((length (take 3 drills) =? 1) && (2 <=? length devices)) eqn:Hone.
      + apply andb_true_iff in Hone as [Hone Hn].
        apply Nat.eqb_eq in Hone. apply Nat.leb_le in Hn.
        assert (Hd1 : length drills = 1) by lia.
        rewrite (take_ge drills 3) by lia.
        destruct drills as [|e [|]] eqn:Hdr; simpl in Hd1; try lia.
        assert (He : e ∈ indexedFrom 0 devices)
          by (apply Hdrills; apply list_elem_of_here).
        assert (Hcount : length (List.filter (fun d => negb (includesDevice [e] d))
                                   (indexedFrom 0 devices)) = length devices - 1).
        { rewrite others_count. rewrite decide_True; [reflexivity|].
          destruct e as [i d]. apply indexedFrom_lookup in He as [_ Hl].
          apply lookup_lt_Some in Hl. simpl. lia. }
        split; [rewrite length_take; lia|].
        split.
        { apply NoDup_fst_take. rewrite fmap_app. apply NoDup_app.
          split; [apply NoDup_singleton|]. split.
          - intros x Hx Hin. apply list_elem_of_fmap in Hin as (d & -> & Hin).
            apply (subseteq_take 2) in Hin. apply others_avoid in Hin. tauto.
          - apply NoDup_fst_take, NoDup_fst_filter, Hnd. }
        split.
        { intros x Hx. apply (subseteq_take 3) in Hx.
          apply elem_of_app in Hx as [Hx|Hx].
          - apply list_elem_of_singleton in Hx. subst x. exact He.
          - apply (subseteq_take 2) in Hx. apply filter_subseteq in Hx as [Hx _].
            exact Hx. }
        split; [simpl; lia|].
        split; [intros _; rewrite length_take, length_app, length_take, Hcount;
                cbn [length]; lia|].
        intros _ _. reflexivity.
      + split; [rewrite length_take; lia|].
        split; [apply NoDup_fst_take, Hnd|].
        split; [intros x Hx; apply (subseteq_take _ _ _ Hx)|].
        split; [lia|].
        split; [intros _; rewrite length_take, indexedFrom_length; lia|].
        intros Hd1 Hn. apply andb_false_iff in Hone as [Hone|Hone].
        * apply Nat.eqb_neq in Hone. lia.
        * apply Nat.leb_gt in Hone. lia. }
  destruct Hmain as (H1 & H2 & H3 & H4 & H5 & H6).
  split; [exact H1|]. split; [exact H2|].
  split; [intros i d Hin; apply Hfrom, H3, Hin|].
  split; [exact H4|]. split; [exact H5|]. split; [exact H6|].
  assert (Hlen : 2 <= length devices -> 2 <= length sel).
  { intros Hn. destruct (Nat.le_gt_cases 2 (length drills)) as [Hd|Hd].
    - rewrite (H4 Hd), length_take. lia.
    - rewrite (H5 Hd). lia. }
  split; [exact Hlen|].
  intros Hne Hsel.
  destruct (Nat.le_gt_cases 2 (length drills)) as [Hd|Hd].
  - rewrite (H4 Hd) in Hsel. apply (f_equal length) in Hsel.
    rewrite length_take in Hsel. cbn [length] in Hsel. lia.
  - specialize (H5 Hd). rewrite Hsel in H5. cbn [length] in H5.
    destruct devices; [congruence|cbn [length] in H5; lia].
Qed.
End DeviceSelectionFacts.

(** ** A started simulation inserts a row per device on every tick *)

Section SimulationRuns.
Context `{SimNumerics}.
Import DeviceSelection.

Lemma simulateOne_valid now acc dp st :
  (forall v, 0 <= Math_sqrt v)%Q ->
  acc.1 !! Simulator.dp_deviceId dp = Some st ->
  Simulator.validTracker (Simulator.dp_path dp) st ->
  exists st' row,
    Simulator.simulateOne now acc dp
      = (<[Simulator.dp_deviceId dp := st']> acc.1, acc.2 ++ [row]) /\
    Simulator.validTracker (Simulator.dp_path dp) st' /\
    Simulator.device_id row = Simulator.dp_deviceId dp.
Proof.
  intros Hsqrt Hst Hvalid. unfold Simulator.simulateOne. rewrite Hst.
  destruct (simulateDevice_cases now (Simulator.dp_random1 dp) (Simulator.dp_random2 dp)
              (Simulator.dp_deviceId dp) (Simulator.dp_path dp) st Hsqrt Hvalid)
    as (c & nx & Hc & Hn & [Hstep|(progress & Hprog & Hstep)]); rewrite Hstep;
    cbn [fst snd]; eexists; eexists; (split; [reflexivity|]);
    (split; [|reflexivity]); destruct Hvalid as [Hidx Hp];
    unfold Simulator.validTracker; cbn [Supabase.pathIndex Supabase.progress].
  - split; [apply at_index_rem_next; exact Hidx|lra].
  - split; [exact Hidx|lra].
Qed.

Lemma simulatePosition_valid now dps acc :
  (forall v, 0 <= Math_sqrt v)%Q ->
  NoDup (Simulator.dp_deviceId <$> dps) ->
  (forall dp, dp ∈ dps ->
     exists st, acc.1 !! Simulator.dp_deviceId dp = Some st /\
                Simulator.validTracker (Simulator.dp_path dp) st) ->
  let r := foldl (Simulator.simulateOne now) acc dps in
  (forall dp, dp ∈ dps ->
     exists st, r.1 !! Simulator.dp_deviceId dp = Some st /\
                Simulator.validTracker (Simulator.dp_path dp) st) /\
  (exists rows, r.2 = acc.2 ++ rows /\
                Simulator.device_id <$> rows = Simulator.dp_deviceId <$> dps).
Proof.
  intros Hsqrt. revert acc. induction dps as [|dp dps IH]; intros acc Hnd Hall r.
  - subst r. split; [exact Hall|]. exists []. rewrite app_nil_r. split; reflexivity.
  - subst r. rewrite fmap_cons in Hnd. apply NoDup_cons in Hnd as [Hfresh Hnd].
    destruct (Hall dp) as (st & Hst & Hvalid); [apply list_elem_of_here|].
    destruct (simulateOne_valid now acc dp st Hsqrt Hst Hvalid)
      as (st' & row & Hone & Hvalid' & Hid).
    cbn [foldl]. rewrite Hone.
    set (acc' := (<[Simulator.dp_deviceId dp := st']> acc.1, acc.2 ++ [row])).
    destruct (IH acc' Hnd) as (Hall' & rows & Hrows & Hids).
    { intros dp' Hin. destruct (Hall dp') as (s & Hs & Hv);
        [apply list_elem_of_further; exact Hin|].
      exists s. split; [|exact Hv]. unfold acc'. cbn [fst].
      rewrite lookup_insert_ne; [exact Hs|].
      intros Heq. apply Hfresh. rewrite Heq. apply list_elem_of_fmap_2. exact Hin. }
    split.
    + intros dp' Hin. apply elem_of_cons in Hin as [->|Hin]; [|apply Hall', Hin].
      exists st'. split; [|exact Hvalid'].
      destruct (simulatePosition_facts now dps acc') as (_ & Hother & _).
      rewrite Hother by exact Hfresh. unfold acc'. cbn [fst].
      apply lookup_insert_eq.
    + exists (row :: rows). rewrite Hrows. unfold acc'. cbn [snd].
      rewrite <- app_assoc. split; [reflexivity|].
      rewrite !fmap_cons, Hid, Hids. reflexivity.
Qed.

Lemma pathsOfTick_ids dps : (pathsOfTick dps).*1 = Simulator.dp_deviceId <$> dps.
Proof.
  unfold pathsOfTick. rewrite <- list_fmap_compose. reflexivity.
Qed.

Lemma simulatePosition_rows now paths dps ref :
  (forall v, 0 <= Math_sqrt v)%Q ->
  NoDup paths.*1 ->
  pathsOfTick dps = paths ->
  trackersValid paths ref ->
  let r := Simulator.simulatePosition now dps ref in
  trackersValid paths r.1 /\ Simulator.device_id <$> r.2 = paths.*1.
Proof.
  intros Hsqrt Hnd Hpaths Hvalid r. subst r paths.
  rewrite pathsOfTick_ids in Hnd.
  destruct (simulatePosition_valid now dps (ref, []) Hsqrt Hnd)
    as (Hall & rows & Hrows & Hids).
  { intros dp Hin. apply (Hvalid (Simulator.dp_deviceId dp) (Simulator.dp_path dp)).
    unfold pathsOfTick.
    apply (list_elem_of_fmap_2
             (fun dp => (Simulator.dp_deviceId dp, Simulator.dp_path dp))).
    exact Hin. }
  unfold Simulator.simulatePosition. split.
  - intros d path Hin. unfold pathsOfTick in Hin.
    apply list_elem_of_fmap in Hin as (dp & Heq & Hin). injection Heq as -> ->.
    apply Hall, Hin.
  - rewrite Hrows, pathsOfTick_ids. exact Hids.
Qed.

Lemma runTicks_rows paths ticks ref :
  (forall v, 0 <= Math_sqrt v)%Q ->
  NoDup paths.*1 ->
  Forall (fun t => pathsOfTick t.2 = paths) ticks ->
  trackersValid paths ref ->
  trackersValid paths (runTicks ticks ref).1 /\
  Forall (fun rows => Simulator.device_id <$> rows = paths.*1) (runTicks ticks ref).2 /\
  length (runTicks ticks ref).2 = length ticks.
Proof.
  intros Hsqrt Hnd Hticks. revert ref.
  induction Hticks as [|t ticks Ht Hticks IH]; intros ref Hvalid.
  - simpl. split; [exact Hvalid|]. split; [constructor|reflexivity].
  - cbn [runTicks fst snd].
    destruct (simulatePosition_rows t.1 paths t.2 ref Hsqrt Hnd Ht Hvalid)
      as (Hvalid' & Hrows).
    destruct (IH _ Hvalid') as (Hv & Hall & Hlen).
    split; [exact Hv|]. split; [constructor; [exact Hrows|exact Hall]|].
    cbn [length]. rewrite Hlen. reflexivity.
Qed.

Lemma devicePaths_ids devices :
  (devicePaths devices).*1 = (fun d => td_id d.2) <$> devicesToSimulate devices.
Proof.
  unfold devicePaths. generalize pathTypeOf. generalize (devicesToSimulate devices).
  induction l as [|d l IH]; intros g; [reflexivity|].
  cbn [imap fmap list_fmap]. f_equal. apply (IH (g ∘ S)).
Qed.

Lemma devicePaths_routes devices d path :
  (d, path) ∈ devicePaths devices ->
  exists pathType, path = Simulator.createTunnelPath pathType.
Proof.
  unfold devicePaths. intros Hin.
  apply elem_of_lookup_imap_1 in Hin as (i & x & Heq & _).
  injection Heq as -> ->. eauto.
Qed.

Lemma selected_ids_NoDup devices (sel : list (nat * TrackingDevice)) :
  NoDup (td_id <$> devices) ->
  NoDup sel.*1 ->
  (forall i d, (i, d) ∈ sel -> devices !! i = Some d) ->
  NoDup ((fun d => td_id d.2) <$> sel).
Proof.
  intros Hids. induction sel as [|[i d] sel IH]; intros Hnd Hfrom; [constructor|].
  rewrite fmap_cons in Hnd. apply NoDup_cons in Hnd as [Hi Hnd].
  rewrite fmap_cons. apply NoDup_cons. split.
  - intros Hin. apply list_elem_of_fmap in Hin as ([j e] & Heq & Hin).
    cbn [snd] in Heq.
    assert (Hd : (td_id <$> devices) !! i = Some (td_id d)).
    { rewrite list_lookup_fmap, (Hfrom i d) by apply list_elem_of_here. reflexivity. }
    assert (He : (td_id <$> devices) !! j = Some (td_id d)).
    { rewrite list_lookup_fmap, (Hfrom j e) by (apply list_elem_of_further; exact Hin).
      simpl. congruence. }
    pose proof (NoDup_lookup _ _ _ _ Hids Hd He) as Hij. subst j.
    apply Hi. apply (list_elem_of_fmap_2 fst) in Hin. exact Hin.
  - apply IH; [exact Hnd|].
    intros j e Hin. apply Hfrom. apply list_elem_of_further. exact Hin.
Qed.

Lemma started_trackers_valid devices :
  trackersValid (devicePaths devices) (startSimulation devices ∅).
Proof.
  intros d path Hin.
  assert (Hd : d ∈ (devicePaths devices).*1)
    by (apply (list_elem_of_fmap_2 fst) in Hin; exact Hin).
  destruct (devicePaths_routes devices d path Hin) as [pathType ->].
  exists Supabase.freshProgress. split.
  - unfold startSimulation. destruct devices as [|dev devices].
    { apply elem_of_nil in Hin. destruct Hin. }
    destruct (devicesToSimulate (dev :: devices)) eqn:Hsel.
    { unfold devicePaths in Hin. rewrite Hsel in Hin.
      apply elem_of_nil in Hin. destruct Hin. }
    rewrite initSimulationState_lookup, lookup_empty.
    rewrite decide_True by exact Hd. reflexivity.
  - split; [|split; [discriminate|reflexivity]].
    destruct pathType; vm_compute; split; congruence.
Qed.

(** X27.  Once started on an empty progress table, with device ids that
    are pairwise distinct, the simulation never stalls: on every tick of
    the interval (the ticks running one after the other), whatever the
    clock and the random draws, each picked device gets exactly one row, in
    the order the devices were picked, and every tracker keeps addressing a
    waypoint of its device's route. *)
Theorem simulation_inserts_row_per_device devices ticks :
  (forall v, 0 <= Math_sqrt v)%Q ->
  NoDup (td_id <$> devices) ->
  Forall (fun t => pathsOfTick t.2 = devicePaths devices) ticks ->
  let r := runTicks ticks (startSimulation devices ∅) in
  Forall (fun rows =>
            Simulator.device_id <$> rows
            = (fun d => td_id d.2) <$> devicesToSimulate devices) r.2 /\
  length r.2 = length ticks /\
  trackersValid (devicePaths devices) r.1.
Proof.
  intros Hsqrt Hids Hticks r. subst r.
  assert (Hsel : NoDup (devicePaths devices).*1).
  { rewrite devicePaths_ids.
    destruct (devicesToSimulate_distinct devices) as [Hnd Hfrom].
    apply (selected_ids_NoDup devices _ Hids Hnd Hfrom). }
  destruct (runTicks_rows (devicePaths devices) ticks (startSimulation devices ∅)
              Hsqrt Hsel Hticks (started_trackers_valid devices))
    as (Hvalid & Hrows & Hlen).
  rewrite devicePaths_ids in Hrows.
  split; [exact Hrows|]. split; [exact Hlen|exact Hvalid].
Qed.
End SimulationRuns.

(** *** The properties of this part at concrete inputs *)

Lemma geofence_exit_alert_rule_witness :
  In (exitAlert 3000 (device (state hookTwoFixes)) safeFence
        (positionOf (H := gridNumerics) 3000 fixOutside.2 hookTwoFixes)
        (calculateDepth (H := gridNumerics) 3000 10 (trackHistory (state hookTwoFixes))))
     (emittedAlerts (H := gridNumerics) 3000 fixOutside.2 hookTwoFixes) /\
  isExit (exitAlert 3000 (device (state hookTwoFixes)) safeFence
            (positionOf (H := gridNumerics) 3000 fixOutside.2 hookTwoFixes)
            (calculateDepth (H := gridNumerics) 3000 10
               (trackHistory (state hookTwoFixes)))) = true.
Proof.
  destruct (geofence_exit_alert_rule (H := gridNumerics)) as (_ & _ & Hrule).
  apply (Hrule 3000%Z fixOutside.2 hookTwoFixes); [reflexivity|].
  exists safeFence. split; [left; reflexivity|]. split; [|reflexivity].
  split; [reflexivity|]. split; [|split; [vm_compute; reflexivity|reflexivity]].
  eexists. split; [reflexivity|vm_compute; discriminate].
Defined.

Lemma default_fences_alert_kinds_witness :
  match alerts (state (runFixes (H := gridNumerics)
                         [fixOrigin1; fixOrigin2; fixHazard1] initialHook)) with
  | a :: _ => Alert.priority a = Some critical /\ defaultAlertKind a
  | [] => False
  end.
Proof.
  pose proof (default_fences_alert_kinds (H := gridNumerics)
                [fixOrigin1; fixOrigin2; fixHazard1]) as Hkinds.
  remember (alerts (state (runFixes (H := gridNumerics)
                             [fixOrigin1; fixOrigin2; fixHazard1] initialHook)))
    as l eqn:El.
  vm_compute in El. subst l.
  split; [reflexivity|]. apply Hkinds. left. reflexivity.
Defined.

Lemma feed_latest_position_is_newest_witness :
  Supabase.allDevicePositions (Supabase.feed None rows410 Supabase.initial) !! "drill-c"
  = None.
Proof.
  pose proof (feed_latest_position_is_newest None rows410 "drill-c") as Hfeed.
  cbv zeta in Hfeed. destruct Hfeed as (_ & _ & Hnone).
  apply Hnone. vm_compute. reflexivity.
Defined.

Lemma simulator_tick_is_per_device_witness :
  (Simulator.simulatePosition (H := sampleSimNumerics) 1000 [drillPathA] runningTable).1
    !! "drill-b"
  = runningTable !! "drill-b".
Proof.
  pose proof (simulator_tick_is_per_device (H := sampleSimNumerics) 1000 [drillPathA]
                runningTable) as Htick.
  cbv zeta in Htick. destruct Htick as (_ & Hother & _).
  apply Hother. intros Hin. apply list_elem_of_singleton in Hin. discriminate.
Defined.

Lemma devices_to_simulate_witness :
  length (DeviceSelection.devicesToSimulate sampleDevices) = 3 /\
  2 <= length (DeviceSelection.devicesToSimulate sampleDevices).
Proof.
  pose proof (devices_to_simulate sampleDevices) as Hsel.
  cbv zeta in Hsel. destruct Hsel as (_ & _ & _ & _ & Hfew & _ & Htwo & _).
  split.
  - apply Hfew. vm_compute. lia.
  - apply Htwo. vm_compute. lia.
Defined.

Lemma compass_labels_agree_witness :
  StatusPanel.getHeadingDirection 90 = Some "E" /\
  StatusPanel.getHeadingDirection (-45) = None.
Proof.
  split.
  - apply (proj1 (compass_labels_agree 90)). split; discriminate.
  - apply (proj2 (compass_labels_agree (-45))). split; [discriminate|reflexivity].
Defined.

Lemma simulation_inserts_row_per_device_witness :
  length (DeviceSelection.runTicks (H := sampleSimNumerics) [sampleTick]
            (DeviceSelection.startSimulation sampleDevices ∅)).2 = 1.
Proof.
  pose proof (simulation_inserts_row_per_device (H := sampleSimNumerics) sampleDevices
                [sampleTick]) as Hrun.
  cbv zeta in Hrun. destruct Hrun as (_ & Hlen & _).
  - exact Qabs_nonneg.
  - apply (bool_decide_unpack _). vm_compute. exact I.
  - constructor; [vm_compute; reflexivity|constructor].
  - exact Hlen.
Defined.

(** ** Starting and stopping the simulator *)

Section SimulatorStart.
Context `{SimNumerics}.
Import DeviceSelection.





End SimulatorStart.

(** *** The progress trackers at a concrete table *)

